(** * Documentation agent: segmentation, retrieval and orchestration

    A shallow embedding of the conversational retrieval engine
    ([app/agents/nodes.py], [app/agents/workflow.py]), of the document
    segmenter ([app/processors/text_processor.py]), of the fragment store
    adapter ([app/processors/embedding_manager.py]), of the text helpers
    ([app/utils/helpers.py]) and of the topic analysis
    ([app/services/chat_service.py]), with the properties their
    specification states and further properties the code has.

    Conventions.
    - A Python [str] is a list of characters; a character is a code point
      below 256 (Latin-1), carried by [ascii].  [len] is [length].
    - Python floats are read as the rationals they denote ([Q]); every
      concrete value used below is dyadic, so the arithmetic on it is exact
      in binary64 as well.
    - A Python [dict] with string keys is a [gmap string _]; an ordered
      dict whose iteration order matters is an association list.
    - External collaborators (the language model, the Chroma collection,
      the regular-expression engine for the intent keyword patterns) are
      not part of the repository: their answers for one turn are inputs of
      the model, gathered in the record [world]. *)

From Stdlib Require Import List String Ascii Arith ZArith QArith Lia Lqa Bool.
From Stdlib Require Import Sorted DecimalString DecimalNat.
From stdpp Require Import gmap strings.
Import ListNotations.

Local Open Scope nat_scope.
Local Open Scope list_scope.

(** ** Python strings *)

Module Py.

Abbreviation str := (list ascii).

Definition ord (c : ascii) : nat := nat_of_ascii c.
Definition chr (n : nat) : ascii := ascii_of_nat n.

(** The source files are UTF-8; a literal of this file is a byte string.
    [decode] reads the two-byte sequences of U+0080..U+00FF back into one
    character, so that [py "..."] has the length Python gives the literal. *)
Fixpoint decode (bs : list ascii) : str :=
  match bs with
  | b1 :: ((b2 :: r) as tl) =>
      if ord b1 =? 194 then b2 :: decode r
      else if ord b1 =? 195 then chr (ord b2 + 64) :: decode r
      else b1 :: decode tl
  | _ => bs
  end.

Definition py (s : string) : str := decode (list_ascii_of_string s).

Definition nl : ascii := chr 10.
Definition space : ascii := chr 32.
Definition backtick : ascii := chr 96.

Definition is_nl (c : ascii) : bool := ord c =? 10.

(** [str.isspace] and the class [\s] on code points below 256. *)
Definition isspace (c : ascii) : bool :=
  let n := ord c in
  ((9 <=? n) && (n <=? 13)) || ((28 <=? n) && (n <=? 32))
  || (n =? 133) || (n =? 160).

(** [str.isalnum] or underscore: the class [\w] on code points below 256. *)
Definition isword (c : ascii) : bool :=
  let n := ord c in
  ((48 <=? n) && (n <=? 57)) || ((65 <=? n) && (n <=? 90))
  || ((97 <=? n) && (n <=? 122)) || (n =? 95)
  || (n =? 170) || (n =? 178) || (n =? 179) || (n =? 181)
  || (n =? 185) || (n =? 186) || ((188 <=? n) && (n <=? 190))
  || ((192 <=? n) && (n <=? 214)) || ((216 <=? n) && (n <=? 246))
  || (248 <=? n).

(** [str.lower] on code points below 256. *)
Definition lower_char (c : ascii) : ascii :=
  let n := ord c in
  if ((65 <=? n) && (n <=? 90))
     || ((192 <=? n) && (n <=? 222) && negb (n =? 215))
  then chr (n + 32) else c.

Definition lower (s : str) : str := map lower_char s.

(** Truth value of a string: non-empty. *)
Definition truthy (s : str) : bool :=
  match s with [] => false | _ => true end.

Fixpoint lstrip (s : str) : str :=
  match s with
  | c :: r => if isspace c then lstrip r else s
  | [] => []
  end.

Definition rstrip (s : str) : str := rev (lstrip (rev s)).

Definition strip (s : str) : str := rstrip (lstrip s).

Definition str_eqb (a b : str) : bool := bool_decide (a = b).

(** [text.startswith(prefix)]. *)
Fixpoint startswith (text prefix : str) : bool :=
  match prefix, text with
  | [], _ => true
  | p :: ps, t :: ts => bool_decide (p = t) && startswith ts ps
  | _ :: _, [] => false
  end.

(** [needle in text]. *)
Fixpoint contains (text needle : str) : bool :=
  startswith text needle
  || match text with
     | [] => false
     | _ :: r => contains r needle
     end.

(** [sep.join(parts)]. *)
Fixpoint join (sep : str) (parts : list str) : str :=
  match parts with
  | [] => []
  | [p] => p
  | p :: rest => p ++ sep ++ join sep rest
  end.

(** Puts [c] in front of the piece under construction. *)
Definition cons_head (c : ascii) (pieces : list str) : list str :=
  match pieces with
  | p :: rest => (c :: p) :: rest
  | [] => [[c]]
  end.

(** [text.split(sep)] for a one-character separator: one piece more than
    there are separators, empty pieces kept. *)
Fixpoint split_char (sep : ascii) (s : str) : list str :=
  match s with
  | [] => [[]]
  | c :: r =>
      if bool_decide (c = sep) then [] :: split_char sep r
      else cons_head c (split_char sep r)
  end.

(** [re.split] on a pattern [[...]+]: the separators are the maximal runs of
    characters of the class [p]; empty pieces at both ends are kept. *)
Fixpoint split_runs_from (p : ascii -> bool) (in_run : bool) (s : str)
  : list str :=
  match s with
  | [] => [[]]
  | c :: r =>
      if p c then
        if in_run then split_runs_from p true r
        else [] :: split_runs_from p true r
      else cons_head c (split_runs_from p false r)
  end.

Definition split_runs (p : ascii -> bool) (s : str) : list str :=
  split_runs_from p false s.

Fixpoint take_while (p : ascii -> bool) (s : str) : str :=
  match s with
  | c :: r => if p c then c :: take_while p r else []
  | [] => []
  end.

Definition take_while_word (s : str) : str := take_while isword s.

(** [text.split()]: the maximal runs of non-space characters. *)
Definition split_ws (s : str) : list str :=
  List.filter truthy (split_runs isspace s).

End Py.

Import Py.

(** ** Python values stored in dictionaries *)

Inductive pyval : Type :=
| VNone
| VBool (b : bool)
| VInt (z : Z)
| VFloat (q : Q)
| VStr (s : str)
| VStrs (l : list str).

(** A metadata dictionary. *)
Abbreviation meta := (gmap string pyval).

(** ** The segmenter: app/processors/text_processor.py *)

Module TextProcessor.

(** A chunk dictionary [{'content', 'metadata', 'source'}].  [M] is what the
    ['metadata'] entry holds: the dictionary itself where it is only built
    and read ([process_document]), a reference into a store of dictionaries
    where it is updated in place ([merge_overlapping_chunks]). *)
Record chunk (M : Type) : Type := Chunk {
  content : str;
  metadata : M;
  source : str
}.
Arguments Chunk {M} _ _ _.
Arguments content {M} _.
Arguments metadata {M} _.
Arguments source {M} _.

(** The scraped document.  A field read with [.get] is optional. *)
Record code_block : Type := CodeBlock {
  cb_content : str;
  cb_language : option str
}.

Record section : Type := Section_ {
  s_title : option str;
  s_level : option Z;
  s_content : option (list str);
  s_code_blocks : option (list code_block)
}.

Record document : Type := Document {
  d_title : option str;
  d_url : str;
  d_sections : option (list section)
}.

(** [settings.chunk_size] and [settings.chunk_overlap] (1000 and 200 unless
    the environment overrides them); sizes are taken non-negative. *)
Record t : Type := Make {
  chunk_size : nat;
  chunk_overlap : nat
}.

Definition defaults : t := {| chunk_size := 1000; chunk_overlap := 200 |}.

(** *** [_clean_text] *)

(** The class [[\x00-\x08\x0B\x0C\x0E-\x1F\x7F]]. *)
Definition is_control (c : ascii) : bool :=
  let n := ord c in
  (n <=? 8) || (n =? 11) || (n =? 12) || ((14 <=? n) && (n <=? 31))
  || (n =? 127).

(** [re.sub(r'[\x00-\x08\x0B\x0C\x0E-\x1F\x7F]', '', text)]. *)
Definition remove_control (text : str) : str :=
  List.filter (fun c => negb (is_control c)) text.

(** [re.sub(r'\s+', ' ', text)]: every maximal run of white space becomes
    one space (written when the run ends). *)
Fixpoint collapse_spaces (text : str) : str :=
  match text with
  | [] => []
  | c :: r =>
      if isspace c then
        match r with
        | c' :: _ => if isspace c' then collapse_spaces r
                     else space :: collapse_spaces r
        | [] => [space]
        end
      else c :: collapse_spaces r
  end.

Definition count_nl (s : str) : nat := length (List.filter is_nl s).

(** Number of characters of [run] up to and including its last newline. *)
Fixpoint through_last_nl (run : str) : nat :=
  match run with
  | [] => 0
  | c :: r =>
      match through_last_nl r with
      | S k => S (S k)
      | O => if is_nl c then 1 else 0
      end
  end.

(** A match of [\n\s*\n\s*\n] (with [need = 2]) or of [\n\s*\n] (with
    [need = 1]) right after a newline whose rest of the text is [r]: both
    stars are greedy, so the match runs through the last newline of the
    white space that follows, provided that white space holds [need]
    newlines.  [Some k]: the match takes [k] characters of [r]. *)
Definition blank_match (need : nat) (r : str) : option nat :=
  let run := take_while isspace r in
  if need <=? count_nl run then Some (through_last_nl run) else None.

(** [re.sub(r'\n\s*\n\s*\n', '\n\n', text)], scanning left to right;
    [skip] counts the characters still inside the previous match. *)
Fixpoint collapse_blank_lines_from (skip : nat) (text : str) : str :=
  match text with
  | [] => []
  | c :: r =>
      match skip with
      | S k => collapse_blank_lines_from k r
      | O =>
          if is_nl c then
            match blank_match 2 r with
            | Some k => nl :: nl :: collapse_blank_lines_from k r
            | None => c :: collapse_blank_lines_from 0 r
            end
          else c :: collapse_blank_lines_from 0 r
      end
  end.

Definition collapse_blank_lines (text : str) : str :=
  collapse_blank_lines_from 0 text.

Definition _clean_text (text : str) : str :=
  let text := remove_control text in
  let text := collapse_spaces text in
  let text := collapse_blank_lines text in
  strip text.

(** [re.split(r'\n\s*\n', text)]. *)
Fixpoint split_paragraphs_from (skip : nat) (text : str) : list str :=
  match text with
  | [] => [[]]
  | c :: r =>
      match skip with
      | S k => split_paragraphs_from k r
      | O =>
          if is_nl c then
            match blank_match 1 r with
            | Some k => [] :: split_paragraphs_from k r
            | None => cons_head c (split_paragraphs_from 0 r)
            end
          else cons_head c (split_paragraphs_from 0 r)
      end
  end.

Definition split_paragraphs (text : str) : list str :=
  split_paragraphs_from 0 text.

(** *** [_split_by_words] *)

Fixpoint split_by_words_loop (self : t) (words : list str)
  (chunks : list str) (current_chunk : str) : list str * str :=
  match words with
  | [] => (chunks, current_chunk)
  | word :: rest =>
      if chunk_size self <? length current_chunk + length word + 1 then
        if truthy current_chunk then
          split_by_words_loop self rest (chunks ++ [strip current_chunk]) word
        else
          split_by_words_loop self rest
            (chunks ++ [firstn (chunk_size self) word]) current_chunk
      else
        if truthy current_chunk then
          split_by_words_loop self rest chunks (current_chunk ++ py " " ++ word)
        else
          split_by_words_loop self rest chunks word
  end.

Definition _split_by_words (self : t) (text : str) : list str :=
  let '(chunks, current_chunk) :=
    split_by_words_loop self (split_ws text) [] [] in
  if truthy current_chunk then chunks ++ [strip current_chunk] else chunks.

(** *** [_split_long_paragraph] *)

(** The class [[.!?]]. *)
Definition is_sentence_end (c : ascii) : bool :=
  let n := ord c in (n =? 46) || (n =? 33) || (n =? 63).

Fixpoint split_long_paragraph_loop (self : t) (sentences : list str)
  (chunks : list str) (current_chunk : str) : list str * str :=
  match sentences with
  | [] => (chunks, current_chunk)
  | sentence :: rest =>
      let sentence := strip sentence in
      if negb (truthy sentence) then
        split_long_paragraph_loop self rest chunks current_chunk
      else if chunk_size self <? length current_chunk + length sentence + 1 then
        if truthy current_chunk then
          split_long_paragraph_loop self rest
            (chunks ++ [strip current_chunk]) sentence
        else if chunk_size self <? length sentence then
          split_long_paragraph_loop self rest
            (chunks ++ _split_by_words self sentence) current_chunk
        else
          split_long_paragraph_loop self rest (chunks ++ [sentence]) current_chunk
      else
        if truthy current_chunk then
          split_long_paragraph_loop self rest chunks
            (current_chunk ++ py ". " ++ sentence)
        else
          split_long_paragraph_loop self rest chunks sentence
  end.

Definition _split_long_paragraph (self : t) (paragraph : str) : list str :=
  let '(chunks, current_chunk) :=
    split_long_paragraph_loop self (split_runs is_sentence_end paragraph) [] [] in
  if truthy current_chunk then chunks ++ [strip current_chunk] else chunks.

(** *** [_chunk_text] *)

Section ChunkText.

Variable self : t.
Variable current_metadata : meta.
Variable src : str.

Definition mk (c : str) : chunk meta := Chunk c current_metadata src.

Fixpoint chunk_text_loop (paragraphs : list str)
  (chunks : list (chunk meta)) (current_chunk : str)
  : list (chunk meta) * str :=
  match paragraphs with
  | [] => (chunks, current_chunk)
  | paragraph :: rest =>
      let paragraph := strip paragraph in
      if negb (truthy paragraph) then chunk_text_loop rest chunks current_chunk
      else if chunk_size self <? length paragraph then
        let '(chunks, current_chunk) :=
          if truthy current_chunk
          then (chunks ++ [mk (strip current_chunk)], [])
          else (chunks, current_chunk) in
        chunk_text_loop rest
          (chunks ++ map mk (_split_long_paragraph self paragraph))
          current_chunk
      else if chunk_size self <? length current_chunk + length paragraph + 1 then
        if truthy current_chunk then
          chunk_text_loop rest (chunks ++ [mk (strip current_chunk)]) paragraph
        else
          chunk_text_loop rest chunks paragraph
      else
        if truthy current_chunk then
          chunk_text_loop rest chunks (current_chunk ++ [nl] ++ paragraph)
        else
          chunk_text_loop rest chunks paragraph
  end.

End ChunkText.

Definition _chunk_text (self : t) (text : str) (metadata : meta) (src : str)
  : list (chunk meta) :=
  let cleaned_text := _clean_text text in
  if length cleaned_text <=? chunk_size self then
    [Chunk cleaned_text metadata src]
  else
    let '(chunks, current_chunk) :=
      chunk_text_loop self metadata src (split_paragraphs cleaned_text) [] [] in
    if truthy current_chunk
    then chunks ++ [mk metadata src (strip current_chunk)]
    else chunks.

(** *** [_process_section] and [process_document] *)

(** [d.get(k)] is truthy. *)
Definition get_truthy (o : option str) : bool :=
  match o with Some s => truthy s | None => false end.

(** [d.get(k, '')] and [d.get(k, 'text')]. *)
Definition get_or (dflt : str) (o : option str) : str :=
  match o with Some s => s | None => dflt end.

Definition _process_section (self : t) (sec : section) (base_url : str)
  : list (chunk meta) :=
  let title_chunks :=
    if get_truthy (s_title sec) then
      [Chunk (py "Sección: " ++ get_or [] (s_title sec))
         (<["type" := VStr (py "section_title")]>
          (<["level" := VInt (match s_level sec with Some l => l | None => 1%Z end)]>
          (<["url" := VStr base_url]>
          (<["section" := VStr (get_or [] (s_title sec))]> ∅))))
         base_url]
    else [] in
  let text_chunks :=
    match s_content sec with
    | Some (line :: lines) =>
        _chunk_text self (join [nl] (line :: lines))
          (<["type" := VStr (py "text_content")]>
           (<["section" := VStr (get_or [] (s_title sec))]>
           (<["url" := VStr base_url]> ∅)))
          base_url
    | _ => []
    end in
  let code_chunks :=
    map (fun cb =>
           Chunk (py "Código (" ++ get_or (py "text") (cb_language cb)
                  ++ py "):" ++ [nl] ++ cb_content cb)
             (<["type" := VStr (py "code_block")]>
              (<["language" := VStr (get_or (py "text") (cb_language cb))]>
              (<["section" := VStr (get_or [] (s_title sec))]>
              (<["url" := VStr base_url]> ∅))))
             base_url)
        (match s_code_blocks sec with Some l => l | None => [] end) in
  title_chunks ++ text_chunks ++ code_chunks.

(** [document_data.get('sections', [])]. *)
Definition sections_of (document_data : document) : list section :=
  match d_sections document_data with Some l => l | None => [] end.

Definition process_document (self : t) (document_data : document)
  : list (chunk meta) :=
  let title_chunks :=
    if get_truthy (d_title document_data) then
      [Chunk (py "Título: " ++ get_or [] (d_title document_data))
         (<["type" := VStr (py "title")]>
          (<["url" := VStr (d_url document_data)]>
          (<["section" := VStr (py "header")]> ∅)))
         (d_url document_data)]
    else [] in
  title_chunks
  ++ concat (map (fun sec => _process_section self sec (d_url document_data))
               (sections_of document_data)).

(** The chunk is one [_chunk_text] made: its metadata has
    ['type': 'text_content']. *)
Definition is_text_content (c : chunk meta) : bool :=
  match metadata c !! "type" with
  | Some (VStr ty) => str_eqb ty (py "text_content")
  | _ => false
  end.

(** *** [merge_overlapping_chunks] *)

(** [chunk.copy()] is a shallow copy and [current_chunk['metadata'].update]
    changes the dictionary the copy shares with the chunk it was copied
    from: a chunk holds a reference into a store of metadata dictionaries. *)
Abbreviation loc := nat.
Abbreviation store := (gmap nat meta).

Definition deref (h : store) (l : loc) : meta :=
  match h !! l with Some m => m | None => ∅ end.

Definition min_overlap : nat := 50.

(** [range(len(text1) - min_overlap + 1)] is empty when the bound is not
    positive. *)
Definition _has_significant_overlap (text1 text2 : str) : bool :=
  existsb
    (fun i =>
       let overlap := skipn i text1 in
       startswith text2 overlap && (min_overlap <=? length overlap))
    (seq 0 (length text1 + 1 - min_overlap)).

Definition _find_overlap (text1 text2 : str) : str :=
  match find (fun i => startswith text2 (skipn i text1))
             (seq 0 (length text1)) with
  | Some i => skipn i text1
  | None => []
  end.

Fixpoint merge_loop (h : store) (rest : list (chunk loc))
  (merged_chunks : list (chunk loc)) (current_chunk : chunk loc)
  : store * list (chunk loc) :=
  match rest with
  | [] => (h, merged_chunks ++ [current_chunk])
  | next_chunk :: rest' =>
      if _has_significant_overlap (content current_chunk) (content next_chunk)
      then
        let overlap_text :=
          _find_overlap (content current_chunk) (content next_chunk) in
        let merged_content :=
          content current_chunk
          ++ skipn (length overlap_text) (content next_chunk) in
        merge_loop
          (<[metadata current_chunk :=
               deref h (metadata next_chunk) ∪ deref h (metadata current_chunk)]> h)
          rest' merged_chunks
          (Chunk merged_content (metadata current_chunk) (source current_chunk))
      else
        merge_loop h rest' (merged_chunks ++ [current_chunk]) next_chunk
  end.

Definition merge_overlapping_chunks (h : store) (chunks : list (chunk loc))
  : store * list (chunk loc) :=
  match chunks with
  | [] => (h, chunks)
  | first :: rest => merge_loop h rest [] first
  end.

(** No two neighbours of the sequence overlap significantly. *)
Fixpoint no_adjacent_overlap (chunks : list (chunk loc)) : bool :=
  match chunks with
  | a :: ((b :: _) as rest) =>
      negb (_has_significant_overlap (content a) (content b))
      && no_adjacent_overlap rest
  | _ => true
  end.

(** Every fragment is at most [chunk_size] characters long. *)
Definition within_chunk_size {M} (self : t) (chunks : list (chunk M)) : bool :=
  forallb (fun c => length (content c) <=? chunk_size self) chunks.

End TextProcessor.

(** ** The fence helpers: app/utils/helpers.py *)

Module Helpers.

Definition fence : str := [backtick; backtick; backtick].

(** [f"```{language}\n{code}\n```"]. *)
Definition format_code_block (code language : str) : str :=
  fence ++ language ++ [nl] ++ code ++ [nl] ++ fence.

(** The lazy group [(.*?)] followed by the closing fence, with [re.DOTALL]:
    the text up to the first occurrence of the fence, and what follows it. *)
Fixpoint until_fence (s : str) : option (str * str) :=
  match s with
  | [] => None
  | c :: r =>
      if startswith s fence then Some ([], skipn 3 s)
      else match until_fence r with
           | Some (body, rest) => Some (c :: body, rest)
           | None => None
           end
  end.

(** A match of [```(\w+)?\n(.*?)```] at the start of [s]: group 1 ([None]
    when it did not take part), group 2, and the text after the match.  The
    greedy [\w+] has to stop where the newline is, so it takes the whole
    run of word characters or the pattern fails here. *)
Definition match_fence (s : str) : option (option str * str * str) :=
  if startswith s fence then
    let after := skipn 3 s in
    let word := take_while_word after in
    match skipn (length word) after with
    | c :: body =>
        if is_nl c then
          match until_fence body with
          | Some (code, rest) =>
              Some (if truthy word then Some word else None, code, rest)
          | None => None
          end
        else None
    | [] => None
    end
  else None.

(** The non-overlapping matches from left to right; [skip] counts the
    characters still inside the previous match. *)
Fixpoint findall_from (skip : nat) (s : str) : list (option str * str) :=
  match s with
  | [] => []
  | _ :: r =>
      match skip with
      | S k => findall_from k r
      | O =>
          match match_fence s with
          | Some (g1, g2, rest) =>
              (g1, g2) :: findall_from (length r - length rest) r
          | None => findall_from 0 r
          end
      end
  end.

(** [re.findall(pattern, text, re.DOTALL)]. *)
Definition findall (text : str) : list (option str * str) :=
  findall_from 0 text.

(** A code block [{'language', 'code'}]. *)
Definition extract_code_blocks (text : str) : list (str * str) :=
  map (fun m : option str * str =>
         let language :=
           match fst m with
           | Some l => if truthy l then l else py "text"
           | None => py "text"
           end in
         (language, strip (snd m)))
      (findall text).

(** [sanitize_text]: its two substitutions have the patterns of
    [TextProcessor._clean_text]. *)
Definition sanitize_text (text : str) : str :=
  if negb (truthy text) then []
  else
    let text := TextProcessor.remove_control text in
    let text := TextProcessor.collapse_spaces text in
    strip text.

(** [set(text.lower().split())]. *)
Definition word_set (text : str) : gset str :=
  list_to_set (split_ws (lower text)).

(** [calculate_similarity_score]; the quotient of the two sizes is read as
    the rational it is. *)
Definition calculate_similarity_score (text1 text2 : str) : Q :=
  let words1 := word_set text1 in
  let words2 := word_set text2 in
  if bool_decide (words1 = ∅) || bool_decide (words2 = ∅) then 0
  else
    let intersection := words1 ∩ words2 in
    let union := words1 ∪ words2 in
    if bool_decide (union = ∅) then 0
    else inject_Z (Z.of_nat (size intersection))
         / inject_Z (Z.of_nat (size union)).

End Helpers.

(** ** The fragment store adapter: app/processors/embedding_manager.py *)

Module EmbeddingManager.

(** A formatted result [{'content', 'metadata', 'distance',
    'relevance_score'}]. *)
Record hit : Type := Hit {
  h_content : str;
  h_metadata : meta;
  distance : Q;
  relevance_score : Q
}.

(** What [collection.query] returned for the one query text:
    [results['documents'][0]], [results['metadatas'][0]] and
    [results['distances'][0]], an absent or empty entry being []. *)
Record query_result : Type := QueryResult {
  documents : list str;
  metadatas : list meta;
  distances : list Q
}.

(** [results[k][0][i] if results[k] and results[k][0] else dflt]; [None] is
    the [IndexError] of a list that is too short. *)
Definition row {A} (l : list A) (i : nat) (dflt : A) : option A :=
  match l with
  | [] => Some dflt
  | _ => nth_error l i
  end.

Fixpoint format_results_from (results : query_result) (i : nat)
  (docs : list str) : option (list hit) :=
  match docs with
  | [] => Some []
  | doc :: rest =>
      match row (metadatas results) i ∅, row (distances results) i 0%Q with
      | Some md, Some d =>
          match format_results_from results (S i) rest with
          | Some formatted => Some (Hit doc md d (1 - d)%Q :: formatted)
          | None => None
          end
      | _, _ => None
      end
  end.

Definition format_results (results : query_result) : option (list hit) :=
  format_results_from results 0 (documents results).

(** [search_similar] and [search_code_blocks] differ in the query they send;
    [outcome] is what the collection did with it, [None] when it raised.
    Any exception of the body is caught and gives []. *)
Definition search (outcome : option query_result) : list hit :=
  match outcome with
  | Some results =>
      match format_results results with
      | Some formatted_results => formatted_results
      | None => []
      end
  | None => []
  end.

(** [str(i)] for a natural number. *)
Definition decimal (i : nat) : str :=
  list_ascii_of_string (NilEmpty.string_of_uint (Nat.to_uint i)).

(** [f"chunk_{chat_id}_{i}"]. *)
Definition chunk_id (chat_id : str) (i : nat) : str :=
  py "chunk_" ++ chat_id ++ py "_" ++ decimal i.

(** [add_chunks]; [collection_add] tells whether the collection was
    obtained and [collection.add] accepted the documents, metadatas and
    ids, and [None] is the exception raised again when not. *)
Definition add_chunks
  (collection_add : list str -> list meta -> list str -> bool)
  (chat_id : str) (chunks : list (TextProcessor.chunk meta))
  : option (list str) :=
  match chunks with
  | [] => Some []
  | _ =>
      let documents := map (@TextProcessor.content meta) chunks in
      let metadatas := map (@TextProcessor.metadata meta) chunks in
      let ids := map (chunk_id chat_id) (seq 0 (length chunks)) in
      if collection_add documents metadatas ids then Some ids else None
  end.

End EmbeddingManager.

(** ** The graph nodes: app/agents/nodes.py *)

Module Nodes.

Import EmbeddingManager.

(** The answers of the collaborators during one turn. *)
Record world : Type := World {
  (** [re.search(pattern, text, re.IGNORECASE)] found a match *)
  re_search : str -> str -> bool;
  (** [llm.invoke] in [_refine_intent_with_llm]; [None]: it raised *)
  llm_intent : option str;
  (** [llm.invoke] in [ResponseGenerationNode.run] *)
  llm_response : option str;
  (** [llm.invoke] in [ClarificationNode.run] *)
  llm_clarification : option str;
  (** the query of [search_similar(chat_id, user_message, n_results=3)] *)
  query_general : option query_result;
  (** the query of [search_code_blocks(chat_id, user_message)] *)
  query_code : option query_result
}.

Record State : Type := MkState {
  chat_id : str;
  user_message : str;
  user_id : str;
  chat_history : list meta;
  intent : option str;
  retrieved_context : list hit;
  response : option str;
  formatted_response : option str;
  confidence : Q;
  needs_clarification : bool;
  clarification_question : option str
}.

(** [State.__init__]. *)
Definition new_state (chat_id user_message user_id : str)
  (chat_history : option (list meta)) : State :=
  {| chat_id := chat_id;
     user_message := user_message;
     user_id := user_id;
     chat_history := match chat_history with Some h => h | None => [] end;
     intent := None;
     retrieved_context := [];
     response := None;
     formatted_response := None;
     confidence := 0;
     needs_clarification := false;
     clarification_question := None |}.

(** Attribute assignments [state.f = v]. *)
Definition set_user_message (st : State) (v : str) : State :=
  MkState (chat_id st) v (user_id st) (chat_history st) (intent st)
    (retrieved_context st) (response st) (formatted_response st)
    (confidence st) (needs_clarification st) (clarification_question st).

Definition set_chat_history (st : State) (v : list meta) : State :=
  MkState (chat_id st) (user_message st) (user_id st) v (intent st)
    (retrieved_context st) (response st) (formatted_response st)
    (confidence st) (needs_clarification st) (clarification_question st).

Definition set_intent (st : State) (v : option str) : State :=
  MkState (chat_id st) (user_message st) (user_id st) (chat_history st) v
    (retrieved_context st) (response st) (formatted_response st)
    (confidence st) (needs_clarification st) (clarification_question st).

Definition set_retrieved_context (st : State) (v : list hit) : State :=
  MkState (chat_id st) (user_message st) (user_id st) (chat_history st)
    (intent st) v (response st) (formatted_response st)
    (confidence st) (needs_clarification st) (clarification_question st).

Definition set_response (st : State) (v : option str) : State :=
  MkState (chat_id st) (user_message st) (user_id st) (chat_history st)
    (intent st) (retrieved_context st) v (formatted_response st)
    (confidence st) (needs_clarification st) (clarification_question st).

Definition set_formatted_response (st : State) (v : option str) : State :=
  MkState (chat_id st) (user_message st) (user_id st) (chat_history st)
    (intent st) (retrieved_context st) (response st) v
    (confidence st) (needs_clarification st) (clarification_question st).

Definition set_confidence (st : State) (v : Q) : State :=
  MkState (chat_id st) (user_message st) (user_id st) (chat_history st)
    (intent st) (retrieved_context st) (response st) (formatted_response st)
    v (needs_clarification st) (clarification_question st).

Definition set_needs_clarification (st : State) (v : bool) : State :=
  MkState (chat_id st) (user_message st) (user_id st) (chat_history st)
    (intent st) (retrieved_context st) (response st) (formatted_response st)
    (confidence st) v (clarification_question st).

Definition set_clarification_question (st : State) (v : option str) : State :=
  MkState (chat_id st) (user_message st) (user_id st) (chat_history st)
    (intent st) (retrieved_context st) (response st) (formatted_response st)
    (confidence st) (needs_clarification st) v.

(** The four intent labels, in the order [scores] and [valid_intents] list
    them. *)
Definition code_question : str := py "code_question".
Definition follow_up : str := py "follow_up".
Definition general_question : str := py "general_question".
Definition clarification : str := py "clarification".

Definition valid_intents : list str :=
  [code_question; follow_up; general_question; clarification].

Definition clarification_prompt : str :=
  py "¿Podrías ser más específico sobre lo que necesitas saber?".

Definition generation_apology : str :=
  py "Lo siento, tuve un problema generando la respuesta. ¿Podrías intentar reformular tu pregunta?".

(** *** [InputNode] *)

Definition InputNode_run (state : State) : State :=
  if negb (truthy (strip (user_message state))) then
    set_user_message state
      (py "Por favor, proporciona una pregunta sobre la documentación.")
  else state.

(** *** [IntentAnalysisNode] *)

(** The dictionary [intent_patterns] of [run], in insertion order. *)
Definition intent_patterns : list (str * list str) :=
  [ (code_question,
     [ py "\b(código|code|función|function|clase|class|método|method)\b";
       py "\b(implementar|implement|ejemplo|example)\b";
       py "\b(sintaxis|syntax|error|bug)\b" ]);
    (follow_up,
     [ py "\b(anterior|before|mencionaste|you mentioned)\b";
       py "\b(eso|that|esto|this)\b";
       py "\b(más|more|detalles|details)\b" ]);
    (general_question,
     [ py "\b(qué|what|cómo|how|cuándo|when|dónde|where)\b";
       py "\b(explicar|explain|definir|define)\b";
       py "\b(concepto|concept|idea|notion)\b" ]);
    (clarification,
     [ py "\b(no entiendo|don\'t understand|confuso|confused)\b";
       py "\b(puedes explicar|can you explain|más simple|simpler)\b" ]) ].

(** The dictionary [scores], in insertion order. *)
Abbreviation scores := (list (str * nat)).

Definition initial_scores : scores :=
  [(code_question, 0); (follow_up, 0); (general_question, 0);
   (clarification, 0)].

(** [scores[intent] += 1]; [None] is the [KeyError] of an absent key. *)
Fixpoint incr (intent : str) (sc : scores) : option scores :=
  match sc with
  | [] => None
  | (k, v) :: rest =>
      if bool_decide (k = intent) then Some ((k, S v) :: rest)
      else match incr intent rest with
           | Some rest' => Some ((k, v) :: rest')
           | None => None
           end
  end.

Fixpoint score_pattern_list (w : world) (message_lower intent : str)
  (pattern_list : list str) (sc : scores) : option scores :=
  match pattern_list with
  | [] => Some sc
  | pattern :: rest =>
      if re_search w pattern message_lower then
        match incr intent sc with
        | Some sc' => score_pattern_list w message_lower intent rest sc'
        | None => None
        end
      else score_pattern_list w message_lower intent rest sc
  end.

Fixpoint score_patterns (w : world) (message_lower : str)
  (patterns : list (str * list str)) (sc : scores) : option scores :=
  match patterns with
  | [] => Some sc
  | (intent, pattern_list) :: rest =>
      match score_pattern_list w message_lower intent pattern_list sc with
      | Some sc' => score_patterns w message_lower rest sc'
      | None => None
      end
  end.

(** [max(scores.values())]. *)
Definition max_value (sc : scores) : nat :=
  fold_right (fun kv m => Nat.max (snd kv) m) 0 sc.

(** [max(scores, key=scores.get)]: the first key, in insertion order, whose
    value no other exceeds. *)
Definition max_key (first : str * nat) (rest : scores) : str :=
  fst (fold_left (fun best kv => if snd best <? snd kv then kv else best)
         rest first).

(** [None]: the call raised. *)
Definition _detect_intent_by_patterns (w : world) (message : str)
  (patterns : list (str * list str)) : option str :=
  let message_lower := lower message in
  match score_patterns w message_lower patterns initial_scores with
  | Some (first :: rest) =>
      if 0 <? max_value (first :: rest) then Some (max_key first rest)
      else Some general_question
  | _ => None
  end.

(** [chat_history[-3:]]. *)
Definition last_n {A} (n : nat) (l : list A) : list A :=
  skipn (length l - n) l.

(** The context part of the prompt reads [msg['message']] and
    [msg['response']] of the last three turns; an absent key raises. *)
Definition context_builds (chat_history : list meta) : bool :=
  forallb (fun msg : meta =>
             bool_decide (is_Some (msg !! "message"))
             && bool_decide (is_Some (msg !! "response")))
          (last_n 3 chat_history).

(** The prompt text only reaches the model, whose answer is [llm_intent]. *)
Definition _refine_intent_with_llm (w : world) (message detected_intent : str)
  (chat_history : list meta) : str :=
  if context_builds chat_history then
    match llm_intent w with
    | Some response =>
        let refined_intent := lower (strip response) in
        if existsb (str_eqb refined_intent) valid_intents then refined_intent
        else detected_intent
    | None => detected_intent
    end
  else detected_intent.

(** [None]: the node raised. *)
Definition IntentAnalysisNode_run (w : world) (state : State) : option State :=
  match _detect_intent_by_patterns w (user_message state) intent_patterns with
  | Some detected_intent =>
      let refined_intent :=
        _refine_intent_with_llm w (user_message state) detected_intent
          (chat_history state) in
      Some (set_intent state (Some refined_intent))
  | None => None
  end.

(** *** [ConditionalRouter] *)

Definition intent_is (state : State) (label : str) : bool :=
  match intent state with
  | Some i => str_eqb i label
  | None => false
  end.

Definition ConditionalRouter_run (state : State) : string :=
  if intent_is state clarification then "clarification_node"
  else if intent_is state code_question then "rag_node"
  else if intent_is state follow_up then "context_builder_node"
  else "rag_node".

(** *** [RAGNode] *)

(** [all_results.sort(key=relevance_score, reverse=True)]: the sort is
    stable, also in reverse. *)
Fixpoint insert_desc (x : hit) (sorted : list hit) : list hit :=
  match sorted with
  | [] => [x]
  | y :: rest =>
      if Qle_bool (relevance_score y) (relevance_score x) then x :: sorted
      else y :: insert_desc x rest
  end.

Definition sort_desc (l : list hit) : list hit :=
  fold_right insert_desc [] l.

Definition sum_scores (l : list hit) : Q :=
  fold_left (fun acc r => (acc + relevance_score r)%Q) l 0%Q.

(** Both searches catch what the collection raises, so the handler of
    [run] (no fragments, confidence 0.0) is not reached. *)
Definition RAGNode_run (w : world) (state : State) : State :=
  let general_results := search (query_general w) in
  let code_results :=
    if intent_is state code_question then search (query_code w) else [] in
  let all_results := sort_desc (general_results ++ code_results) in
  let top_results := firstn 5 all_results in
  let state := set_retrieved_context state top_results in
  match top_results with
  | _ :: _ =>
      let avg_score :=
        (sum_scores top_results / inject_Z (Z.of_nat (length top_results)))%Q in
      set_confidence state avg_score
  | [] => set_confidence state 0
  end.

(** *** [ContextBuilderNode] *)

(** Truth value of a Python value. *)
Definition pytruthy (v : pyval) : bool :=
  match v with
  | VNone => false
  | VBool b => b
  | VInt z => negb (z =? 0)%Z
  | VFloat q => negb (Qeq_bool q 0)
  | VStr s => truthy s
  | VStrs l => match l with [] => false | _ => true end
  end.

Definition key_words : list str :=
  [py "es"; py "son"; py "define"; py "significa"; py "permite";
   py "utiliza"].

Definition is_key_line (line : str) : bool :=
  truthy line && (length line <? 200)
  && existsb (fun keyword => contains (lower line) keyword) key_words.

Definition _extract_key_info (response : str) : str :=
  let lines := split_char nl response in
  let key_lines := List.filter is_key_line (map strip lines) in
  join (py " ") (firstn 2 key_lines).

(** [None]: a truthy ['response'] that is not a string has no [split]. *)
Fixpoint context_parts (recent_exchanges : list meta) : option (list str) :=
  match recent_exchanges with
  | [] => Some []
  | msg :: rest =>
      match msg !! "response" with
      | Some v =>
          if pytruthy v then
            match v with
            | VStr response =>
                let key_info := _extract_key_info response in
                match context_parts rest with
                | Some parts =>
                    Some (if truthy key_info then key_info :: parts else parts)
                | None => None
                end
            | _ => None
            end
          else context_parts rest
      | None => context_parts rest
      end
  end.

Definition _build_context_from_history (chat_history : list meta)
  : option str :=
  match chat_history with
  | [] => Some []
  | _ =>
      match context_parts (last_n 4 chat_history) with
      | Some parts => Some (join (py " ") parts)
      | None => None
      end
  end.

Definition ContextBuilderNode_run (state : State) : option State :=
  match chat_history state with
  | [] => Some (set_intent state (Some general_question))
  | _ =>
      match _build_context_from_history (chat_history state) with
      | Some recent_context =>
          let enhanced_message :=
            py "Contexto anterior: " ++ recent_context ++ [nl; nl]
            ++ py "Pregunta actual: " ++ user_message state in
          Some (set_intent (set_user_message state enhanced_message)
                  (Some general_question))
      | None => None
      end
  end.

(** *** [ResponseGenerationNode] *)

(** The float literal [0.3]: the binary64 number nearest to 3/10. *)
Definition low_confidence : Q := 5404319552844595 # 18014398509481984.

(** [a < b] on floats. *)
Definition Qlt_bool (a b : Q) : bool := negb (Qle_bool b a).

(** [_build_response_prompt] reads keys every retrieved fragment has; the
    prompt only reaches the model, whose answer is [llm_response]. *)
Definition ResponseGenerationNode_run (w : world) (state : State) : State :=
  match llm_response w with
  | Some response =>
      let state := set_response state (Some (strip response)) in
      if Qlt_bool (confidence state) low_confidence then
        let state := set_needs_clarification state true in
        set_clarification_question state (Some clarification_prompt)
      else state
  | None => set_response state (Some generation_apology)
  end.

(** *** [CodeFormattingNode] *)

(** [replace_code]: [match.group(1) or 'text'] and [match.group(2)]. *)
Definition replace_code (group1 : option str) (group2 : str) : str :=
  let language :=
    match group1 with
    | Some l => if truthy l then l else py "text"
    | None => py "text"
    end in
  Helpers.fence ++ language ++ [nl] ++ group2 ++ [nl] ++ Helpers.fence.

(** [re.sub(code_pattern, replace_code, text, flags=re.DOTALL)]. *)
Fixpoint format_code_blocks_from (skip : nat) (text : str) : str :=
  match text with
  | [] => []
  | c :: r =>
      match skip with
      | S k => format_code_blocks_from k r
      | O =>
          match Helpers.match_fence text with
          | Some (g1, g2, rest) =>
              replace_code g1 g2
              ++ format_code_blocks_from (length r - length rest) r
          | None => c :: format_code_blocks_from 0 r
          end
      end
  end.

Definition _format_code_blocks (text : str) : str :=
  format_code_blocks_from 0 text.

(** [replace_command]: both branches give the matched text back. *)
Definition replace_command (command : str) : str :=
  if startswith command [backtick] && startswith (rev command) [backtick]
  then [backtick] ++ command ++ [backtick]
  else [backtick] ++ command ++ [backtick].

Definition not_backtick (c : ascii) : bool := negb (bool_decide (c = backtick)).

(** [re.sub(r'`([^`]+)`', replace_command, text)]: a backtick, the longest
    run of other characters, not empty, and a backtick. *)
Fixpoint format_commands_from (skip : nat) (text : str) : str :=
  match text with
  | [] => []
  | c :: r =>
      match skip with
      | S k => format_commands_from k r
      | O =>
          if bool_decide (c = backtick) then
            let command := take_while not_backtick r in
            match command, skipn (length command) r with
            | _ :: _, _ :: _ =>
                replace_command command
                ++ format_commands_from (S (length command)) r
            | _, _ => c :: format_commands_from 0 r
            end
          else c :: format_commands_from 0 r
      end
  end.

Definition _format_commands (text : str) : str :=
  format_commands_from 0 text.

(** [re.sub(r'\b(k1|...|kn)\b', replacement, text, flags=re.IGNORECASE)]
    for keywords made of word characters: a match is a whole maximal run
    of word characters that is a keyword up to case, and [wrap] builds
    its replacement.  [inside] tells that the previous character is a word
    character. *)
Fixpoint sub_keywords_from (keywords : list str) (wrap : str -> str)
  (skip : nat) (inside : bool) (text : str) : str :=
  match text with
  | [] => []
  | c :: r =>
      match skip with
      | S k => sub_keywords_from keywords wrap k true r
      | O =>
          if isword c && negb inside then
            let word := c :: take_while isword r in
            if existsb (str_eqb (lower word)) keywords then
              wrap word
              ++ sub_keywords_from keywords wrap (length word - 1) true r
            else c :: sub_keywords_from keywords wrap 0 true r
          else c :: sub_keywords_from keywords wrap 0 (isword c) r
      end
  end.

Definition sub_keywords (keywords : list str) (wrap : str -> str)
  (text : str) : str :=
  sub_keywords_from keywords wrap 0 false text.

Definition bold (word : str) : str := py "**" ++ word ++ py "**".
Definition inline_code (word : str) : str :=
  [backtick] ++ word ++ [backtick].

Definition _format_technical_terms (text : str) : str :=
  let text :=
    sub_keywords
      [py "function"; py "class"; py "method"; py "variable"; py "parameter"]
      bold text in
  let text :=
    sub_keywords
      [py "api"; py "url"; py "http"; py "json"; py "xml"; py "sql"]
      bold text in
  sub_keywords
    [py "import"; py "export"; py "return"; py "if"; py "else"; py "for";
     py "while"]
    inline_code text.

Definition CodeFormattingNode_run (state : State) : State :=
  match response state with
  | Some (c :: r) =>
      let formatted_response := _format_code_blocks (c :: r) in
      let formatted_response := _format_commands formatted_response in
      let formatted_response := _format_technical_terms formatted_response in
      set_formatted_response state (Some formatted_response)
  | _ => state
  end.

(** *** [MemoryNode] *)

Definition opt_val (o : option str) : pyval :=
  match o with Some s => VStr s | None => VNone end.

Definition get_truthy_opt (o : option str) : bool :=
  match o with Some s => truthy s | None => false end.

(** [a or b] on optional strings. *)
Definition or_else (a b : option str) : option str :=
  match a with
  | Some (c :: r) => a
  | _ => b
  end.

Definition MemoryNode_run (state : State) : State :=
  let new_exchange : meta :=
    <["user_message" := VStr (user_message state)]>
    (<["response" := opt_val (or_else (formatted_response state) (response state))]>
    (<["intent" := opt_val (intent state)]>
    (<["confidence" := VFloat (confidence state)]>
    (<["timestamp" := VStr (py "now")]> ∅)))) in
  set_chat_history state (chat_history state ++ [new_exchange]).

(** *** [ClarificationNode] *)

Definition ClarificationNode_run (w : world) (state : State) : State :=
  match llm_clarification w with
  | Some clarification =>
      let state := set_clarification_question state (Some (strip clarification)) in
      set_needs_clarification state true
  | None =>
      let state := set_clarification_question state (Some clarification_prompt) in
      set_needs_clarification state true
  end.

End Nodes.

(** ** The orchestrator: app/agents/workflow.py *)

Module Workflow.

Import EmbeddingManager Nodes.

(** An exception that [process_message] catches, by its text. *)
Inductive exn : Type :=
| Exception (message : str).

(** [str(e)]. *)
Definition exn_str (e : exn) : str :=
  match e with Exception message => message end.

(** What a node function returns: the state, or, for
    [ConditionalRouter.run], a string. *)
Inductive output : Type :=
| OState (st : State)
| OStr (s : string).

(** What [_build_graph] registers with the [StateGraph]. *)
Record graph : Type := Graph {
  nodes : gmap string (world -> State -> option output);
  entry_point : string;
  edges : gmap string string;
  (** source, the path function, and the path map of its results *)
  conditional_edges : gmap string ((State -> string) * gmap string string)
}.

Definition END : string := "__end__".

(** The path map of the conditional edges that leave the router. *)
Definition path_map : gmap string string :=
  <["rag" := "rag"]>
  (<["context_builder" := "context_builder"]>
  (<["clarification" := "clarification"]> ∅)).

Definition _build_graph : graph :=
  {| nodes :=
       <["input" := fun _ st => Some (OState (InputNode_run st))]>
       (<["intent_analysis" :=
            fun w st => option_map OState (IntentAnalysisNode_run w st)]>
       (<["conditional_router" :=
            fun _ st => Some (OStr (ConditionalRouter_run st))]>
       (<["rag" := fun w st => Some (OState (RAGNode_run w st))]>
       (<["context_builder" :=
            fun _ st => option_map OState (ContextBuilderNode_run st)]>
       (<["response_generation" :=
            fun w st => Some (OState (ResponseGenerationNode_run w st))]>
       (<["code_formatting" :=
            fun _ st => Some (OState (CodeFormattingNode_run st))]>
       (<["memory" := fun _ st => Some (OState (MemoryNode_run st))]>
       (<["clarification" :=
            fun w st => Some (OState (ClarificationNode_run w st))]>
        ∅))))))));
     entry_point := "input";
     edges :=
       <["input" := "intent_analysis"]>
       (<["intent_analysis" := "conditional_router"]>
       (<["rag" := "response_generation"]>
       (<["context_builder" := "rag"]>
       (<["response_generation" := "code_formatting"]>
       (<["code_formatting" := "memory"]>
       (<["memory" := END]>
       (<["clarification" := END]> ∅)))))));
     conditional_edges :=
       {[ "conditional_router" :=
            (ConditionalRouter_run, path_map) ]} |}.

(** The compiled graph, [self.graph.compile()] with its [invoke], is
    LangGraph's, a library outside the repository: it is a parameter, a
    function from the state it is given to the state it returns or to the
    exception it raises. *)

(** [DocumentationAgent]: [self.graph] and [self.app]. *)
Record DocumentationAgent : Type := Agent {
  agent_graph : graph;
  app_invoke : State -> exn + State
}.

(** [DocumentationAgent.__init__], for a given [compile]. *)
Definition new_agent (compile : graph -> State -> exn + State)
  : DocumentationAgent :=
  {| agent_graph := _build_graph; app_invoke := compile _build_graph |}.

Definition processing_apology : str :=
  py "Lo siento, tuve un problema procesando tu pregunta. ¿Podrías intentar reformularla?".

(** The fragments [search] builds have no key ['source']:
    [ctx.get('source', '')] is the empty string. *)
Definition ctx_source (ctx : hit) : str := [].

Definition process_message (self : DocumentationAgent)
  (chat_id user_message user_id : str) (chat_history : option (list meta))
  : gmap string pyval :=
  let initial_state :=
    new_state chat_id user_message user_id
      (Some (match chat_history with Some h => h | None => [] end)) in
  match app_invoke self initial_state with
  | inr result =>
      let response := or_else (formatted_response result) (response result) in
      let response :=
        if needs_clarification result
           && get_truthy_opt (clarification_question result)
        then clarification_question result else response in
      <["chat_id" := VStr chat_id]>
      (<["response" := opt_val response]>
      (<["intent" := opt_val (intent result)]>
      (<["confidence" := VFloat (confidence result)]>
      (<["needs_clarification" := VBool (needs_clarification result)]>
      (<["retrieved_context_count" :=
           VInt (Z.of_nat (length (retrieved_context result)))]>
      (<["context_sources" := VStrs (map ctx_source (retrieved_context result))]>
       ∅))))))
  | inl e =>
      <["chat_id" := VStr chat_id]>
      (<["response" := VStr processing_apology]>
      (<["intent" := VStr (py "error")]>
      (<["confidence" := VFloat 0]>
      (<["needs_clarification" := VBool false]>
      (<["error" := VStr (exn_str e)]> ∅)))))
  end.

End Workflow.

(** ** The topics of a conversation: app/services/chat_service.py *)

Module ChatService.

Import Nodes.

(** The dictionary [topic_keywords] of [_analyze_topics], in insertion
    order. *)
Definition topic_keywords : list (str * list str) :=
  [ (py "código",
     [py "código"; py "code"; py "función"; py "function"; py "clase";
      py "class"; py "método"; py "method"]);
    (py "sintaxis",
     [py "sintaxis"; py "syntax"; py "error"; py "bug"; py "compilar";
      py "compile"]);
    (py "conceptos",
     [py "concepto"; py "concept"; py "definición"; py "definition";
      py "explicar"; py "explain"]);
    (py "ejemplos",
     [py "ejemplo"; py "example"; py "caso"; py "case"; py "uso"; py "use"]);
    (py "configuración",
     [py "configurar"; py "configure"; py "instalar"; py "install";
      py "setup"]);
    (py "API",
     [py "api"; py "endpoint"; py "request"; py "response"; py "http";
      py "rest"]) ].

(** [any(keyword in message_lower for keyword in keywords)]. *)
Definition mentions (message_lower : str) (keywords : list str) : bool :=
  existsb (contains message_lower) keywords.

(** The inner loop: [topic_counts[topic] += 1] for every topic the message
    mentions; [None] is the [KeyError] of an absent key. *)
Fixpoint count_topics (message_lower : str) (topics : list (str * list str))
  (topic_counts : scores) : option scores :=
  match topics with
  | [] => Some topic_counts
  | (topic, keywords) :: rest =>
      if mentions message_lower keywords then
        match incr topic topic_counts with
        | Some topic_counts' => count_topics message_lower rest topic_counts'
        | None => None
        end
      else count_topics message_lower rest topic_counts
  end.

Fixpoint count_messages (messages : list str) (topic_counts : scores)
  : option scores :=
  match messages with
  | [] => Some topic_counts
  | message :: rest =>
      match count_topics (lower message) topic_keywords topic_counts with
      | Some topic_counts' => count_messages rest topic_counts'
      | None => None
      end
  end.

(** [sorted(topic_counts.items(), key=lambda x: x[1], reverse=True)]: the
    sort is stable, also in reverse. *)
Fixpoint insert_by_count (x : str * nat) (sorted : scores) : scores :=
  match sorted with
  | [] => [x]
  | y :: rest =>
      if snd y <=? snd x then x :: sorted else y :: insert_by_count x rest
  end.

Definition sort_by_count (l : scores) : scores :=
  fold_right insert_by_count [] l.

(** A topic [{'topic', 'count'}]; whatever the body raises gives []. *)
Definition _analyze_topics (messages : list str) : list (str * nat) :=
  let topic_counts := map (fun kv => (fst kv, 0)) topic_keywords in
  match count_messages messages topic_counts with
  | Some topic_counts =>
      let sorted_topics := sort_by_count topic_counts in
      List.filter (fun tc => 0 <? snd tc) sorted_topics
  | None => []
  end.

End ChatService.

Import TextProcessor EmbeddingManager Nodes Workflow Helpers.
Import ChatService.

(** * Scenarios and auxiliary notions

    The concrete inputs the properties below are checked on, and the
    notions their statements use. *)

(** A document whose only section holds one code block of 1001 characters. *)
Definition long_code_document : document :=
  Document (Some (py "Doc")) (py "http://d")
    (Some [Section_ (Some (py "Uso")) (Some 2%Z) None
             (Some [CodeBlock (repeat "x"%char 1001) None])]).

(** A document whose only section holds two short lines of text. *)
Definition short_document : document :=
  Document (Some (py "Doc")) (py "http://d")
    (Some [Section_ (Some (py "Uso")) (Some 2%Z)
             (Some [py "Primera  línea."; py "Segunda."]) (Some [])]).

(** The text fragment of [short_document]. *)
Definition short_document_text : chunk meta :=
  Chunk (py "Primera línea. Segunda.")
    (<["type" := VStr (py "text_content")]>
     (<["section" := VStr (py "Uso")]>
     (<["url" := VStr (py "http://d")]> ∅)))
    (py "http://d").

(** A document whose only section is one line of three sentences, of 500,
    499 and 10 characters. *)
Definition five_hundred : str := repeat "a"%char 500.
Definition four_nine_nine : str := repeat "b"%char 499.

Definition joined_sentences_document : document :=
  Document (Some (py "Doc")) (py "http://d")
    (Some [Section_ (Some (py "Uso")) (Some 2%Z)
             (Some [five_hundred ++ py ". " ++ four_nine_nine ++ py ". "
                    ++ py "cccccccccc"])
             (Some [])]).

(** A list whose only item is empty, under a heading. *)
Definition empty_item_document : document :=
  Document (Some (py "Doc")) (py "http://d")
    (Some [Section_ (Some (py "Lista")) (Some 2%Z) (Some [[]]) (Some [])]).

(** Fifty characters, and the same followed by one more. *)
Definition fifty : str := repeat "a"%char 50.
Definition fifty_one : str := fifty ++ py "#".

(** Three fragments: the last two overlap, the first two do not. *)
Definition overlap_chunks : list (chunk loc) :=
  [Chunk fifty_one 0 (py "u"); Chunk fifty 1 (py "u");
   Chunk fifty_one 2 (py "u")].

(** Each fragment with a metadata dictionary of its own. *)
Definition overlap_store : store :=
  <[0 := ∅]> (<[1 := ∅]> (<[2 := ∅]> ∅)).

(** Two fragments without overlap. *)
Definition distinct_chunks : list (chunk loc) :=
  [Chunk fifty 0 (py "u"); Chunk (py "otro texto") 1 (py "u")].

(** Two fragments of section A that share one metadata dictionary, and a
    fragment of section B that continues the second. *)
Definition shared_chunks : list (chunk loc) :=
  [Chunk (py "otro texto") 0 (py "u"); Chunk fifty 0 (py "u");
   Chunk fifty_one 1 (py "u")].

Definition shared_store : store :=
  <[0 := {[ "section"%string := VStr (py "A") ]}]>
  (<[1 := {[ "section"%string := VStr (py "B") ]}]> ∅).

(** The fragments [RAGNode.run] keeps. *)
Definition top_results (w : world) (st : State) : list hit :=
  firstn 5
    (sort_desc
       (search (query_general w)
        ++ (if intent_is st code_question then search (query_code w) else []))).

(** The state [process_message] starts from. *)
Definition fresh_state : State :=
  new_state (py "chat_1") (py "hola") (py "user_1") None.

(** A collection that answers with one fragment at each of the given
    distances; every call of the model raises. *)
Definition world_at (distances : list Q) : world :=
  World (fun _ _ => false) None None None
    (Some (QueryResult (map (fun _ => py "texto") distances) [] distances))
    None.

(** The patterns [intent_patterns] lists for an intent. *)
Definition patterns_for (intent : str) : list str :=
  match find (fun kv => str_eqb (fst kv) intent) intent_patterns with
  | Some kv => snd kv
  | None => []
  end.

(** The score of an intent: how many of its patterns match the lower-cased
    message. *)
Definition pattern_count (w : world) (message intent : str) : nat :=
  length (List.filter (fun pattern => re_search w pattern (lower message))
            (patterns_for intent)).

(** A regular-expression engine that finds the keywords of the first two
    code patterns, as on ["show me a function example"]. *)
Definition code_world : world :=
  World (fun pattern _ =>
           existsb (str_eqb pattern) (firstn 2 (patterns_for code_question)))
    (Some (py " Code_Question ")) None None None None.

(** The collection returns nothing. *)
Definition silent_world : world := world_at [].

(** The model answers every call. *)
Definition answering_world : world :=
  World (fun _ _ => false) (Some (py "general_question"))
    (Some (py " Una respuesta. ")) (Some (py " ¿Qué parte? ")) None None.

(** One node of the graph runs, in some world; the router reads the state
    and leaves it as it is. *)
Inductive step : State -> State -> Prop :=
| step_input st : step st (InputNode_run st)
| step_intent_analysis w st st' :
    IntentAnalysisNode_run w st = Some st' -> step st st'
| step_router st : step st st
| step_rag w st : step st (RAGNode_run w st)
| step_context_builder st st' :
    ContextBuilderNode_run st = Some st' -> step st st'
| step_response_generation w st : step st (ResponseGenerationNode_run w st)
| step_code_formatting st : step st (CodeFormattingNode_run st)
| step_memory st : step st (MemoryNode_run st)
| step_clarification w st : step st (ClarificationNode_run w st).

(** The states of an execution: a new state, then nodes in any order. *)
Inductive reachable : State -> Prop :=
| reachable_new c m u h : reachable (new_state c m u h)
| reachable_step st st' : reachable st -> step st st' -> reachable st'.

(** The invariant of the orchestrator. *)
Definition has_question (st : State) : Prop :=
  needs_clarification st = true ->
  exists question, clarification_question st = Some question.

(** Nodes run one after the other. *)
Inductive steps : State -> State -> Prop :=
| steps_refl st : steps st st
| steps_step st st' st'' : step st st' -> steps st' st'' -> steps st st''.

(** What the properties below ask of the compiled graph, which is a
    parameter: a state it returns was obtained from the state it was given
    by running node functions, in whatever order its edges give. *)
Definition runs_nodes (app : State -> exn + State) : Prop :=
  forall st result, app st = inr result -> steps st result.

(** An executor that runs the input node, the classification, the router
    and the clarification node, the path that the edge list of
    [get_workflow_info] gives a request for clarification. *)
Definition clarification_turn (w : world) (st : State) : exn + State :=
  match IntentAnalysisNode_run w (InputNode_run st) with
  | Some routed => inr (ClarificationNode_run w routed)
  | None => inl (Exception (py "intent_analysis"))
  end.

(** An executor that raises, whatever it is given. *)
Definition refusing_app (st : State) : exn + State :=
  inl (Exception (py "invalid update")).

(** A regular-expression engine that finds both clarification patterns, as
    on ["no entiendo, ¿puedes explicar?"]; the model raises. *)
Definition confused_world : world :=
  World (fun pattern _ =>
           existsb (str_eqb pattern) (patterns_for clarification))
    None None None None None.

(** The turn of a user who asks for a clarification, and where it ends. *)
Definition confused_state : State :=
  new_state (py "chat_1") (py "no entiendo, ¿puedes explicar?")
    (py "user_1") None.

Definition confused_result : State :=
  match clarification_turn confused_world confused_state with
  | inr result => result
  | inl _ => confused_state
  end.

(** The fenced block of a language tag and a code, as the fence pattern
    reads it: the fence, the tag, a newline, the code, the fence. *)
Definition fenced (language code : str) : str :=
  fence ++ language ++ [nl] ++ code ++ fence.

(** [s.endswith(c)] for a character. *)
Definition ends_with (c : ascii) (s : str) : bool :=
  match rev s with
  | x :: _ => bool_decide (x = c)
  | [] => false
  end.

(** ** Notions of the further properties *)

(** The only white space of the text is the plain space, and no two white
    spaces are neighbours. *)
Fixpoint single_spaced (s : str) : bool :=
  match s with
  | [] => true
  | c :: r =>
      (negb (isspace c) || bool_decide (c = space))
      && match r with
         | c' :: _ => negb (isspace c && isspace c')
         | [] => true
         end
      && single_spaced r
  end.

(** The text is not empty and does not begin with white space. *)
Definition starts_solid (s : str) : Prop :=
  match s with
  | c :: _ => isspace c = false
  | [] => False
  end.

(** No text of the list is longer than [n]. *)
Definition all_within (n : nat) (chunks : list str) : Prop :=
  forall c, In c chunks -> length c <= n.

(** No text of the list is empty. *)
Definition all_truthy (chunks : list str) : Prop :=
  forall c, In c chunks -> truthy c = true.

(** The characters of all the fragments together. *)
Definition total_length (chunks : list (chunk loc)) : nat :=
  list_sum (map (fun c => length (content c)) chunks).

(** [merged] is the fragment [original] with text added at its end: the
    same source, the same metadata dictionary. *)
Definition extends (original merged : chunk loc) : Prop :=
  source merged = source original
  /\ metadata merged = metadata original
  /\ exists added, content merged = content original ++ added.

(** The column [l] of an answer is absent, or has an entry for each of the
    [n] documents from the [i]-th on. *)
Definition covers {A} (l : list A) (i n : nat) : Prop :=
  l = [] \/ i + n <= length l.

(** What [search] reads from a column for [n] documents from the [i]-th
    on. *)
Definition column {A} (l : list A) (dflt : A) (i n : nat) : list A :=
  match l with
  | [] => repeat dflt n
  | _ => firstn n (skipn i l)
  end.

(** The column is there but ends before the [n]-th document. *)
Definition short_of {A} (l : list A) (n : nat) : Prop :=
  l <> [] /\ length l < n.

(** [a] comes before [b] in the order of [RAGNode.run]: it is at least as
    relevant. *)
Definition at_least_as_relevant (a b : hit) : Prop :=
  (relevance_score b <= relevance_score a)%Q.

(** All that the two searches of [RAGNode.run] found. *)
Definition all_results (w : world) (st : State) : list hit :=
  search (query_general w)
  ++ (if intent_is st code_question then search (query_code w) else []).

(** The message has a character that is not white space. *)
Definition not_blank (st : State) : Prop :=
  truthy (strip (user_message st)) = true.

(** The intent of the state, if it has one, is one of the four labels. *)
Definition intent_valid (st : State) : Prop :=
  forall i, intent st = Some i -> In i valid_intents.

(** [st'] is the conversation of [st] later on: the same chat and user, and
    the history of [st] with exchanges added at its end. *)
Definition continues (st st' : State) : Prop :=
  chat_id st' = chat_id st
  /\ user_id st' = user_id st
  /\ exists added, chat_history st' = chat_history st ++ added.

(** The characters [_format_technical_terms] wraps a term in. *)
Definition is_marker (c : ascii) : bool :=
  bool_decide (c = "*"%char) || bool_decide (c = backtick).

(** The text without its markers. *)
Definition unmarked (text : str) : str :=
  List.filter (fun c => negb (is_marker c)) text.

(** A segmenter with chunks of twelve characters, and a text of three
    sentences for it. *)
Definition small : TextProcessor.t :=
  {| chunk_size := 12; chunk_overlap := 0 |}.

Definition three_sentences : str := py "Uno dos. Tres  cuatro. Cinco.".

Definition five_words : str := py "uno dos tres cuatro cinco".

(** An answer of the collection with two documents and their distances,
    and one whose distances end after the first document. *)
Definition two_hits : query_result :=
  QueryResult [py "uno"; py "dos"] [] [1 # 4; 1 # 2].

Definition short_answer : query_result :=
  QueryResult [py "uno"; py "dos"] [] [1 # 4].

(** A follow-up question after one exchange, and what the context builder
    makes of it. *)
Definition follow_up_state : State :=
  new_state (py "chat_1") (py "dame mas detalles") (py "user_1")
    (Some [ <["message" := VStr (py "que es RAG")]>
            (<["response" :=
                 VStr (py "RAG es una tecnica de recuperacion.")]> ∅) ]).

Definition follow_up_result : State :=
  match ContextBuilderNode_run follow_up_state with
  | Some st' => st'
  | None => follow_up_state
  end.

(** A collection that accepts what it is given. *)
Definition accepting_collection (documents : list str)
  (metadatas : list meta) (ids : list str) : bool := true.

(** The messages that mention one of the keywords. *)
Definition mentioning (keywords : list str) (messages : list str) : nat :=
  length (List.filter (fun message => mentions (lower message) keywords)
            messages).

(** Every count of the dictionary raised by what [f] gives for its key. *)
Definition bump_all (f : str -> nat) (sc : scores) : scores :=
  map (fun kv : str * nat => (fst kv, snd kv + f (fst kv))) sc.

(** The topics named [k] that the message mentions. *)
Definition hits_in (message_lower k : str) : nat :=
  length (List.filter
            (fun t : str * list str =>
               bool_decide (fst t = k) && mentions message_lower (snd t))
            topic_keywords).

Definition total_hits (messages : list str) (k : str) : nat :=
  list_sum (map (fun message => hits_in (lower message) k) messages).

(** [a] comes before [b]: its count is at least as high. *)
Definition at_least_as_frequent (a b : str * nat) : Prop := snd b <= snd a.

(** Three messages of a conversation. *)
Definition three_messages : list str :=
  [py "Dame un ejemplo de una clase"; py "Hay un error de sintaxis";
   py "Otro EJEMPLO, por favor"].

(** * Properties *)

(** ** Python strings *)

Example py_titulo : length (py "Título: ") = 8.
Proof. reflexivity. Qed.

Example py_titulo_i : nth 1 (py "Título: ") space = chr 237.
Proof. reflexivity. Qed.

Example strip_ex : strip (py "  a b ") = py "a b".
Proof. reflexivity. Qed.

Example split_runs_ex :
  split_runs is_sentence_end (py "a..b.") = [py "a"; py "b"; []].
Proof. reflexivity. Qed.

Example split_ws_ex : split_ws (py " ab  c ") = [py "ab"; py "c"].
Proof. reflexivity. Qed.

(** ** Segmentation *)

Section Segmentation.

Variable self : TextProcessor.t.

(** A section whose cleaned text fits in one chunk yields that text. *)
Lemma chunk_text_short (text : str) (m : meta) (u : str) :
  length (_clean_text text) <= chunk_size self ->
  _chunk_text self text m u = [Chunk (_clean_text text) m u].
Proof.
  intros Hlen. unfold _chunk_text.
  apply Nat.leb_le in Hlen. rewrite Hlen. reflexivity.
Qed.

End Segmentation.

(** Code blocks are never split: with the default chunk size of 1000 the
    code block of [long_code_document] is emitted whole, as a fragment of
    1016 characters. *)
Example code_block_emitted_whole :
  within_chunk_size defaults (process_document defaults long_code_document)
  = false
  /\ map (fun c => length (content c))
       (process_document defaults long_code_document) = [11; 12; 1016].
Proof. split; vm_compute; reflexivity. Qed.

(** C2 fails on the code, on the text path.  [_split_long_paragraph] tests
    [len(current_chunk) + len(sentence) + 1 > chunk_size] and then joins
    with [". "], two characters: with the default chunk size of 1000 a
    sentence of 500 characters and one of 499 pass the test at exactly 1000
    and are emitted as one text fragment of 1001 characters, which is
    neither within the bound nor a truncation fragment. *)
Theorem C2_text_fragment_exceeds :
  chunk_size defaults = 1000
  /\ map (fun c => (is_text_content c, length (content c)))
       (process_document defaults joined_sentences_document)
     = [(false, 11); (false, 12); (true, 1001); (true, 10)]
  /\ nth_error (map content
                  (process_document defaults joined_sentences_document)) 2
     = Some (five_hundred ++ py ". " ++ four_nine_nine).
Proof. repeat split; vm_compute; reflexivity. Qed.

(** C7 fails on the code: the section content [['']] is a non-empty list,
    its cleaned text is empty and fits in one chunk, and [_chunk_text]
    emits it. *)
Lemma C7_empty_fragment_emitted :
  map content (process_document defaults empty_item_document)
  = [py "Título: Doc"; py "Sección: Lista"; []].
Proof. vm_compute. reflexivity. Qed.

(** Beyond the cleaned-text bound the sentence and word splitters can pass
    [chunk_size]: the join [". "] adds two characters where the test counts
    one, and a sentence or word that does not fit behind a non-empty buffer
    becomes the new buffer whatever its length. *)
Example split_long_paragraph_join :
  map (@length ascii)
    (_split_long_paragraph (TextProcessor.Make 10 2) (py "abcd. efghi. zz"))
  = [11; 2].
Proof. reflexivity. Qed.

Example split_long_paragraph_carry :
  _split_long_paragraph (TextProcessor.Make 10 2) (py "ab. cccccccccccccccc")
  = [py "ab"; py "cccccccccccccccc"].
Proof. reflexivity. Qed.

Example split_by_words_truncates :
  _split_by_words (TextProcessor.Make 10 2) (py "cccccccccccccccc dd")
  = [py "cccccccccc"; py "dd"].
Proof. reflexivity. Qed.

Example split_by_words_carry :
  _split_by_words (TextProcessor.Make 10 2) (py "ab cccccccccccccccc dd")
  = [py "ab"; py "cccccccccccccccc"; py "dd"].
Proof. reflexivity. Qed.

(** After [_clean_text] no newline is left, so a long text is one
    paragraph: its fragments are those of [_split_long_paragraph]. *)
Example chunk_text_long :
  map content (_chunk_text (TextProcessor.Make 10 2) (py "abcd.
efghi.

zz") ∅ [])
  = [py "abcd. efghi"; py "zz"].
Proof. vm_compute. reflexivity. Qed.

(** ** The merge-overlap pass *)

Lemma merge_loop_no_overlap (h : store) (rest acc : list (chunk loc))
  (cur : chunk loc) :
  no_adjacent_overlap (cur :: rest) = true ->
  merge_loop h rest acc cur = (h, acc ++ cur :: rest).
Proof.
  revert acc cur. induction rest as [| next rest IH]; intros acc cur Hno.
  - reflexivity.
  - simpl in Hno. apply andb_prop in Hno as [Hpair Hrest].
    apply negb_true_iff in Hpair. simpl. rewrite Hpair.
    rewrite IH by exact Hrest. rewrite <- app_assoc. reflexivity.
Qed.

(** The update of the metadata is in place: the first fragment, already
    emitted, shares its dictionary with the fragment the third one is
    merged into, and reads section B afterwards. *)
Example merge_updates_shared_metadata :
  let merged := merge_overlapping_chunks shared_store shared_chunks in
  map content (snd merged) = [py "otro texto"; fifty_one]
  /\ map (fun c => deref (fst merged) (metadata c) !! "section"%string)
       (snd merged)
     = [Some (VStr (py "B")); Some (VStr (py "B"))].
Proof. split; vm_compute; reflexivity. Qed.

(** C8, as stated, fails: the first pass leaves the first fragment alone
    (the second one is not a continuation of it) and merges the last two
    into a copy of the first; the second pass then merges the two equal
    fragments, so its result is not the result of the first pass. *)
Lemma C8_counterexample :
  let once := merge_overlapping_chunks overlap_store overlap_chunks in
  let twice := merge_overlapping_chunks (fst once) (snd once) in
  map content (snd once) = [fifty_one; fifty_one]
  /\ map content (snd twice) = [fifty_one].
Proof. split; vm_compute; reflexivity. Qed.

(** C8, amended: on a sequence in which no two neighbours overlap
    significantly the pass is a no-op: it returns the same fragments and
    leaves every metadata dictionary as it was; running it again changes
    nothing either. *)
Theorem C8_merge_noop_without_overlap (h : store) (chunks : list (chunk loc)) :
  no_adjacent_overlap chunks = true ->
  merge_overlapping_chunks h chunks = (h, chunks)
  /\ (let once := merge_overlapping_chunks h chunks in
      merge_overlapping_chunks (fst once) (snd once) = once).
Proof.
  intros Hno.
  assert (Hone : merge_overlapping_chunks h chunks = (h, chunks)).
  { destruct chunks as [| first rest]; [reflexivity |].
    simpl. rewrite merge_loop_no_overlap by exact Hno. reflexivity. }
  split; [exact Hone |]. cbv zeta. rewrite Hone. simpl. exact Hone.
Qed.

Lemma C8_merge_noop_without_overlap_witness :
  merge_overlapping_chunks overlap_store distinct_chunks
  = (overlap_store, distinct_chunks).
Proof.
  apply (C8_merge_noop_without_overlap overlap_store distinct_chunks).
  vm_compute. reflexivity.
Defined.

(** ** Retrieval *)

Lemma format_results_relevance (results : query_result) (docs : list str) :
  forall i formatted,
    format_results_from results i docs = Some formatted ->
    forall r, In r formatted -> relevance_score r = (1 - distance r)%Q.
Proof.
  induction docs as [| doc rest IH]; intros i formatted Hf r Hin; simpl in Hf.
  - injection Hf as <-. contradiction.
  - destruct (row (metadatas results) i ∅) as [md |]; [| discriminate].
    destruct (row (distances results) i 0%Q) as [d |]; [| discriminate].
    destruct (format_results_from results (S i) rest) as [tl |] eqn:Htl;
      [| discriminate].
    injection Hf as <-. destruct Hin as [<- | Hin]; [reflexivity |].
    eapply IH; eauto.
Qed.

Lemma search_relevance (outcome : option query_result) (r : hit) :
  In r (search outcome) -> relevance_score r = (1 - distance r)%Q.
Proof.
  unfold search, format_results. destruct outcome as [results |];
    [| contradiction].
  destruct (format_results_from results 0 (documents results)) eqn:Hf;
    [| contradiction].
  intros Hin. eapply format_results_relevance; eauto.
Qed.

Lemma In_insert_desc (x y : hit) (l : list hit) :
  In y (insert_desc x l) -> y = x \/ In y l.
Proof.
  induction l as [| z l IH]; simpl.
  - intros [<- | []]. now left.
  - destruct (Qle_bool (relevance_score z) (relevance_score x)).
    + intros [<- | Hin]; [now left | now right].
    + intros [<- | Hin]; [right; now left |].
      destruct (IH Hin) as [-> | H]; [now left | right; now right].
Qed.

Lemma In_sort_desc (y : hit) (l : list hit) : In y (sort_desc l) -> In y l.
Proof.
  induction l as [| x l IH]; simpl; [exact id |].
  intros Hin. apply In_insert_desc in Hin as [-> | Hin];
    [now left | right; now apply IH].
Qed.

Lemma In_firstn_In {A} (n : nat) (l : list A) (x : A) :
  In x (firstn n l) -> In x l.
Proof.
  intros Hin. rewrite <- (firstn_skipn n l). apply in_or_app. now left.
Qed.

Lemma RAG_retrieved_context (w : world) (st : State) :
  retrieved_context (RAGNode_run w st) = top_results w st.
Proof.
  unfold RAGNode_run. fold (top_results w st).
  destruct (top_results w st); reflexivity.
Qed.

Lemma RAG_confidence (w : world) (st : State) :
  confidence (RAGNode_run w st)
  = match top_results w st with
    | [] => 0%Q
    | top =>
        (sum_scores top / inject_Z (Z.of_nat (length top)))%Q
    end.
Proof.
  unfold RAGNode_run. fold (top_results w st).
  destruct (top_results w st); reflexivity.
Qed.

Lemma top_results_relevance (w : world) (st : State) (r : hit) :
  In r (top_results w st) -> relevance_score r = (1 - distance r)%Q.
Proof.
  intros Hin. apply In_firstn_In, In_sort_desc in Hin.
  apply in_app_or in Hin as [Hin | Hin].
  - now apply search_relevance in Hin.
  - destruct (intent_is st code_question); [| contradiction].
    now apply search_relevance in Hin.
Qed.

Lemma sum_scores_bounds (l : list hit) :
  (forall r, In r l -> (0 <= relevance_score r <= 1)%Q) ->
  forall acc,
    (acc <= fold_left (fun a r => (a + relevance_score r)%Q) l acc
     <= acc + inject_Z (Z.of_nat (length l)))%Q.
Proof.
  induction l as [| x l IH]; intros Hall acc.
  - cbn [fold_left length].
    change (inject_Z (Z.of_nat 0)) with 0%Q. split; lra.
  - assert (Hx : (0 <= relevance_score x <= 1)%Q) by (apply Hall; now left).
    assert (Hl : forall r, In r l -> (0 <= relevance_score r <= 1)%Q)
      by (intros r Hr; apply Hall; now right).
    specialize (IH Hl (acc + relevance_score x)%Q).
    change (fold_left (fun a r => (a + relevance_score r)%Q) (x :: l) acc)
      with (fold_left (fun a r => (a + relevance_score r)%Q) l
              (acc + relevance_score x)%Q).
    assert (Hs : (inject_Z (Z.of_nat (length (x :: l)))
                  == inject_Z (Z.of_nat (length l)) + 1)%Q).
    { simpl length. rewrite Nat2Z.inj_succ. unfold Z.succ.
      rewrite inject_Z_plus. reflexivity. }
    rewrite Hs. split; lra.
Qed.

Lemma mean_bounds (l : list hit) :
  l <> [] ->
  (forall r, In r l -> (0 <= relevance_score r <= 1)%Q) ->
  (0 <= sum_scores l / inject_Z (Z.of_nat (length l)) <= 1)%Q.
Proof.
  intros Hne Hall.
  assert (Hpos : (0 < inject_Z (Z.of_nat (length l)))%Q).
  { destruct l; [congruence |]. simpl length.
    change 0%Q with (inject_Z 0). rewrite <- Zlt_Qlt. lia. }
  pose proof (sum_scores_bounds l Hall 0%Q) as [Hlo Hhi].
  fold (sum_scores l) in Hlo, Hhi. split.
  - apply Qle_shift_div_l; [exact Hpos | lra].
  - apply Qle_shift_div_r; [exact Hpos | lra].
Qed.

(** C1, as stated, fails twice.  The score is [1 - distance], unclamped: a
    fragment at distance 3/2 has score -1/2 and the confidence is negative.
    And a fragment at distance 1 has score 0: the confidence is 0.0 although
    the list of fragments is not empty. *)
Lemma C1_counterexample :
  let far := RAGNode_run (world_at [3 # 2]) fresh_state in
  let unit := RAGNode_run (world_at [1%Q]) fresh_state in
  (map relevance_score (retrieved_context far) = [-1 # 2]
   /\ (confidence far < 0)%Q)
  /\ (length (retrieved_context unit) = 1
      /\ (confidence unit == 0)%Q).
Proof. repeat split; vm_compute; reflexivity. Qed.

(** C1, amended: the relevance score of every retrieved fragment is
    [1 - distance], not clamped; the confidence is the mean of the scores of
    the fragments kept, and 0.0 when none is kept; when every distance the
    collection reports lies in [0,1], so does the confidence. *)
Theorem C1_confidence (w : world) (st : State) :
  let st' := RAGNode_run w st in
  (forall r, In r (retrieved_context st') ->
     relevance_score r = (1 - distance r)%Q)
  /\ (retrieved_context st' = [] -> confidence st' = 0%Q)
  /\ (retrieved_context st' <> [] ->
      confidence st'
      = (sum_scores (retrieved_context st')
         / inject_Z (Z.of_nat (length (retrieved_context st'))))%Q)
  /\ ((forall r, In r (retrieved_context st') -> (0 <= distance r <= 1)%Q) ->
      (0 <= confidence st' <= 1)%Q).
Proof.
  cbv zeta. rewrite RAG_retrieved_context, RAG_confidence.
  split; [| split; [| split]].
  - apply top_results_relevance.
  - intros ->. reflexivity.
  - destruct (top_results w st); [congruence | reflexivity].
  - intros Hd.
    assert (Hall : forall r, In r (top_results w st) ->
                     (0 <= relevance_score r <= 1)%Q).
    { intros r Hin. rewrite (top_results_relevance w st r Hin).
      specialize (Hd r Hin). split; lra. }
    destruct (top_results w st) as [| x l] eqn:Htop.
    + split; lra.
    + apply mean_bounds; [discriminate | exact Hall].
Qed.

Lemma C1_confidence_witness :
  (0 <= confidence (RAGNode_run (world_at [1 # 4; 1 # 2]) fresh_state) <= 1)%Q.
Proof.
  apply (C1_confidence (world_at [1 # 4; 1 # 2]) fresh_state).
  intros r Hin. vm_compute in Hin.
  destruct Hin as [<- | [<- | []]]; split; vm_compute; discriminate.
Defined.

(** ** Intent classification *)

Section PatternScores.

Variable w : world.
Variable message_lower : str.

Let matched (pattern_list : list str) : nat :=
  length (List.filter (fun pattern => re_search w pattern message_lower)
            pattern_list).

Lemma incr_code_question (a b c d : nat) :
  incr code_question
    [(code_question, a); (follow_up, b); (general_question, c);
     (clarification, d)]
  = Some [(code_question, S a); (follow_up, b); (general_question, c);
          (clarification, d)].
Proof. reflexivity. Qed.

Lemma incr_follow_up (a b c d : nat) :
  incr follow_up
    [(code_question, a); (follow_up, b); (general_question, c);
     (clarification, d)]
  = Some [(code_question, a); (follow_up, S b); (general_question, c);
          (clarification, d)].
Proof. reflexivity. Qed.

Lemma incr_general_question (a b c d : nat) :
  incr general_question
    [(code_question, a); (follow_up, b); (general_question, c);
     (clarification, d)]
  = Some [(code_question, a); (follow_up, b); (general_question, S c);
          (clarification, d)].
Proof. reflexivity. Qed.

Lemma incr_clarification (a b c d : nat) :
  incr clarification
    [(code_question, a); (follow_up, b); (general_question, c);
     (clarification, d)]
  = Some [(code_question, a); (follow_up, b); (general_question, c);
          (clarification, S d)].
Proof. reflexivity. Qed.

Ltac score_list_tac pattern_list incr_lemma :=
  let pattern := fresh "pattern" in
  let rest := fresh "rest" in
  let IH := fresh "IH" in
  induction pattern_list as [| pattern rest IH]; intros;
  [ unfold matched; cbn [score_pattern_list List.filter length];
    rewrite Nat.add_0_r; reflexivity
  | unfold matched; cbn [score_pattern_list List.filter];
    destruct (re_search w pattern message_lower);
    [ rewrite incr_lemma; cbn [length]; fold (matched rest);
      rewrite IH, Nat.add_succ_comm; reflexivity
    | fold (matched rest); apply IH ] ].

Lemma score_code_question (pattern_list : list str) :
  forall a b c d,
    score_pattern_list w message_lower code_question pattern_list
      [(code_question, a); (follow_up, b); (general_question, c);
       (clarification, d)]
    = Some [(code_question, a + matched pattern_list); (follow_up, b);
            (general_question, c); (clarification, d)].
Proof. score_list_tac pattern_list incr_code_question. Qed.

Lemma score_follow_up (pattern_list : list str) :
  forall a b c d,
    score_pattern_list w message_lower follow_up pattern_list
      [(code_question, a); (follow_up, b); (general_question, c);
       (clarification, d)]
    = Some [(code_question, a); (follow_up, b + matched pattern_list);
            (general_question, c); (clarification, d)].
Proof. score_list_tac pattern_list incr_follow_up. Qed.

Lemma score_general_question (pattern_list : list str) :
  forall a b c d,
    score_pattern_list w message_lower general_question pattern_list
      [(code_question, a); (follow_up, b); (general_question, c);
       (clarification, d)]
    = Some [(code_question, a); (follow_up, b);
            (general_question, c + matched pattern_list); (clarification, d)].
Proof. score_list_tac pattern_list incr_general_question. Qed.

Lemma score_clarification (pattern_list : list str) :
  forall a b c d,
    score_pattern_list w message_lower clarification pattern_list
      [(code_question, a); (follow_up, b); (general_question, c);
       (clarification, d)]
    = Some [(code_question, a); (follow_up, b); (general_question, c);
            (clarification, d + matched pattern_list)].
Proof. score_list_tac pattern_list incr_clarification. Qed.

End PatternScores.

(** After the two loops every intent holds the number of its patterns that
    match. *)
Lemma score_patterns_counts (w : world) (message : str) :
  score_patterns w (lower message) intent_patterns initial_scores
  = Some [(code_question, pattern_count w message code_question);
          (follow_up, pattern_count w message follow_up);
          (general_question, pattern_count w message general_question);
          (clarification, pattern_count w message clarification)].
Proof.
  unfold intent_patterns, initial_scores. cbn [score_patterns].
  rewrite score_code_question. rewrite score_follow_up.
  rewrite score_general_question. rewrite score_clarification.
  reflexivity.
Qed.

Lemma str_eqb_existsb (s : str) (l : list str) :
  existsb (str_eqb s) l = true <-> In s l.
Proof.
  rewrite existsb_exists. split.
  - intros [x [Hin Heq]]. apply bool_decide_eq_true in Heq. now subst.
  - intros Hin. exists s. split; [exact Hin | now apply bool_decide_eq_true].
Qed.

Lemma refine_valid (w : world) (message detected : str) (history : list meta) :
  In detected valid_intents ->
  In (_refine_intent_with_llm w message detected history) valid_intents.
Proof.
  intros Hd. unfold _refine_intent_with_llm.
  destruct (context_builds history); [| exact Hd].
  destruct (llm_intent w) as [response |]; [| exact Hd].
  destruct (existsb (str_eqb (lower (strip response))) valid_intents) eqn:He;
    [| exact Hd].
  now apply str_eqb_existsb.
Qed.

Lemma valid_code_question : In code_question valid_intents.
Proof. unfold valid_intents. apply in_eq. Qed.

Lemma valid_follow_up : In follow_up valid_intents.
Proof. unfold valid_intents. apply in_cons, in_eq. Qed.

Lemma valid_general_question : In general_question valid_intents.
Proof. unfold valid_intents. do 2 apply in_cons. apply in_eq. Qed.

Lemma valid_clarification : In clarification valid_intents.
Proof. unfold valid_intents. do 3 apply in_cons. apply in_eq. Qed.

Lemma valid_intents_cases (i : str) :
  In i valid_intents ->
  i = code_question \/ i = follow_up \/ i = general_question
  \/ i = clarification.
Proof.
  unfold valid_intents.
  intros [H | [H | [H | [H | []]]]];
    [left | right; left | right; right; left | right; right; right];
    symmetry; exact H.
Qed.

Ltac by_counts E1 E2 E3 E4 :=
  rewrite <- ?E1, <- ?E2, <- ?E3, <- ?E4; lia.

Ltac each_intent Hi E1 E2 E3 E4 :=
  repeat (destruct Hi as [<- | Hi]; [by_counts E1 E2 E3 E4 |]); destruct Hi.

Ltac pick_intent d Hd zero before after E1 E2 E3 E4 :=
  exists d; split; [reflexivity |]; split; [exact Hd |]; split; [zero |];
  intros _; exists before, after; split; [reflexivity |];
  split;
    (let i := fresh "i" in
     let Hi := fresh "Hi" in
     intros i Hi; each_intent Hi E1 E2 E3 E4).

(** The pattern step: total, and the first intent in priority order among
    those with the highest score, or [general_question] when no pattern
    matches. *)
Lemma detect_intent_spec (w : world) (message : str) :
  exists detected,
    _detect_intent_by_patterns w message intent_patterns = Some detected
    /\ In detected valid_intents
    /\ ((forall i, In i valid_intents -> pattern_count w message i = 0) ->
        detected = general_question)
    /\ ((exists i, In i valid_intents /\ 0 < pattern_count w message i) ->
        exists before after,
          valid_intents = before ++ detected :: after
          /\ (forall i, In i before ->
                pattern_count w message i < pattern_count w message detected)
          /\ (forall i, In i after ->
                pattern_count w message i <= pattern_count w message detected)).
Proof.
  unfold _detect_intent_by_patterns. rewrite score_patterns_counts.
  remember (pattern_count w message code_question) as n1 eqn:E1.
  remember (pattern_count w message follow_up) as n2 eqn:E2.
  remember (pattern_count w message general_question) as n3 eqn:E3.
  remember (pattern_count w message clarification) as n4 eqn:E4.
  unfold max_value, max_key. cbn [fold_right fold_left fst snd].
  assert (Hall0 : (forall i, In i valid_intents -> pattern_count w message i = 0)
                  -> n1 = 0 /\ n2 = 0 /\ n3 = 0 /\ n4 = 0).
  { intros H. rewrite E1, E2, E3, E4.
    split; [apply H, valid_code_question |].
    split; [apply H, valid_follow_up |].
    split; [apply H, valid_general_question | apply H, valid_clarification]. }
  assert (Hsome : (exists i, In i valid_intents /\ 0 < pattern_count w message i)
                  -> 0 < n1 \/ 0 < n2 \/ 0 < n3 \/ 0 < n4).
  { intros [i [Hin Hpos]]. apply valid_intents_cases in Hin.
    rewrite E1, E2, E3, E4.
    destruct Hin as [-> | [-> | [-> | ->]]];
      [left | right; left | right; right; left | right; right; right];
      exact Hpos. }
  destruct (0 <? Nat.max n1 (Nat.max n2 (Nat.max n3 (Nat.max n4 0)))) eqn:Hmax;
    [apply Nat.ltb_lt in Hmax | apply Nat.ltb_ge in Hmax].
  - destruct (n1 <? n2) eqn:H12; cbn [fst snd];
      [apply Nat.ltb_lt in H12 | apply Nat.ltb_ge in H12].
    + destruct (n2 <? n3) eqn:H23; cbn [fst snd];
        [apply Nat.ltb_lt in H23 | apply Nat.ltb_ge in H23].
      * destruct (n3 <? n4) eqn:H34; cbn [fst snd];
          [apply Nat.ltb_lt in H34 | apply Nat.ltb_ge in H34].
        -- pick_intent clarification valid_clarification
             ltac:(intros H0; apply Hall0 in H0; exfalso; lia)
             [code_question; follow_up; general_question] (@nil str)
             E1 E2 E3 E4.
        -- pick_intent general_question valid_general_question
             ltac:(intros _; reflexivity)
             [code_question; follow_up] [clarification] E1 E2 E3 E4.
      * destruct (n2 <? n4) eqn:H24; cbn [fst snd];
          [apply Nat.ltb_lt in H24 | apply Nat.ltb_ge in H24].
        -- pick_intent clarification valid_clarification
             ltac:(intros H0; apply Hall0 in H0; exfalso; lia)
             [code_question; follow_up; general_question] (@nil str)
             E1 E2 E3 E4.
        -- pick_intent follow_up valid_follow_up
             ltac:(intros H0; apply Hall0 in H0; exfalso; lia)
             [code_question] [general_question; clarification] E1 E2 E3 E4.
    + destruct (n1 <? n3) eqn:H13; cbn [fst snd];
        [apply Nat.ltb_lt in H13 | apply Nat.ltb_ge in H13].
      * destruct (n3 <? n4) eqn:H34; cbn [fst snd];
          [apply Nat.ltb_lt in H34 | apply Nat.ltb_ge in H34].
        -- pick_intent clarification valid_clarification
             ltac:(intros H0; apply Hall0 in H0; exfalso; lia)
             [code_question; follow_up; general_question] (@nil str)
             E1 E2 E3 E4.
        -- pick_intent general_question valid_general_question
             ltac:(intros _; reflexivity)
             [code_question; follow_up] [clarification] E1 E2 E3 E4.
      * destruct (n1 <? n4) eqn:H14; cbn [fst snd];
          [apply Nat.ltb_lt in H14 | apply Nat.ltb_ge in H14].
        -- pick_intent clarification valid_clarification
             ltac:(intros H0; apply Hall0 in H0; exfalso; lia)
             [code_question; follow_up; general_question] (@nil str)
             E1 E2 E3 E4.
        -- pick_intent code_question valid_code_question
             ltac:(intros H0; apply Hall0 in H0; exfalso; lia)
             (@nil str) [follow_up; general_question; clarification]
             E1 E2 E3 E4.
  - exists general_question. split; [reflexivity |].
    split; [apply valid_general_question |]. split; [reflexivity |].
    intros H. apply Hsome in H. exfalso. lia.
Qed.

(** The classification node never raises. *)
Lemma intent_analysis_total (w : world) (st : State) :
  exists routed, IntentAnalysisNode_run w st = Some routed.
Proof.
  destruct (detect_intent_spec w (user_message st)) as [detected [Hd _]].
  unfold IntentAnalysisNode_run. rewrite Hd. eexists. reflexivity.
Qed.

(** C5: the classification of [IntentAnalysisNode.run] always returns one
    of the four intents.  Its pattern step is total and picks the intent
    with the most matching patterns, the first one in the order
    [code_question], [follow_up], [general_question], [clarification] among
    equals, and [general_question] when nothing matches.  When the
    refinement fails (the model raises, the prompt cannot be built, or the
    answer is not one of the four labels) the pattern step's result is the
    answer. *)
Theorem C5_classify (w : world) (st : State) :
  exists detected,
    let refined :=
      _refine_intent_with_llm w (user_message st) detected (chat_history st) in
    _detect_intent_by_patterns w (user_message st) intent_patterns
    = Some detected
    /\ IntentAnalysisNode_run w st = Some (set_intent st (Some refined))
    /\ In refined valid_intents
    /\ In detected valid_intents
    /\ ((forall i, In i valid_intents ->
           pattern_count w (user_message st) i = 0) ->
        detected = general_question)
    /\ ((exists i, In i valid_intents
                   /\ 0 < pattern_count w (user_message st) i) ->
        exists before after,
          valid_intents = before ++ detected :: after
          /\ (forall i, In i before ->
                pattern_count w (user_message st) i
                < pattern_count w (user_message st) detected)
          /\ (forall i, In i after ->
                pattern_count w (user_message st) i
                <= pattern_count w (user_message st) detected))
    /\ (llm_intent w = None -> refined = detected)
    /\ (context_builds (chat_history st) = false -> refined = detected)
    /\ (forall answer, llm_intent w = Some answer ->
          existsb (str_eqb (lower (strip answer))) valid_intents = false ->
          refined = detected).
Proof.
  destruct (detect_intent_spec w (user_message st))
    as [detected [Hd [Hv [Hzero Hmax]]]].
  exists detected. cbv zeta.
  split; [exact Hd |].
  split; [unfold IntentAnalysisNode_run; rewrite Hd; reflexivity |].
  split; [apply refine_valid, Hv |].
  split; [exact Hv |].
  split; [exact Hzero |].
  split; [exact Hmax |].
  unfold _refine_intent_with_llm.
  split; [| split].
  - intros ->. destruct (context_builds (chat_history st)); reflexivity.
  - intros ->. reflexivity.
  - intros answer -> ->.
    destruct (context_builds (chat_history st)); reflexivity.
Qed.

Example classify_code_question :
  _detect_intent_by_patterns code_world (py "show me a function example")
    intent_patterns = Some code_question
  /\ pattern_count code_world (py "show me a function example") code_question
     = 2.
Proof. split; vm_compute; reflexivity. Qed.

(** ** Routing *)

(** No result of the router is a key of the path map. *)
Lemma router_key_absent (st : State) :
  path_map !! ConditionalRouter_run st = None.
Proof.
  unfold ConditionalRouter_run.
  destruct (intent_is st clarification); [reflexivity |].
  destruct (intent_is st code_question); [reflexivity |].
  destruct (intent_is st follow_up); reflexivity.
Qed.

Ltac lookup_key :=
  repeat (rewrite lookup_insert_ne by discriminate);
  first [ apply lookup_insert_eq | apply lookup_empty
        | apply lookup_singleton_eq
        | rewrite lookup_singleton_ne by discriminate; reflexivity ].

Lemma node_conditional_router :
  nodes _build_graph !! "conditional_router"%string
  = Some (fun (_ : world) (st : State) =>
            Some (OStr (ConditionalRouter_run st))).
Proof. unfold _build_graph; cbn [nodes]. lookup_key. Qed.

Lemma conditional_router_edges :
  conditional_edges _build_graph !! "conditional_router"%string
  = Some (ConditionalRouter_run, path_map).
Proof. unfold _build_graph; cbn [conditional_edges]. lookup_key. Qed.

(** The router answers with one of three names. *)
Lemma router_results (st : State) :
  ConditionalRouter_run st = "rag_node"%string
  \/ ConditionalRouter_run st = "context_builder_node"%string
  \/ ConditionalRouter_run st = "clarification_node"%string.
Proof.
  unfold ConditionalRouter_run.
  destruct (intent_is st clarification); [right; right; reflexivity |].
  destruct (intent_is st code_question); [left; reflexivity |].
  destruct (intent_is st follow_up); [right; left | left]; reflexivity.
Qed.

(** None of them is the name of a node either. *)
Lemma router_result_no_node (st : State) :
  nodes _build_graph !! ConditionalRouter_run st = None.
Proof.
  unfold _build_graph; cbn [nodes].
  destruct (router_results st) as [-> | [-> | ->]]; lookup_key.
Qed.

Lemma path_map_keys (key : string) :
  is_Some (path_map !! key)
  <-> key = "rag"%string \/ key = "context_builder"%string
      \/ key = "clarification"%string.
Proof.
  unfold path_map. split.
  - intros Hkey.
    destruct (decide (key = "rag"%string)) as [-> | H1]; [now left |].
    destruct (decide (key = "context_builder"%string)) as [-> | H2];
      [right; now left |].
    destruct (decide (key = "clarification"%string)) as [-> | H3];
      [right; now right |].
    rewrite !lookup_insert_ne, lookup_empty in Hkey by congruence.
    destruct Hkey as [x Hx]. discriminate.
  - intros [-> | [-> | ->]]; eexists; lookup_key.
Qed.

(** C3 fails on the code.  The decision of the router is the one the claim
    states, but it answers with the [name] attribute of the node classes
    (['rag_node'], ['context_builder_node'], ['clarification_node']) while
    the conditional edges that leave it are keyed by the names the nodes
    are registered under (['rag'], ['context_builder'], ['clarification']):
    for every state, the result of the router is no key of the path map,
    and not the name of a registered node either, so no executor can find
    the Clarification, ContextBuild or Retrieval stage by it. *)
Theorem C3_route_lookup_fails (st : State) :
  nodes _build_graph !! "conditional_router"%string
  = Some (fun (_ : world) (st' : State) =>
            Some (OStr (ConditionalRouter_run st')))
  /\ conditional_edges _build_graph !! "conditional_router"%string
     = Some (ConditionalRouter_run, path_map)
  /\ (forall key, is_Some (path_map !! key)
                  <-> key = "rag"%string \/ key = "context_builder"%string
                      \/ key = "clarification"%string)
  /\ ConditionalRouter_run st
     = (if intent_is st clarification then "clarification_node"
        else if intent_is st follow_up then "context_builder_node"
        else "rag_node")%string
  /\ path_map !! ConditionalRouter_run st = None
  /\ nodes _build_graph !! ConditionalRouter_run st = None.
Proof.
  split; [apply node_conditional_router |].
  split; [apply conditional_router_edges |].
  split; [apply path_map_keys |].
  split; [| split; [apply router_key_absent | apply router_result_no_node]].
  unfold ConditionalRouter_run, intent_is.
  destruct (intent st) as [i |]; [| reflexivity].
  destruct (str_eqb i clarification); [reflexivity |].
  destruct (str_eqb i code_question) eqn:Hcode; [| reflexivity].
  apply bool_decide_eq_true_1 in Hcode. subst i. reflexivity.
Qed.

(** ** Synthesis *)

Lemma Qlt_bool_true (a b : Q) : (a < b)%Q -> Qlt_bool a b = true.
Proof.
  intros Hlt. unfold Qlt_bool. apply negb_true_iff.
  destruct (Qle_bool b a) eqn:Hle; [| reflexivity].
  apply Qle_bool_iff in Hle. exfalso. exact (Qlt_not_le _ _ Hlt Hle).
Qed.

(** C4, as stated, fails when the completion raises: the state keeps
    [needs_clarification = False] and no clarification question, although
    the retrieval confidence 0.0 is below 0.3; only the apology is set. *)
Lemma C4_counterexample :
  let st' := ResponseGenerationNode_run silent_world fresh_state in
  (confidence fresh_state < low_confidence)%Q
  /\ response st' = Some generation_apology
  /\ needs_clarification st' = false
  /\ clarification_question st' = None.
Proof. repeat split. Qed.

(** C4, amended: with a retrieval confidence below 0.3, when the completion
    succeeds the synthesizer stores the trimmed answer, sets
    [needs_clarification] and the fixed clarification question; when the
    completion fails the answer is the fixed apology and
    [needs_clarification] and the clarification question are left as they
    were. *)
Theorem C4_low_confidence (w : world) (st : State) :
  (confidence st < low_confidence)%Q ->
  let st' := ResponseGenerationNode_run w st in
  (forall answer, llm_response w = Some answer ->
     response st' = Some (strip answer)
     /\ needs_clarification st' = true
     /\ clarification_question st' = Some clarification_prompt)
  /\ (llm_response w = None ->
      response st' = Some generation_apology
      /\ needs_clarification st' = needs_clarification st
      /\ clarification_question st' = clarification_question st).
Proof.
  intros Hlow. cbv zeta. unfold ResponseGenerationNode_run. split.
  - intros answer ->. cbn [confidence set_response].
    rewrite (Qlt_bool_true _ _ Hlow). repeat split.
  - intros ->. repeat split.
Qed.

Lemma C4_low_confidence_witness :
  needs_clarification (ResponseGenerationNode_run answering_world fresh_state)
  = true.
Proof.
  refine (proj1 (proj2 (proj1
    (C4_low_confidence answering_world fresh_state _) _ eq_refl))).
  reflexivity.
Defined.

(** ** The clarification invariant *)

Lemma step_has_question (st st' : State) :
  step st st' -> has_question st -> has_question st'.
Proof.
  unfold has_question. intros Hstep Hinv.
  destruct Hstep as
    [ st | w st st' Hrun | st | w st | st st' Hrun | w st | st | st | w st ].
  - unfold InputNode_run.
    destruct (negb (truthy (strip (user_message st)))); exact Hinv.
  - unfold IntentAnalysisNode_run in Hrun.
    destruct (_detect_intent_by_patterns w (user_message st) intent_patterns);
      [| discriminate].
    injection Hrun as <-. exact Hinv.
  - exact Hinv.
  - unfold RAGNode_run.
    destruct (firstn 5 _); exact Hinv.
  - unfold ContextBuilderNode_run in Hrun.
    destruct (chat_history st).
    + injection Hrun as <-. exact Hinv.
    + destruct (_build_context_from_history _); [| discriminate].
      injection Hrun as <-. exact Hinv.
  - unfold ResponseGenerationNode_run.
    destruct (llm_response w) as [answer |]; [| exact Hinv].
    destruct (Qlt_bool _ _); [| exact Hinv].
    intros _. eexists. reflexivity.
  - unfold CodeFormattingNode_run.
    destruct (response st) as [[| c r] |]; exact Hinv.
  - exact Hinv.
  - unfold ClarificationNode_run.
    destruct (llm_clarification w); intros _; eexists; reflexivity.
Qed.

Lemma reachable_has_question (st : State) : reachable st -> has_question st.
Proof.
  induction 1 as [c m u h | st st' _ IH Hstep].
  - unfold has_question. cbn. discriminate.
  - exact (step_has_question _ _ Hstep IH).
Qed.

Ltac node_case Hnode tac :=
  rewrite lookup_insert in Hnode;
  destruct (decide (_ = _)) as [_ | _] in Hnode;
  [ injection Hnode as <-; tac | ].

(** Every state a registered node returns is a [step]. *)
Lemma node_step (name : string) (run : world -> State -> option output)
  (w : world) (st st' : State) :
  nodes _build_graph !! name = Some run ->
  run w st = Some (OState st') ->
  step st st'.
Proof.
  unfold _build_graph; cbn [nodes]. intros Hnode Hrun.
  node_case Hnode ltac:(injection Hrun as <-; exact (step_input st)).
  node_case Hnode
    ltac:(destruct (IntentAnalysisNode_run w st) as [routed |] eqn:Hr;
          [injection Hrun as <-; exact (step_intent_analysis w st routed Hr)
          | discriminate]).
  node_case Hnode ltac:(discriminate).
  node_case Hnode ltac:(injection Hrun as <-; exact (step_rag w st)).
  node_case Hnode
    ltac:(destruct (ContextBuilderNode_run st) as [built |] eqn:Hb;
          [injection Hrun as <-; exact (step_context_builder st built Hb)
          | discriminate]).
  node_case Hnode
    ltac:(injection Hrun as <-; exact (step_response_generation w st)).
  node_case Hnode
    ltac:(injection Hrun as <-; exact (step_code_formatting st)).
  node_case Hnode ltac:(injection Hrun as <-; exact (step_memory st)).
  node_case Hnode ltac:(injection Hrun as <-; exact (step_clarification w st)).
  rewrite lookup_empty in Hnode. discriminate.
Qed.

Lemma steps_reachable (st st' : State) :
  steps st st' -> reachable st -> reachable st'.
Proof.
  induction 1 as [st | st st' st'' Hstep _ IH]; intros Hst; [exact Hst |].
  apply IH. exact (reachable_step st st' Hst Hstep).
Qed.

Lemma clarification_turn_runs_nodes (w : world) :
  runs_nodes (clarification_turn w).
Proof.
  intros st result Hrun. unfold clarification_turn in Hrun.
  destruct (IntentAnalysisNode_run w (InputNode_run st)) as [routed |] eqn:Hr;
    [| discriminate].
  injection Hrun as <-.
  refine (steps_step _ _ _ (step_input st) _).
  refine (steps_step _ _ _ (step_intent_analysis w _ routed Hr) _).
  refine (steps_step _ _ _ (step_router routed) _).
  refine (steps_step _ _ _ (step_clarification w routed) _).
  apply steps_refl.
Qed.

(** C6: in every state an execution goes through, and so in every state
    that an executor which runs the nodes returns, whatever its edges,
    [needs_clarification] comes with a clarification question that is not
    [None]. *)
Theorem C6_clarification_has_question :
  (forall st, reachable st ->
     needs_clarification st = true ->
     exists question, clarification_question st = Some question)
  /\ (forall app c m u h result,
        runs_nodes app ->
        app (new_state c m u h) = inr result ->
        needs_clarification result = true ->
        exists question, clarification_question result = Some question).
Proof.
  split.
  - intros st Hst. exact (reachable_has_question st Hst).
  - intros app c m u h result Happ Hrun.
    apply (reachable_has_question result).
    exact (steps_reachable _ _ (Happ _ _ Hrun) (reachable_new c m u h)).
Qed.

Lemma C6_clarification_has_question_witness :
  exists question, clarification_question confused_result = Some question.
Proof.
  apply (proj2 C6_clarification_has_question
           (clarification_turn confused_world)
           (py "chat_1") (py "no entiendo, ¿puedes explicar?") (py "user_1")
           None confused_result).
  - apply clarification_turn_runs_nodes.
  - vm_compute. reflexivity.
  - vm_compute. reflexivity.
Defined.

(** ** The error response of [process_message] *)

Ltac response_key :=
  repeat (rewrite lookup_insert_ne by discriminate);
  first [ apply lookup_insert_eq | apply lookup_empty ].

(** C10: when the execution of the graph raises, [process_message] returns
    a response: its intent is ['error'], which is none of the four intents,
    its confidence 0.0, [needs_clarification] false, the response the fixed
    apology, the error text that of the exception, and the keys
    ['retrieved_context_count'] and ['context_sources'] of the success path
    are absent. *)
Theorem C10_error_response (self : DocumentationAgent)
  (chat_id user_message user_id : str) (chat_history : option (list meta))
  (e : exn) :
  app_invoke self
    (new_state chat_id user_message user_id
       (Some (match chat_history with Some h => h | None => [] end)))
  = inl e ->
  let result :=
    process_message self chat_id user_message user_id chat_history in
  result !! "intent"%string = Some (VStr (py "error"))
  /\ existsb (str_eqb (py "error")) valid_intents = false
  /\ result !! "confidence"%string = Some (VFloat 0)
  /\ result !! "needs_clarification"%string = Some (VBool false)
  /\ result !! "response"%string = Some (VStr processing_apology)
  /\ result !! "chat_id"%string = Some (VStr chat_id)
  /\ result !! "error"%string = Some (VStr (exn_str e))
  /\ result !! "retrieved_context_count"%string = None
  /\ result !! "context_sources"%string = None.
Proof.
  intros Hraise. cbv zeta. unfold process_message. rewrite Hraise.
  split; [response_key |].
  split; [vm_compute; reflexivity |].
  repeat split; response_key.
Qed.

Lemma C10_error_response_witness :
  process_message (new_agent (fun _ => refusing_app)) (py "chat_1")
    (py "hola") (py "user_1") None !! "intent"%string
  = Some (VStr (py "error")).
Proof.
  refine (proj1 (C10_error_response (new_agent (fun _ => refusing_app))
                   (py "chat_1") (py "hola") (py "user_1") None
                   (Exception (py "invalid update")) _)).
  reflexivity.
Defined.

(** ** Fenced code blocks *)

Lemma take_while_word_app (language rest : str) :
  forallb isword language = true ->
  take_while_word (language ++ nl :: rest) = language.
Proof.
  unfold take_while_word. induction language as [| c language IH]; intros Hw.
  - reflexivity.
  - simpl in Hw. apply andb_prop in Hw as [Hc Hl].
    cbn [app take_while]. rewrite Hc, IH by exact Hl. reflexivity.
Qed.

Lemma skipn_length_app {A} (l rest : list A) :
  skipn (length l) (l ++ rest) = rest.
Proof. induction l as [| x l IH]; [reflexivity | exact IH]. Qed.

Lemma startswith_nil (text : str) : startswith text [] = true.
Proof. destruct text; reflexivity. Qed.

Lemma startswith_app (prefix rest : str) :
  startswith (prefix ++ rest) prefix = true.
Proof.
  induction prefix as [| c prefix IH]; [apply startswith_nil |].
  cbn [app startswith]. rewrite IH, bool_decide_eq_true_2; reflexivity.
Qed.

(** A text without a fence does not start with one, whatever follows its
    newline. *)
Lemma no_fence_start (code rest : str) :
  startswith code fence = false ->
  startswith (code ++ nl :: rest) fence = false.
Proof.
  unfold fence.
  destruct code as [| a [| b [| c code]]]; intros H;
    cbn [app startswith] in *.
  - reflexivity.
  - change (bool_decide (backtick = nl)) with false.
    cbn [andb]. apply andb_false_r.
  - change (bool_decide (backtick = nl)) with false.
    cbn [andb]. rewrite andb_false_r. apply andb_false_r.
  - rewrite startswith_nil in *. exact H.
Qed.

Lemma until_fence_app (code : str) :
  contains code fence = false ->
  until_fence (code ++ nl :: fence) = Some (code ++ [nl], []).
Proof.
  induction code as [| c code IH]; intros Hno.
  - reflexivity.
  - cbn [contains] in Hno. apply orb_false_elim in Hno as [Hstart Hrest].
    cbn [app until_fence].
    change (startswith (c :: code ++ nl :: fence) fence)
      with (startswith ((c :: code) ++ nl :: fence) fence).
    rewrite no_fence_start by exact Hstart.
    rewrite IH by exact Hrest. reflexivity.
Qed.

Lemma findall_from_skip (n : nat) (s : str) :
  length s <= n -> findall_from n s = [].
Proof.
  revert n. induction s as [| c s IH]; intros n Hn; [reflexivity |].
  destruct n as [| n]; [simpl in Hn; lia |].
  cbn [findall_from]. apply IH. simpl in Hn. lia.
Qed.

Lemma lstrip_length (s : str) : length (lstrip s) <= length s.
Proof.
  induction s as [| c s IH]; [reflexivity |].
  cbn [lstrip]. destruct (isspace c); cbn [length]; lia.
Qed.

Lemma lstrip_fixed (s : str) : length (lstrip s) = length s -> lstrip s = s.
Proof.
  destruct s as [| c s]; [reflexivity |].
  cbn [lstrip]. destruct (isspace c); [| reflexivity].
  intros H. pose proof (lstrip_length s). cbn [length] in H. lia.
Qed.

Lemma rstrip_length (s : str) : length (rstrip s) <= length s.
Proof.
  unfold rstrip. rewrite length_rev.
  pose proof (lstrip_length (rev s)) as H. rewrite length_rev in H. exact H.
Qed.

(** A text that [strip] leaves alone loses only the newline put after it. *)
Lemma strip_newline (code : str) :
  strip code = code -> strip (code ++ [nl]) = code.
Proof.
  intros Hfix.
  assert (Hl : lstrip code = code).
  { apply lstrip_fixed. apply Nat.le_antisymm; [apply lstrip_length |].
    rewrite <- Hfix at 1. unfold strip. apply rstrip_length. }
  assert (Hr : rstrip code = code).
  { unfold strip in Hfix. rewrite Hl in Hfix. exact Hfix. }
  unfold strip. destruct code as [| c code]; [reflexivity |].
  assert (Hc : isspace c = false).
  { cbn [lstrip] in Hl. destruct (isspace c); [| reflexivity].
    pose proof (lstrip_length code) as H. rewrite Hl in H.
    cbn [length] in H. lia. }
  cbn [app lstrip]. rewrite Hc.
  change (c :: code ++ [nl]) with ((c :: code) ++ [nl]).
  unfold rstrip. rewrite rev_app_distr.
  cbn [rev app lstrip]. change (isspace nl) with true. cbv iota.
  exact Hr.
Qed.

Lemma format_code_blocks_from_skip (n : nat) (s : str) :
  length s <= n -> format_code_blocks_from n s = [].
Proof.
  revert n. induction s as [| c s IH]; intros n Hn; [reflexivity |].
  destruct n as [| n]; [simpl in Hn; lia |].
  cbn [format_code_blocks_from]. apply IH. simpl in Hn. lia.
Qed.

Lemma match_fence_formatted (language code : str) :
  truthy language = true ->
  forallb isword language = true ->
  contains code fence = false ->
  match_fence (format_code_block code language)
  = Some (Some language, code ++ [nl], []).
Proof.
  intros Hne Hword Hfence. unfold match_fence, format_code_block.
  rewrite startswith_app.
  change (skipn 3 (fence ++ language ++ [nl] ++ code ++ [nl] ++ fence))
    with (language ++ nl :: code ++ nl :: fence).
  cbv iota zeta.
  rewrite take_while_word_app by exact Hword.
  rewrite skipn_length_app.
  change (is_nl nl) with true. cbv iota.
  rewrite until_fence_app by exact Hfence.
  rewrite Hne. reflexivity.
Qed.

Lemma ends_with_cons (c a b : ascii) (r : str) :
  ends_with c (a :: b :: r) = ends_with c (b :: r).
Proof.
  unfold ends_with. cbn [rev].
  destruct (rev r ++ [b]) as [| x l] eqn:E; [| reflexivity].
  destruct (rev r); discriminate.
Qed.

(** A code that does not end with a backtick does not make a fence with the
    fence that follows it. *)
Lemma fence_start_at_end (c : ascii) (code : str) :
  startswith (c :: code) fence = false ->
  ends_with backtick (c :: code) = false ->
  startswith ((c :: code) ++ fence) fence = false.
Proof.
  unfold fence. intros Hstart Hend.
  destruct code as [| b [| d code]]; cbn [app startswith] in *.
  - unfold ends_with in Hend. cbn [rev app] in Hend.
    apply bool_decide_eq_false_1 in Hend.
    rewrite (bool_decide_eq_false_2 (backtick = c)); [reflexivity |].
    intros H. apply Hend. now symmetry.
  - unfold ends_with in Hend. cbn [rev app] in Hend.
    apply bool_decide_eq_false_1 in Hend.
    rewrite (bool_decide_eq_false_2 (backtick = b));
      [apply andb_false_r |].
    intros H. apply Hend. now symmetry.
  - rewrite startswith_nil in *. exact Hstart.
Qed.

Lemma until_fence_fenced (code : str) :
  contains code fence = false ->
  ends_with backtick code = false ->
  until_fence (code ++ fence) = Some (code, []).
Proof.
  induction code as [| c code IH]; intros Hno Hend; [reflexivity |].
  cbn [contains] in Hno. apply orb_false_elim in Hno as [Hstart Hrest].
  cbn [app until_fence].
  change (startswith (c :: code ++ fence) fence)
    with (startswith ((c :: code) ++ fence) fence).
  rewrite (fence_start_at_end c code Hstart Hend).
  rewrite IH; [reflexivity | exact Hrest |].
  destruct code as [| b code]; [reflexivity |].
  rewrite <- (ends_with_cons backtick c b code). exact Hend.
Qed.

Lemma match_fence_fenced (language code : str) :
  truthy language = true ->
  forallb isword language = true ->
  contains code fence = false ->
  ends_with backtick code = false ->
  match_fence (fenced language code) = Some (Some language, code, []).
Proof.
  intros Hne Hword Hfence Hend. unfold match_fence, fenced.
  rewrite startswith_app.
  change (skipn 3 (fence ++ language ++ [nl] ++ code ++ fence))
    with (language ++ nl :: code ++ fence).
  cbv iota zeta.
  rewrite take_while_word_app by exact Hword.
  rewrite skipn_length_app.
  change (is_nl nl) with true. cbv iota.
  rewrite until_fence_fenced by assumption.
  rewrite Hne. reflexivity.
Qed.

(** The pass puts the newline before the closing fence. *)
Lemma format_code_blocks_fenced (language code : str) :
  truthy language = true ->
  forallb isword language = true ->
  contains code fence = false ->
  ends_with backtick code = false ->
  _format_code_blocks (fenced language code) = format_code_block code language.
Proof.
  intros Hne Hword Hfence Hend. unfold _format_code_blocks.
  pose proof (match_fence_fenced language code Hne Hword Hfence Hend)
    as Hmatch.
  unfold fenced in *.
  change (fence ++ language ++ [nl] ++ code ++ fence)
    with (backtick :: ([backtick; backtick] ++ language ++ [nl] ++ code
                       ++ fence)) in *.
  cbn [format_code_blocks_from]. rewrite Hmatch.
  rewrite format_code_blocks_from_skip by (cbn [length]; lia).
  unfold replace_code, format_code_block. rewrite Hne, app_nil_r.
  reflexivity.
Qed.

(** On a block that has the newline already, the pass adds another. *)
Lemma format_code_blocks_formatted (language code : str) :
  truthy language = true ->
  forallb isword language = true ->
  contains code fence = false ->
  _format_code_blocks (format_code_block code language)
  = format_code_block (code ++ [nl]) language.
Proof.
  intros Hne Hword Hfence. unfold _format_code_blocks.
  pose proof (match_fence_formatted language code Hne Hword Hfence) as Hmatch.
  unfold format_code_block in *.
  change (fence ++ language ++ [nl] ++ code ++ [nl] ++ fence)
    with (backtick :: ([backtick; backtick] ++ language ++ [nl] ++ code
                       ++ [nl] ++ fence)) in *.
  cbn [format_code_blocks_from]. rewrite Hmatch.
  rewrite format_code_blocks_from_skip by (cbn [length]; lia).
  unfold replace_code. rewrite Hne, app_nil_r.
  rewrite <- !app_assoc. reflexivity.
Qed.

Lemma extract_formatted (language code : str) :
  truthy language = true ->
  forallb isword language = true ->
  contains code fence = false ->
  extract_code_blocks (format_code_block code language)
  = [(language, strip (code ++ [nl]))].
Proof.
  intros Hne Hword Hfence.
  pose proof (match_fence_formatted language code Hne Hword Hfence) as Hmatch.
  unfold extract_code_blocks, findall, format_code_block in *.
  change (fence ++ language ++ [nl] ++ code ++ [nl] ++ fence)
    with (backtick :: ([backtick; backtick] ++ language ++ [nl] ++ code
                       ++ [nl] ++ fence)) in *.
  cbn [findall_from]. rewrite Hmatch.
  rewrite findall_from_skip by (cbn [length]; lia).
  cbn [map fst snd]. rewrite Hne. reflexivity.
Qed.

Lemma contains_snoc_nl (code : str) :
  contains code fence = false -> contains (code ++ [nl]) fence = false.
Proof.
  induction code as [| c code IH]; intros Hno; [reflexivity |].
  cbn [contains] in Hno. apply orb_false_elim in Hno as [Hstart Hrest].
  cbn [app contains].
  change (startswith (c :: code ++ [nl]) fence)
    with (startswith ((c :: code) ++ [nl]) fence).
  rewrite (no_fence_start (c :: code) [] Hstart), (IH Hrest). reflexivity.
Qed.

Lemma lstrip_app (s t : str) :
  lstrip (s ++ t)
  = match lstrip s with
    | [] => lstrip t
    | _ :: _ => lstrip s ++ t
    end.
Proof.
  induction s as [| c s IH]; [reflexivity |].
  cbn [app lstrip]. destruct (isspace c); [exact IH | reflexivity].
Qed.

Lemma strip_snoc_space (s : str) (c : ascii) :
  isspace c = true -> strip (s ++ [c]) = strip s.
Proof.
  intros Hc. unfold strip. rewrite lstrip_app.
  destruct (lstrip s) as [| a l].
  - cbn [lstrip]. rewrite Hc. reflexivity.
  - unfold rstrip. rewrite rev_app_distr.
    cbn [rev app lstrip]. rewrite Hc. reflexivity.
Qed.

(** C9, as stated, fails.  The extractor strips the code it finds, so a
    code that begins with a space does not come back verbatim; a language
    tag with a character outside [\w] is not matched by the fence pattern,
    so nothing comes back at all; and the lazy group stops at the first
    fence, which a code that ends with a backtick makes with the closing
    fence one character early, so the backtick is lost. *)
Lemma C9_counterexample :
  extract_code_blocks
    (_format_code_blocks (fenced (py "python") (py "  x = 1")))
  = [(py "python", py "x = 1")]
  /\ extract_code_blocks
       (_format_code_blocks (fenced (py "c++") (py "x = 1"))) = []
  /\ extract_code_blocks
       (_format_code_blocks (fenced (py "py") [ "x"%char; backtick ]))
     = [(py "py", py "x")].
Proof. repeat split; vm_compute; reflexivity. Qed.

(** C9, amended: for a language tag made of one or more word characters
    and a code text that contains no fence and has no white space at
    either end, the normalization pass [_format_code_blocks] followed by
    [extract_code_blocks] gives back exactly that language tag and that
    code text: on the fenced block whose code is followed by the closing
    fence at once, which the pass turns into the block of
    [format_code_block], when the code does not end with a backtick; and
    on the block of [format_code_block], whose code is followed by a
    newline, to which the pass adds one more newline. *)
Theorem C9_fence_round_trip (language code : str) :
  truthy language = true ->
  forallb isword language = true ->
  contains code fence = false ->
  strip code = code ->
  (ends_with backtick code = false ->
   _format_code_blocks (fenced language code)
   = format_code_block code language
   /\ extract_code_blocks (_format_code_blocks (fenced language code))
      = [(language, code)])
  /\ (_format_code_blocks (format_code_block code language)
      = format_code_block (code ++ [nl]) language
      /\ extract_code_blocks
           (_format_code_blocks (format_code_block code language))
         = [(language, code)]).
Proof.
  intros Hne Hword Hfence Hstrip. split.
  - intros Hend.
    rewrite (format_code_blocks_fenced language code Hne Hword Hfence Hend).
    split; [reflexivity |].
    rewrite (extract_formatted language code Hne Hword Hfence).
    now rewrite strip_newline.
  - rewrite (format_code_blocks_formatted language code Hne Hword Hfence).
    split; [reflexivity |].
    rewrite (extract_formatted language (code ++ [nl]) Hne Hword
               (contains_snoc_nl code Hfence)).
    rewrite !strip_snoc_space by reflexivity. now rewrite Hstrip.
Qed.

Lemma C9_fence_round_trip_witness :
  extract_code_blocks
    (_format_code_blocks (fenced (py "python") (py "x = 1")))
  = [(py "python", py "x = 1")].
Proof.
  refine (proj2 (proj1 (C9_fence_round_trip (py "python") (py "x = 1")
                          _ _ _ _) _));
    vm_compute; reflexivity.
Defined.

(** * Further properties of the code *)

(** ** Cleaned text *)
(** ** Cleaned text *)

Lemma lstrip_suffix (s : str) : exists p, s = p ++ lstrip s.
Proof.
  induction s as [| c s [p IH]]; [exists []; reflexivity |].
  cbn [lstrip]. destruct (isspace c).
  - exists (c :: p). cbn [app]. now rewrite <- IH.
  - exists []. reflexivity.
Qed.

Lemma rstrip_prefix (s : str) : exists t, s = rstrip s ++ t.
Proof.
  unfold rstrip. destruct (lstrip_suffix (rev s)) as [p Hp].
  exists (rev p). rewrite <- rev_app_distr, <- Hp. now rewrite rev_involutive.
Qed.

Lemma strip_infix (s : str) : exists p t, s = p ++ strip s ++ t.
Proof.
  unfold strip. destruct (lstrip_suffix s) as [p Hp].
  destruct (rstrip_prefix (lstrip s)) as [t Ht].
  exists p, t. now rewrite <- Ht.
Qed.

Lemma lstrip_idempotent (s : str) : lstrip (lstrip s) = lstrip s.
Proof.
  induction s as [| c s IH]; [reflexivity |].
  cbn [lstrip]. destruct (isspace c) eqn:Hc; [exact IH |].
  cbn [lstrip]. now rewrite Hc.
Qed.

Lemma lstrip_snoc (l : str) (c : ascii) :
  isspace c = false -> lstrip (l ++ [c]) = lstrip l ++ [c].
Proof.
  intros Hc. induction l as [| a l IH]; cbn [app lstrip].
  - now rewrite Hc.
  - destruct (isspace a); [exact IH | reflexivity].
Qed.

Lemma lstrip_head (s : str) :
  match lstrip s with
  | c :: _ => isspace c = false
  | [] => True
  end.
Proof.
  induction s as [| c s IH]; [exact I |].
  cbn [lstrip]. destruct (isspace c) eqn:Hc; [exact IH | exact Hc].
Qed.

Lemma lstrip_after_rstrip (s : str) :
  lstrip (rstrip (lstrip s)) = rstrip (lstrip s).
Proof.
  pose proof (lstrip_head s) as Hh.
  destruct (lstrip s) as [| c y]; [reflexivity |].
  unfold rstrip. cbn [rev]. rewrite lstrip_snoc by exact Hh.
  rewrite rev_app_distr. cbn [rev app lstrip]. now rewrite Hh.
Qed.

Lemma strip_idempotent (s : str) : strip (strip s) = strip s.
Proof.
  unfold strip. rewrite lstrip_after_rstrip.
  unfold rstrip at 1 2. rewrite rev_involutive.
  now rewrite lstrip_idempotent.
Qed.

Lemma strip_head (s : str) :
  match strip s with
  | c :: _ => isspace c = false
  | [] => True
  end.
Proof.
  pose proof (lstrip_head (strip s)) as H.
  unfold strip in *. now rewrite lstrip_after_rstrip in H.
Qed.

Lemma strip_last (s : str) :
  match rev (strip s) with
  | c :: _ => isspace c = false
  | [] => True
  end.
Proof.
  unfold strip, rstrip. rewrite rev_involutive. apply lstrip_head.
Qed.

Lemma strip_length (s : str) : length (strip s) <= length s.
Proof.
  unfold strip. pose proof (rstrip_length (lstrip s)).
  pose proof (lstrip_length s). lia.
Qed.

Lemma single_spaced_app (a b : str) :
  single_spaced (a ++ b) = true ->
  single_spaced a = true /\ single_spaced b = true.
Proof.
  induction a as [| c a IH]; intros H; [now split |].
  cbn [app single_spaced] in H.
  apply andb_prop in H as [H Hrest]. apply andb_prop in H as [Hc Hpair].
  destruct (IH Hrest) as [Ha Hb]. split; [| exact Hb].
  cbn [single_spaced]. rewrite Hc, Ha.
  destruct a as [| c' a]; [reflexivity |].
  cbn [app] in Hpair. now rewrite Hpair.
Qed.

Lemma single_spaced_infix (p m t : str) :
  single_spaced (p ++ m ++ t) = true -> single_spaced m = true.
Proof.
  intros H. apply single_spaced_app in H as [_ H].
  now apply single_spaced_app in H as [H _].
Qed.

Lemma collapse_spaces_single (text : str) :
  single_spaced (collapse_spaces text) = true.
Proof.
  induction text as [| c r IH]; [reflexivity |].
  cbn [collapse_spaces]. destruct (isspace c) eqn:Hc.
  - destruct r as [| c' r']; [reflexivity |].
    destruct (isspace c') eqn:Hc'; [exact IH |].
    cbn [collapse_spaces] in *. rewrite Hc' in *.
    change (single_spaced (space :: c' :: collapse_spaces r'))
      with ((negb (isspace space) || bool_decide (space = space))
            && negb (isspace space && isspace c')
            && single_spaced (c' :: collapse_spaces r')).
    rewrite Hc', IH. reflexivity.
  - cbn [single_spaced]. rewrite Hc. cbn [negb orb andb].
    rewrite IH. destruct (collapse_spaces r); reflexivity.
Qed.

Lemma collapse_spaces_fixed (s : str) :
  single_spaced s = true -> collapse_spaces s = s.
Proof.
  induction s as [| c r IH]; intros H; [reflexivity |].
  cbn [single_spaced] in H.
  apply andb_prop in H as [H Hrest]. apply andb_prop in H as [Hc Hpair].
  cbn [collapse_spaces]. rewrite (IH Hrest).
  destruct (isspace c) eqn:Hs; [| reflexivity].
  cbn [negb orb] in Hc. apply bool_decide_eq_true in Hc. subst c.
  destruct r as [| c' r']; [reflexivity |].
  cbn [andb] in Hpair. apply negb_true_iff in Hpair. now rewrite Hpair.
Qed.

(** Single-spaced text has no newline. *)
Lemma single_spaced_no_nl (s : str) :
  single_spaced s = true -> forallb (fun c => negb (is_nl c)) s = true.
Proof.
  induction s as [| c r IH]; intros H; [reflexivity |].
  cbn [single_spaced] in H.
  apply andb_prop in H as [H Hrest]. apply andb_prop in H as [Hc _].
  cbn [forallb]. rewrite (IH Hrest), andb_true_r.
  apply orb_prop in Hc as [Hc | Hc].
  - destruct (is_nl c) eqn:Hn; [| reflexivity].
    unfold is_nl in Hn. apply Nat.eqb_eq in Hn.
    unfold isspace in Hc. rewrite Hn in Hc. discriminate.
  - apply bool_decide_eq_true in Hc. now subst c.
Qed.

Lemma collapse_blank_lines_fixed (s : str) :
  forallb (fun c => negb (is_nl c)) s = true -> collapse_blank_lines s = s.
Proof.
  unfold collapse_blank_lines. induction s as [| c r IH]; intros H;
    [reflexivity |].
  cbn [forallb] in H. apply andb_prop in H as [Hc Hr].
  cbn [collapse_blank_lines_from]. apply negb_true_iff in Hc.
  rewrite Hc, (IH Hr). reflexivity.
Qed.

Lemma split_paragraphs_one (s : str) :
  forallb (fun c => negb (is_nl c)) s = true -> split_paragraphs s = [s].
Proof.
  unfold split_paragraphs. induction s as [| c r IH]; intros H;
    [reflexivity |].
  cbn [forallb] in H. apply andb_prop in H as [Hc Hr].
  cbn [split_paragraphs_from]. apply negb_true_iff in Hc.
  rewrite Hc, (IH Hr). reflexivity.
Qed.

Lemma filter_app_parts {A} (f : A -> bool) (p m t : list A) :
  List.filter f (p ++ m ++ t) = p ++ m ++ t -> List.filter f m = m.
Proof.
  intros H.
  assert (Hall : forall x, In x (p ++ m ++ t) -> f x = true).
  { intros x Hx. rewrite <- H in Hx. now apply filter_In in Hx as [_ Hx]. }
  apply forallb_filter_id. apply forallb_forall. intros x Hx.
  apply Hall. apply in_or_app. right. apply in_or_app. now left.
Qed.

Lemma remove_control_collapse (text : str) :
  remove_control (collapse_spaces (remove_control text))
  = collapse_spaces (remove_control text).
Proof.
  unfold remove_control.
  set (keep := fun c => negb (is_control c)).
  assert (Hk : forall s, forallb keep s = true ->
                 forallb keep (collapse_spaces s) = true).
  { induction s as [| c r IH]; intros H; [reflexivity |].
    cbn [forallb] in H. apply andb_prop in H as [Hc Hr].
    cbn [collapse_spaces]. destruct (isspace c).
    - destruct r as [| c' r']; [reflexivity |].
      destruct (isspace c'); [exact (IH Hr) |].
      cbn [forallb]. now rewrite (IH Hr).
    - cbn [forallb]. now rewrite Hc, (IH Hr). }
  apply forallb_filter_id. apply Hk.
  apply forallb_forall. intros x Hx. now apply filter_In in Hx as [_ Hx].
Qed.

(** The three facts about a cleaned text the rest builds on. *)
Lemma clean_text_facts (text : str) :
  single_spaced (_clean_text text) = true
  /\ remove_control (_clean_text text) = _clean_text text
  /\ strip (_clean_text text) = _clean_text text.
Proof.
  unfold _clean_text. cbv zeta.
  pose proof (collapse_spaces_single (remove_control text)) as Hs.
  rewrite (collapse_blank_lines_fixed _ (single_spaced_no_nl _ Hs)).
  destruct (strip_infix (collapse_spaces (remove_control text)))
    as [p [t Hpt]].
  split; [| split].
  - rewrite Hpt in Hs. exact (single_spaced_infix _ _ _ Hs).
  - pose proof (remove_control_collapse text) as Hr.
    rewrite Hpt in Hr at 1. rewrite Hpt in Hr at 2.
    exact (filter_app_parts _ _ _ _ Hr).
  - apply strip_idempotent.
Qed.

(** X1: a cleaned text is in normal form: its only white space is single
    plain spaces between other characters, it has no control character,
    and it neither begins nor ends with white space. *)
Theorem clean_text_normal_form (text : str) :
  single_spaced (_clean_text text) = true
  /\ forallb (fun c => negb (is_control c)) (_clean_text text) = true
  /\ forallb (fun c => negb (is_nl c)) (_clean_text text) = true
  /\ strip (_clean_text text) = _clean_text text.
Proof.
  destruct (clean_text_facts text) as [Hs [Hc Hst]].
  split; [exact Hs |]. split; [| split; [| exact Hst]].
  - apply forallb_forall. intros x Hx. unfold remove_control in Hc.
    rewrite <- Hc in Hx. now apply filter_In in Hx as [_ Hx].
  - exact (single_spaced_no_nl _ Hs).
Qed.

(** X2: cleaning is idempotent: a cleaned text is left as it is. *)
Theorem clean_text_idempotent (text : str) :
  _clean_text (_clean_text text) = _clean_text text.
Proof.
  destruct (clean_text_facts text) as [Hs [Hc Hst]].
  unfold _clean_text at 1. cbv zeta.
  rewrite Hc, (collapse_spaces_fixed _ Hs).
  rewrite (collapse_blank_lines_fixed _ (single_spaced_no_nl _ Hs)).
  exact Hst.
Qed.

Lemma chunk_text_long_path (self : TextProcessor.t) (text : str) (m : meta)
  (u : str) :
  chunk_size self < length (_clean_text text) ->
  _chunk_text self text m u
  = map (fun c => Chunk c m u)
      (_split_long_paragraph self (_clean_text text)).
Proof.
  intros Hlong. destruct (clean_text_facts text) as [Hs [_ Hst]].
  unfold _chunk_text. cbv zeta.
  assert (Hleb : (length (_clean_text text) <=? chunk_size self) = false)
    by (apply Nat.leb_gt; exact Hlong).
  rewrite Hleb, (split_paragraphs_one _ (single_spaced_no_nl _ Hs)).
  cbn [chunk_text_loop]. rewrite Hst.
  assert (Hne : truthy (_clean_text text) = true)
    by (destruct (_clean_text text); [simpl in Hlong; lia | reflexivity]).
  rewrite Hne. cbn [negb].
  assert (Hltb : (chunk_size self <? length (_clean_text text)) = true)
    by (apply Nat.ltb_lt; exact Hlong).
  rewrite Hltb. reflexivity.
Qed.

(** X3: [_chunk_text] never splits at paragraphs: the cleaned text has no
    newline left, so a text that fits is one fragment and a longer text is
    cut by [_split_long_paragraph] alone, every fragment carrying the
    metadata and source it was given. *)
Theorem chunk_text_is_sentence_split (self : TextProcessor.t) (text : str)
  (m : meta) (u : str) :
  _chunk_text self text m u
  = map (fun c => Chunk c m u)
      (if length (_clean_text text) <=? chunk_size self
       then [_clean_text text]
       else _split_long_paragraph self (_clean_text text)).
Proof.
  destruct (length (_clean_text text) <=? chunk_size self) eqn:Hlen.
  - unfold _chunk_text. cbv zeta. rewrite Hlen. reflexivity.
  - apply chunk_text_long_path. now apply Nat.leb_gt.
Qed.

(** *** Bounds of the splitters *)

Lemma all_within_snoc (n : nat) (chunks : list str) (c : str) :
  all_within n chunks -> length c <= n -> all_within n (chunks ++ [c]).
Proof.
  intros Hall Hc x Hx. apply in_app_or in Hx as [Hx | [<- | []]];
    [now apply Hall | exact Hc].
Qed.

Lemma split_by_words_loop_bound (self : TextProcessor.t) (words : list str) :
  (forall word, In word words -> length word <= chunk_size self) ->
  forall chunks current,
    all_within (chunk_size self) chunks ->
    length current <= chunk_size self ->
    all_within (chunk_size self)
      (fst (split_by_words_loop self words chunks current))
    /\ length (snd (split_by_words_loop self words chunks current))
       <= chunk_size self.
Proof.
  induction words as [| word rest IH]; intros Hwords chunks current Hall Hcur.
  - split; assumption.
  - assert (Hword : length word <= chunk_size self)
      by (apply Hwords; now left).
    assert (Hrest : forall w, In w rest -> length w <= chunk_size self)
      by (intros w Hw; apply Hwords; now right).
    cbn [split_by_words_loop].
    destruct (chunk_size self <? length current + length word + 1) eqn:Hover.
    + destruct (truthy current).
      * apply (IH Hrest); [| exact Hword].
        apply all_within_snoc; [exact Hall |].
        pose proof (strip_length current). lia.
      * apply (IH Hrest); [| exact Hcur].
        apply all_within_snoc; [exact Hall |].
        rewrite length_firstn. lia.
    + apply Nat.ltb_ge in Hover. destruct (truthy current).
      * apply (IH Hrest); [exact Hall |].
        rewrite !length_app. change (length (py " ")) with 1. lia.
      * apply (IH Hrest); [exact Hall | exact Hword].
Qed.

(** X4: when no word of the text is longer than [chunk_size], no chunk of
    [_split_by_words] is; a word alone in the buffer that is too long is
    cut to [chunk_size] characters, so the bound can only be passed by a
    long word that follows a non-empty buffer. *)
Theorem split_by_words_bound (self : TextProcessor.t) (text : str) :
  (forall word, In word (split_ws text) -> length word <= chunk_size self) ->
  forall chunk, In chunk (_split_by_words self text) ->
    length chunk <= chunk_size self.
Proof.
  intros Hwords. unfold _split_by_words.
  pose proof (split_by_words_loop_bound self (split_ws text) Hwords [] [])
    as Hloop.
  destruct (split_by_words_loop self (split_ws text) [] [])
    as [chunks current].
  cbn [fst snd] in Hloop.
  destruct Hloop as [Hall Hcur];
    [intros c [] | simpl; lia |].
  destruct (truthy current); [| exact Hall].
  apply all_within_snoc; [exact Hall |].
  pose proof (strip_length current). lia.
Qed.

Lemma split_by_words_bound_witness :
  length (py "uno dos tres") <= chunk_size small.
Proof.
  apply (split_by_words_bound small five_words).
  - intros word Hword. vm_compute in Hword.
    repeat (destruct Hword as [<- | Hword]; [vm_compute; lia |]).
    destruct Hword.
  - vm_compute. left. reflexivity.
Defined.


Lemma split_long_paragraph_loop_bound (self : TextProcessor.t)
  (sentences : list str) :
  (forall s, In s sentences -> length (strip s) <= chunk_size self) ->
  forall chunks current,
    all_within (chunk_size self + 1) chunks ->
    length current <= chunk_size self + 1 ->
    all_within (chunk_size self + 1)
      (fst (split_long_paragraph_loop self sentences chunks current))
    /\ length (snd (split_long_paragraph_loop self sentences chunks current))
       <= chunk_size self + 1.
Proof.
  induction sentences as [| sentence rest IH];
    intros Hsent chunks current Hall Hcur.
  - split; assumption.
  - assert (Hs : length (strip sentence) <= chunk_size self)
      by (apply Hsent; now left).
    assert (Hrest : forall s, In s rest -> length (strip s) <= chunk_size self)
      by (intros s Hin; apply Hsent; now right).
    cbn [split_long_paragraph_loop]. cbv zeta.
    destruct (negb (truthy (strip sentence))); [now apply (IH Hrest) |].
    destruct (chunk_size self <? length current + length (strip sentence) + 1)
      eqn:Hover.
    + destruct (truthy current).
      * apply (IH Hrest); [| lia].
        apply all_within_snoc; [exact Hall |].
        pose proof (strip_length current). lia.
      * destruct (chunk_size self <? length (strip sentence)) eqn:Hlong.
        { apply Nat.ltb_lt in Hlong. lia. }
        apply (IH Hrest); [| exact Hcur].
        apply all_within_snoc; [exact Hall | lia].
    + apply Nat.ltb_ge in Hover. destruct (truthy current).
      * apply (IH Hrest); [exact Hall |].
        rewrite !length_app. change (length (py ". ")) with 2. lia.
      * apply (IH Hrest); [exact Hall | lia].
Qed.

Lemma split_long_paragraph_bound (self : TextProcessor.t) (paragraph : str) :
  (forall s, In s (split_runs is_sentence_end paragraph) ->
     length (strip s) <= chunk_size self) ->
  all_within (chunk_size self + 1) (_split_long_paragraph self paragraph).
Proof.
  intros Hsent. unfold _split_long_paragraph.
  pose proof (split_long_paragraph_loop_bound self
                (split_runs is_sentence_end paragraph) Hsent [] []) as Hloop.
  destruct (split_long_paragraph_loop self
              (split_runs is_sentence_end paragraph) [] [])
    as [chunks current].
  cbn [fst snd] in Hloop.
  destruct Hloop as [Hall Hcur];
    [intros c [] | simpl; lia |].
  destruct (truthy current); [| exact Hall].
  apply all_within_snoc; [exact Hall |].
  pose proof (strip_length current). lia.
Qed.

(** X5: when no sentence of the cleaned text is longer than [chunk_size],
    every fragment of [_chunk_text] has at most [chunk_size + 1]
    characters (the one more is the join [". "] counted as one). *)
Theorem chunk_text_bound (self : TextProcessor.t) (text : str) (m : meta)
  (u : str) :
  (forall s, In s (split_runs is_sentence_end (_clean_text text)) ->
     length (strip s) <= chunk_size self) ->
  forall c, In c (_chunk_text self text m u) ->
    length (content c) <= chunk_size self + 1.
Proof.
  intros Hsent c Hin.
  destruct (length (_clean_text text) <=? chunk_size self) eqn:Hlen.
  - unfold _chunk_text in Hin. cbv zeta in Hin. rewrite Hlen in Hin.
    destruct Hin as [<- | []]. apply Nat.leb_le in Hlen. simpl. lia.
  - apply Nat.leb_gt in Hlen. rewrite (chunk_text_long_path _ _ _ _ Hlen) in Hin.
    apply in_map_iff in Hin as [x [<- Hx]].
    exact (split_long_paragraph_bound self _ Hsent x Hx).
Qed.

Lemma chunk_text_bound_witness :
  length (content (Chunk (py "Tres cuatro") (∅ : meta) [])) <= chunk_size small + 1.
Proof.
  apply (chunk_text_bound small three_sentences ∅ []).
  - intros s Hs. vm_compute in Hs.
    repeat (destruct Hs as [<- | Hs]; [vm_compute; lia |]).
    destruct Hs.
  - vm_compute. right. left. reflexivity.
Defined.

(** ** Overlaps *)

Lemma startswith_prefix (text prefix : str) :
  startswith text prefix = true -> exists rest, text = prefix ++ rest.
Proof.
  revert text. induction prefix as [| p prefix IH]; intros text H.
  - exists text. reflexivity.
  - destruct text as [| c text]; [discriminate |].
    cbn [startswith] in H. apply andb_prop in H as [Hc Hrest].
    apply bool_decide_eq_true_1 in Hc. subst c.
    destruct (IH _ Hrest) as [rest ->]. exists rest. reflexivity.
Qed.

Lemma find_seq_first (f : nat -> bool) (len start i : nat) :
  find f (seq start len) = Some i ->
  start <= i < start + len /\ f i = true
  /\ forall j, start <= j < i -> f j = false.
Proof.
  revert start. induction len as [| len IH]; intros start H; [discriminate |].
  cbn [seq find] in H. destruct (f start) eqn:Hf.
  - injection H as <-. repeat split; [lia | lia | exact Hf | intros j Hj; lia].
  - destruct (IH _ H) as [Hrange [Hi Hmin]].
    repeat split; [lia | lia | exact Hi |].
    intros j Hj. destruct (Nat.eq_dec j start) as [-> | Hne]; [exact Hf |].
    apply Hmin. lia.
Qed.

Lemma find_seq_none (f : nat -> bool) (len start : nat) :
  find f (seq start len) = None ->
  forall j, start <= j < start + len -> f j = false.
Proof.
  revert start. induction len as [| len IH]; intros start H j Hj; [lia |].
  cbn [seq find] in H. destruct (f start) eqn:Hf; [discriminate |].
  destruct (Nat.eq_dec j start) as [-> | Hne]; [exact Hf |].
  apply (IH _ H). lia.
Qed.

Lemma find_overlap_suffix (text1 text2 : str) :
  exists before, text1 = before ++ _find_overlap text1 text2.
Proof.
  unfold _find_overlap.
  destruct (find (fun i => startswith text2 (skipn i text1))
              (seq 0 (length text1))) as [i |].
  - exists (firstn i text1). symmetry. apply firstn_skipn.
  - exists text1. symmetry. apply app_nil_r.
Qed.

Lemma find_overlap_prefix (text1 text2 : str) :
  exists after, text2 = _find_overlap text1 text2 ++ after.
Proof.
  unfold _find_overlap.
  destruct (find (fun i => startswith text2 (skipn i text1))
              (seq 0 (length text1))) as [i |] eqn:Hfind.
  - apply find_seq_first in Hfind as [_ [Hi _]].
    apply startswith_prefix. exact Hi.
  - exists text2. reflexivity.
Qed.

Lemma find_overlap_maximal (text1 text2 before overlap : str) :
  text1 = before ++ overlap -> truthy overlap = true ->
  startswith text2 overlap = true ->
  length overlap <= length (_find_overlap text1 text2).
Proof.
  intros -> Hne Hstart. unfold _find_overlap.
  destruct (find (fun i => startswith text2 (skipn i (before ++ overlap)))
              (seq 0 (length (before ++ overlap)))) as [i |] eqn:Hfind.
  - apply find_seq_first in Hfind as [Hrange [Hi Hmin]].
    rewrite length_skipn, length_app.
    destruct (Nat.le_gt_cases i (length before)) as [Hle | Hgt]; [lia |].
    specialize (Hmin (length before) ltac:(lia)). cbv beta in Hmin.
    rewrite skipn_length_app in Hmin. congruence.
  - pose proof (find_seq_none _ _ _ Hfind (length before)) as Hno.
    cbv beta in Hno. rewrite skipn_length_app, length_app in Hno.
    destruct overlap as [| c overlap]; [discriminate |].
    cbn [length] in Hno. specialize (Hno ltac:(lia)). congruence.
Qed.

(** X6: [_find_overlap] gives the longest non-empty end of [text1] that
    [text2] begins with, and the empty string when there is none. *)
Theorem find_overlap_longest (text1 text2 : str) :
  (exists before, text1 = before ++ _find_overlap text1 text2)
  /\ (exists after, text2 = _find_overlap text1 text2 ++ after)
  /\ (forall before overlap,
        text1 = before ++ overlap -> truthy overlap = true ->
        startswith text2 overlap = true ->
        length overlap <= length (_find_overlap text1 text2)).
Proof.
  split; [apply find_overlap_suffix |].
  split; [apply find_overlap_prefix |].
  intros before overlap. apply find_overlap_maximal.
Qed.

Lemma has_significant_overlap_spec (text1 text2 : str) :
  _has_significant_overlap text1 text2 = true <->
  exists before overlap,
    text1 = before ++ overlap /\ min_overlap <= length overlap
    /\ startswith text2 overlap = true.
Proof.
  unfold _has_significant_overlap. rewrite existsb_exists. split.
  - intros [i [Hin Hi]]. apply in_seq in Hin.
    apply andb_prop in Hi as [Hstart Hlen]. apply Nat.leb_le in Hlen.
    exists (firstn i text1), (skipn i text1).
    split; [symmetry; apply firstn_skipn | split; assumption].
  - intros [before [overlap [-> [Hlen Hstart]]]].
    exists (length before). rewrite skipn_length_app. split.
    + apply in_seq. rewrite length_app. unfold min_overlap in *. lia.
    + rewrite Hstart. apply Nat.leb_le in Hlen. rewrite Hlen. reflexivity.
Qed.

Lemma significant_overlap_found (text1 text2 : str) :
  _has_significant_overlap text1 text2 = true ->
  min_overlap <= length (_find_overlap text1 text2).
Proof.
  intros H. apply has_significant_overlap_spec in H
    as [before [overlap [Heq [Hlen Hstart]]]].
  assert (Hne : truthy overlap = true)
    by (destruct overlap; [unfold min_overlap in Hlen; simpl in Hlen; lia
                          | reflexivity]).
  pose proof (find_overlap_maximal text1 text2 before overlap Heq Hne Hstart).
  lia.
Qed.

(** X7: two texts overlap significantly exactly when some end of the first
    of at least 50 characters begins the second; the overlap
    [_find_overlap] then returns, the one the merge removes, has at least
    50 characters too. *)
Theorem significant_overlap_iff (text1 text2 : str) :
  (_has_significant_overlap text1 text2 = true <->
   exists before overlap,
     text1 = before ++ overlap /\ 50 <= length overlap
     /\ startswith text2 overlap = true)
  /\ (_has_significant_overlap text1 text2 = true ->
      50 <= length (_find_overlap text1 text2)).
Proof.
  split; [apply has_significant_overlap_spec | apply significant_overlap_found].
Qed.

(** ** What the merge keeps *)

Lemma total_length_app (a b : list (chunk loc)) :
  total_length (a ++ b) = total_length a + total_length b.
Proof. unfold total_length. rewrite map_app, list_sum_app. reflexivity. Qed.

Lemma total_length_cons (c : chunk loc) (l : list (chunk loc)) :
  total_length (c :: l) = length (content c) + total_length l.
Proof. reflexivity. Qed.

Lemma find_overlap_prefix_length (text1 text2 : str) :
  length (_find_overlap text1 text2) <= length text2.
Proof.
  destruct (find_overlap_prefix text1 text2) as [after Heq].
  rewrite Heq at 2. rewrite length_app. lia.
Qed.

Lemma firstn_app_length {A} (l k : list A) : firstn (length l) (l ++ k) = l.
Proof. induction l as [| x l IH]; [reflexivity | cbn; now rewrite IH]. Qed.

Lemma merge_loop_shape (rest : list (chunk loc)) :
  forall h acc cur,
    let out := snd (merge_loop h rest acc cur) in
    length acc < length out
    /\ length out <= length acc + 1 + length rest
    /\ total_length out
       <= total_length acc + length (content cur) + total_length rest
    /\ firstn (length acc) out = acc.
Proof.
  induction rest as [| next rest IH]; intros h acc cur; cbv zeta.
  - cbn [merge_loop snd].
    rewrite length_app, total_length_app, total_length_cons.
    change (total_length []) with 0. cbn [length].
    split; [lia |]. split; [lia |]. split; [lia |].
    apply firstn_app_length.
  - cbn [merge_loop].
    rewrite total_length_cons. cbn [length].
    destruct (_has_significant_overlap (content cur) (content next)) eqn:Hov.
    + cbv zeta.
      match goal with
      | |- context [merge_loop ?h' rest acc ?cur'] =>
          specialize (IH h' acc cur')
      end.
      cbv zeta in IH. destruct IH as [H1 [H2 [H3 H4]]].
      cbn [content] in H3. rewrite length_app, length_skipn in H3.
      pose proof (find_overlap_prefix_length (content cur) (content next)).
      split; [lia |]. split; [lia |]. split; [lia |]. exact H4.
    + specialize (IH h (acc ++ [cur]) next). cbv zeta in IH.
      destruct IH as [H1 [H2 [H3 H4]]].
      rewrite length_app in H1, H2, H4. rewrite total_length_app in H3.
      rewrite total_length_cons in H3.
      change (total_length []) with 0 in H3. cbn [length] in *.
      split; [lia |]. split; [lia |]. split; [lia |].
      apply (f_equal (firstn (length acc))) in H4.
      rewrite firstn_firstn in H4.
      replace (Init.Nat.min (length acc) (length acc + 1)) with (length acc)
        in H4 by lia.
      rewrite H4. apply firstn_app_length.
Qed.

(** X8: the merge never adds fragments or characters: its result has at
    most as many fragments as its input, none when and only when the input
    has none, and the fragments together have at most as many characters
    as before. *)
Theorem merge_never_grows (h : store) (chunks : list (chunk loc)) :
  let merged := snd (merge_overlapping_chunks h chunks) in
  length merged <= length chunks
  /\ (merged = [] <-> chunks = [])
  /\ total_length merged <= total_length chunks.
Proof.
  cbv zeta. destruct chunks as [| first rest].
  - cbn. repeat split; lia.
  - cbn [merge_overlapping_chunks].
    pose proof (merge_loop_shape rest h [] first) as H. cbv zeta in H.
    destruct H as [H1 [H2 [H3 _]]]. cbn [length] in *.
    change (total_length []) with 0 in H3. rewrite total_length_cons.
    split; [lia |]. split; [| lia]. split.
    + intros Hnil. rewrite Hnil in H1. cbn in H1. lia.
    + discriminate.
Qed.

Lemma extends_refl (c : chunk loc) : extends c c.
Proof.
  split; [reflexivity |]. split; [reflexivity |].
  exists []. symmetry. apply app_nil_r.
Qed.

Lemma extends_trans (a b c : chunk loc) :
  extends a b -> extends b c -> extends a c.
Proof.
  intros [Hs1 [Hm1 [t1 Hc1]]] [Hs2 [Hm2 [t2 Hc2]]].
  split; [congruence |]. split; [congruence |].
  exists (t1 ++ t2). rewrite Hc2, Hc1, app_assoc. reflexivity.
Qed.

Lemma merge_loop_extends (rest : list (chunk loc)) :
  forall h acc cur out,
    In out (snd (merge_loop h rest acc cur)) ->
    In out acc \/ exists original, In original (cur :: rest)
                                  /\ extends original out.
Proof.
  induction rest as [| next rest IH]; intros h acc cur out Hin.
  - cbn [merge_loop snd] in Hin. apply in_app_or in Hin as [Hin | [<- | []]].
    + now left.
    + right. exists cur. split; [now left | apply extends_refl].
  - cbn [merge_loop] in Hin.
    destruct (_has_significant_overlap (content cur) (content next)).
    + cbv zeta in Hin. apply IH in Hin as [Hin | [original [Ho He]]];
        [now left |].
      right. destruct Ho as [<- | Ho].
      * exists cur. split; [now left |].
        refine (extends_trans _ _ _ _ He).
        split; [reflexivity |]. split; [reflexivity |].
        eexists. reflexivity.
      * exists original. split; [right; now right | exact He].
    + apply IH in Hin as [Hin | [original [Ho He]]].
      * apply in_app_or in Hin as [Hin | [<- | []]]; [now left |].
        right. exists cur. split; [now left | apply extends_refl].
      * right. exists original. split; [now right | exact He].
Qed.

Lemma merge_loop_frame (rest : list (chunk loc)) :
  forall h acc cur l,
    ~ In l (map metadata (cur :: rest)) ->
    fst (merge_loop h rest acc cur) !! l = h !! l.
Proof.
  induction rest as [| next rest IH]; intros h acc cur l Hl.
  - reflexivity.
  - cbn [merge_loop].
    destruct (_has_significant_overlap (content cur) (content next)).
    + cbv zeta. rewrite IH.
      * apply lookup_insert_ne. intros Heq. apply Hl. left. exact Heq.
      * cbn [map metadata In] in *. intros [Heq | Hin]; apply Hl;
          [left; exact Heq | right; right; exact Hin].
    + apply IH. cbn [map In] in *. intros H. apply Hl. now right.
Qed.

(** X9: every fragment the merge returns is a fragment of its input with
    text added at the end: it has that fragment's source and metadata
    dictionary and begins with its content; and the merge writes to no
    metadata dictionary but those of its input fragments. *)
Theorem merge_extends_input (h : store) (chunks : list (chunk loc)) :
  (forall merged, In merged (snd (merge_overlapping_chunks h chunks)) ->
     exists original, In original chunks /\ extends original merged)
  /\ (forall l, ~ In l (map metadata chunks) ->
        fst (merge_overlapping_chunks h chunks) !! l = h !! l).
Proof.
  destruct chunks as [| first rest].
  - split; [intros merged [] | reflexivity].
  - cbn [merge_overlapping_chunks]. split.
    + intros merged Hin.
      apply merge_loop_extends in Hin as [[] | H]. exact H.
    + intros l Hl. now apply merge_loop_frame.
Qed.

(** ** Empty fragments *)

Lemma starts_solid_strip (s : str) : starts_solid s -> truthy (strip s) = true.
Proof.
  destruct s as [| c r]; [contradiction |]. intros Hc. cbn in Hc.
  unfold strip. cbn [lstrip]. rewrite Hc.
  unfold rstrip. cbn [rev]. rewrite lstrip_snoc by exact Hc.
  rewrite rev_app_distr. reflexivity.
Qed.

Lemma strip_starts_solid (s : str) :
  truthy (strip s) = true -> starts_solid (strip s).
Proof.
  intros H. pose proof (strip_head s) as Hh.
  destruct (strip s); [discriminate | exact Hh].
Qed.

Lemma starts_solid_app (a b : str) : starts_solid a -> starts_solid (a ++ b).
Proof. destruct a; [contradiction | exact id]. Qed.

Lemma split_runs_from_pieces (p : ascii -> bool) (s : str) :
  forall in_run piece,
    In piece (split_runs_from p in_run s) ->
    forallb (fun c => negb (p c)) piece = true.
Proof.
  induction s as [| c r IH]; intros in_run piece Hin.
  - destruct Hin as [<- | []]. reflexivity.
  - cbn [split_runs_from] in Hin. destruct (p c) eqn:Hc.
    + destruct in_run.
      * exact (IH _ _ Hin).
      * destruct Hin as [<- | Hin]; [reflexivity | exact (IH _ _ Hin)].
    + specialize (IH false).
      destruct (split_runs_from p false r) as [| q rest]; cbn [cons_head] in Hin.
      * destruct Hin as [<- | []]. cbn. now rewrite Hc.
      * destruct Hin as [<- | Hin].
        -- cbn [forallb]. rewrite Hc. cbn. apply IH. now left.
        -- apply IH. now right.
Qed.

Lemma split_ws_words (text word : str) :
  In word (split_ws text) -> starts_solid word.
Proof.
  unfold split_ws, split_runs. intros Hin.
  apply filter_In in Hin as [Hin Hne].
  apply split_runs_from_pieces in Hin.
  destruct word as [| c r]; [discriminate |].
  cbn [forallb] in Hin. apply andb_prop in Hin as [Hc _].
  now apply negb_true_iff in Hc.
Qed.

Lemma all_truthy_snoc (chunks : list str) (c : str) :
  all_truthy chunks -> truthy c = true -> all_truthy (chunks ++ [c]).
Proof.
  intros Hall Hc x Hx. apply in_app_or in Hx as [Hx | [<- | []]];
    [now apply Hall | exact Hc].
Qed.

Lemma all_truthy_app (a b : list str) :
  all_truthy a -> all_truthy b -> all_truthy (a ++ b).
Proof.
  intros Ha Hb x Hx. apply in_app_or in Hx as [Hx | Hx];
    [now apply Ha | now apply Hb].
Qed.

Lemma truthy_solid (s : str) : truthy s = true -> s = [] \/ starts_solid s ->
  starts_solid s.
Proof. intros H [-> | Hs]; [discriminate | exact Hs]. Qed.

Lemma split_by_words_loop_truthy (self : TextProcessor.t) (words : list str) :
  0 < chunk_size self ->
  (forall word, In word words -> starts_solid word) ->
  forall chunks current,
    all_truthy chunks ->
    current = [] \/ starts_solid current ->
    all_truthy (fst (split_by_words_loop self words chunks current))
    /\ (snd (split_by_words_loop self words chunks current) = []
        \/ starts_solid (snd (split_by_words_loop self words chunks current))).
Proof.
  intros Hpos.
  induction words as [| word rest IH]; intros Hwords chunks current Hall Hcur.
  - split; assumption.
  - assert (Hword : starts_solid word) by (apply Hwords; now left).
    assert (Hrest : forall w, In w rest -> starts_solid w)
      by (intros w Hw; apply Hwords; now right).
    cbn [split_by_words_loop].
    destruct (chunk_size self <? length current + length word + 1).
    + destruct (truthy current) eqn:Ht.
      * apply (IH Hrest); [| now right].
        apply all_truthy_snoc; [exact Hall |].
        apply starts_solid_strip. now apply truthy_solid.
      * apply (IH Hrest); [| exact Hcur].
        apply all_truthy_snoc; [exact Hall |].
        destruct word as [| c w]; [contradiction |].
        destruct (chunk_size self); [lia | reflexivity].
    + destruct (truthy current) eqn:Ht.
      * apply (IH Hrest); [exact Hall |]. right.
        apply starts_solid_app. now apply truthy_solid.
      * apply (IH Hrest); [exact Hall | now right].
Qed.

Lemma split_by_words_truthy (self : TextProcessor.t) (text : str) :
  0 < chunk_size self -> all_truthy (_split_by_words self text).
Proof.
  intros Hpos. unfold _split_by_words.
  pose proof (split_by_words_loop_truthy self (split_ws text) Hpos
                (split_ws_words text) [] []) as Hloop.
  destruct (split_by_words_loop self (split_ws text) [] [])
    as [chunks current].
  cbn [fst snd] in Hloop.
  destruct Hloop as [Hall Hcur]; [intros c [] | now left |].
  destruct (truthy current) eqn:Ht; [| exact Hall].
  apply all_truthy_snoc; [exact Hall |].
  apply starts_solid_strip. now apply truthy_solid.
Qed.

Lemma split_long_paragraph_loop_truthy (self : TextProcessor.t)
  (sentences : list str) :
  0 < chunk_size self ->
  forall chunks current,
    all_truthy chunks ->
    current = [] \/ starts_solid current ->
    all_truthy (fst (split_long_paragraph_loop self sentences chunks current))
    /\ (snd (split_long_paragraph_loop self sentences chunks current) = []
        \/ starts_solid
             (snd (split_long_paragraph_loop self sentences chunks current))).
Proof.
  intros Hpos.
  induction sentences as [| sentence rest IH]; intros chunks current Hall Hcur.
  - split; assumption.
  - cbn [split_long_paragraph_loop]. cbv zeta.
    destruct (truthy (strip sentence)) eqn:Hs; cbn [negb];
      [| now apply IH].
    pose proof (strip_starts_solid _ Hs) as Hsolid.
    destruct (chunk_size self <? length current + length (strip sentence) + 1).
    + destruct (truthy current) eqn:Ht.
      * apply IH; [| now right].
        apply all_truthy_snoc; [exact Hall |].
        apply starts_solid_strip. now apply truthy_solid.
      * destruct (chunk_size self <? length (strip sentence)).
        -- apply IH; [| exact Hcur].
           apply all_truthy_app; [exact Hall |].
           now apply split_by_words_truthy.
        -- apply IH; [| exact Hcur].
           apply all_truthy_snoc; [exact Hall | exact Hs].
    + destruct (truthy current) eqn:Ht.
      * apply IH; [exact Hall |]. right.
        apply starts_solid_app. now apply truthy_solid.
      * apply IH; [exact Hall | now right].
Qed.

Lemma split_long_paragraph_truthy (self : TextProcessor.t) (paragraph : str) :
  0 < chunk_size self -> all_truthy (_split_long_paragraph self paragraph).
Proof.
  intros Hpos. unfold _split_long_paragraph.
  pose proof (split_long_paragraph_loop_truthy self
                (split_runs is_sentence_end paragraph) Hpos [] []) as Hloop.
  destruct (split_long_paragraph_loop self
              (split_runs is_sentence_end paragraph) [] [])
    as [chunks current].
  cbn [fst snd] in Hloop.
  destruct Hloop as [Hall Hcur]; [intros c [] | now left |].
  destruct (truthy current) eqn:Ht; [| exact Hall].
  apply all_truthy_snoc; [exact Hall |].
  apply starts_solid_strip. now apply truthy_solid.
Qed.

Lemma chunk_text_truthy (self : TextProcessor.t) (text : str) (m : meta)
  (u : str) (c : chunk meta) :
  0 < chunk_size self ->
  truthy (_clean_text text) = true ->
  In c (_chunk_text self text m u) ->
  truthy (content c) = true.
Proof.
  intros Hpos Hne Hin.
  destruct (Nat.le_gt_cases (length (_clean_text text)) (chunk_size self))
    as [Hlen | Hlen].
  - rewrite (chunk_text_short self _ _ _ Hlen) in Hin.
    destruct Hin as [<- | []]. exact Hne.
  - rewrite (chunk_text_long_path _ _ _ _ Hlen) in Hin.
    apply in_map_iff in Hin as [x [<- Hx]].
    exact (split_long_paragraph_truthy self _ Hpos x Hx).
Qed.

Lemma chunk_text_origin (self : TextProcessor.t) (text : str) (m : meta)
  (u : str) (c : chunk meta) :
  In c (_chunk_text self text m u) -> metadata c = m /\ source c = u.
Proof.
  intros Hin.
  destruct (Nat.le_gt_cases (length (_clean_text text)) (chunk_size self))
    as [Hlen | Hlen].
  - rewrite (chunk_text_short self _ _ _ Hlen) in Hin.
    destruct Hin as [<- | []]. now split.
  - rewrite (chunk_text_long_path _ _ _ _ Hlen) in Hin.
    apply in_map_iff in Hin as [x [<- Hx]]. now split.
Qed.

(** X10: with a positive chunk size, a document in which every section's
    text has a character left after cleaning gives no empty fragment: the
    empty fragment of a section whose lines clean to nothing is the only
    one there can be. *)
Theorem process_document_no_empty_fragment (self : TextProcessor.t)
  (doc : document) :
  0 < chunk_size self ->
  (forall sec line lines, In sec (sections_of doc) ->
     s_content sec = Some (line :: lines) ->
     truthy (_clean_text (join [nl] (line :: lines))) = true) ->
  forall c, In c (process_document self doc) -> truthy (content c) = true.
Proof.
  intros Hpos Htext c Hin. unfold process_document in Hin.
  apply in_app_or in Hin as [Hin | Hin].
  - destruct (get_truthy (d_title doc)); [| contradiction].
    destruct Hin as [<- | []]. reflexivity.
  - apply in_concat in Hin as [l [Hl Hc]].
    apply in_map_iff in Hl as [sec [<- Hsec]].
    unfold _process_section in Hc.
    apply in_app_or in Hc as [Hc | Hc].
    + destruct (get_truthy (s_title sec)); [| contradiction].
      destruct Hc as [<- | []]. reflexivity.
    + apply in_app_or in Hc as [Hc | Hc].
      * destruct (s_content sec) as [[| line lines] |] eqn:Hcontent;
          try contradiction.
        eapply chunk_text_truthy; [exact Hpos | | exact Hc].
        exact (Htext sec line lines Hsec Hcontent).
      * apply in_map_iff in Hc as [cb [<- _]]. reflexivity.
Qed.

Lemma process_document_no_empty_fragment_witness :
  truthy (content short_document_text) = true.
Proof.
  apply (process_document_no_empty_fragment defaults short_document).
  - cbn. lia.
  - intros sec line lines [<- | []] Hc. injection Hc as <- <-.
    vm_compute. reflexivity.
  - right. right. left. vm_compute. reflexivity.
Defined.

(** X11: every fragment of a document names the document: its source is
    the document's URL, and so is the ['url'] entry of its metadata, which
    also has a ['type'] and a ['section']. *)
Theorem process_document_provenance (self : TextProcessor.t) (doc : document)
  (c : chunk meta) :
  In c (process_document self doc) ->
  source c = d_url doc
  /\ metadata c !! "url" = Some (VStr (d_url doc))
  /\ is_Some (metadata c !! "type")
  /\ is_Some (metadata c !! "section").
Proof.
  intros Hin. unfold process_document in Hin.
  apply in_app_or in Hin as [Hin | Hin].
  - destruct (get_truthy (d_title doc)); [| contradiction].
    destruct Hin as [<- | []]. cbn [source metadata].
    split; [reflexivity |]. split; [| split].
    + rewrite lookup_insert_ne by discriminate. apply lookup_insert_eq.
    + rewrite lookup_insert_eq. eexists; reflexivity.
    + rewrite !lookup_insert_ne by discriminate. rewrite lookup_insert_eq.
      eexists; reflexivity.
  - apply in_concat in Hin as [l [Hl Hc]].
    apply in_map_iff in Hl as [sec [<- Hsec]].
    unfold _process_section in Hc.
    apply in_app_or in Hc as [Hc | Hc].
    + destruct (get_truthy (s_title sec)); [| contradiction].
      destruct Hc as [<- | []]. cbn [source metadata].
      split; [reflexivity |]. split; [| split].
      * rewrite !lookup_insert_ne by discriminate. apply lookup_insert_eq.
      * rewrite lookup_insert_eq. eexists; reflexivity.
      * rewrite !lookup_insert_ne by discriminate. rewrite lookup_insert_eq.
        eexists; reflexivity.
    + apply in_app_or in Hc as [Hc | Hc].
      * destruct (s_content sec) as [[| line lines] |] eqn:Hcontent;
          try contradiction.
        apply chunk_text_origin in Hc as [-> ->].
        split; [reflexivity |]. split; [| split].
        -- rewrite !lookup_insert_ne by discriminate. apply lookup_insert_eq.
        -- rewrite lookup_insert_eq. eexists; reflexivity.
        -- rewrite !lookup_insert_ne by discriminate.
           rewrite lookup_insert_eq. eexists; reflexivity.
      * apply in_map_iff in Hc as [cb [<- _]]. cbn [source metadata].
        split; [reflexivity |]. split; [| split].
        -- rewrite !lookup_insert_ne by discriminate. apply lookup_insert_eq.
        -- rewrite lookup_insert_eq. eexists; reflexivity.
        -- rewrite !lookup_insert_ne by discriminate.
           rewrite lookup_insert_eq. eexists; reflexivity.
Qed.

Lemma process_document_provenance_witness :
  source short_document_text = d_url short_document.
Proof.
  refine (proj1 (process_document_provenance defaults short_document
                   short_document_text _)).
  right. right. left. vm_compute. reflexivity.
Defined.

(** ** What [search] returns *)

Lemma nth_error_skipn {A} (l : list A) (i : nat) (x : A) :
  nth_error l i = Some x -> skipn i l = x :: skipn (S i) l.
Proof.
  revert i. induction l as [| y l IH]; intros [| i] H; try discriminate.
  - injection H as ->. reflexivity.
  - cbn [nth_error] in H. rewrite (skipn_cons (S i)). cbn [skipn].
    now apply IH.
Qed.

Lemma row_covers {A} (l : list A) (dflt : A) (i n : nat) :
  covers l i (S n) ->
  exists x, row l i dflt = Some x
            /\ column l dflt i (S n) = x :: column l dflt (S i) n.
Proof.
  intros [-> | Hlen].
  - exists dflt. split; reflexivity.
  - destruct l as [| y l]; [simpl in Hlen; lia |].
    destruct (nth_error (y :: l) i) as [x |] eqn:Hx.
    + exists x. split; [exact Hx |]. unfold column.
      rewrite (nth_error_skipn _ _ _ Hx). reflexivity.
    + apply nth_error_None in Hx. lia.
Qed.

Lemma covers_next {A} (l : list A) (i n : nat) :
  covers l i (S n) -> covers l (S i) n.
Proof. intros [-> | H]; [now left | right; lia]. Qed.

Lemma format_results_from_covers (results : query_result) (docs : list str) :
  forall i,
    covers (metadatas results) i (length docs) ->
    covers (distances results) i (length docs) ->
    exists formatted,
      format_results_from results i docs = Some formatted
      /\ map h_content formatted = docs
      /\ map h_metadata formatted
         = column (metadatas results) ∅ i (length docs)
      /\ map distance formatted
         = column (distances results) 0%Q i (length docs).
Proof.
  induction docs as [| doc rest IH]; intros i Hm Hd.
  - exists []. cbn [format_results_from map length]. unfold column.
    destruct (metadatas results), (distances results); repeat split.
  - cbn [length] in Hm, Hd.
    destruct (row_covers _ ∅ _ _ Hm) as [md [Hmd Hmcol]].
    destruct (row_covers _ 0%Q _ _ Hd) as [d [Hdd Hdcol]].
    destruct (IH (S i) (covers_next _ _ _ Hm) (covers_next _ _ _ Hd))
      as [formatted [Hf [Hc [Hme Hdi]]]].
    exists (Hit doc md d (1 - d)%Q :: formatted).
    cbn [format_results_from length]. rewrite Hmd, Hdd, Hf.
    split; [reflexivity |]. cbn [map h_content h_metadata distance].
    rewrite Hc, Hme, Hdi, Hmcol, Hdcol. repeat split.
Qed.

(** X12: when the metadata and distance columns of the answer are absent
    or have an entry for every document, [search] gives one hit per
    document, in the order of the answer, each with its own metadata and
    distance; an absent column reads as the empty dictionary or as
    distance 0.0. *)
Theorem search_one_hit_per_document (results : query_result) :
  covers (metadatas results) 0 (length (documents results)) ->
  covers (distances results) 0 (length (documents results)) ->
  let hits := search (Some results) in
  map h_content hits = documents results
  /\ map h_metadata hits
     = column (metadatas results) ∅ 0 (length (documents results))
  /\ map distance hits
     = column (distances results) 0%Q 0 (length (documents results))
  /\ map relevance_score hits = map (fun r => (1 - distance r)%Q) hits.
Proof.
  intros Hm Hd. cbv zeta.
  destruct (format_results_from_covers results (documents results) 0 Hm Hd)
    as [formatted [Hf [Hc [Hme Hdi]]]].
  unfold search, format_results. rewrite Hf.
  split; [exact Hc |]. split; [exact Hme |]. split; [exact Hdi |].
  apply map_ext_in. intros r Hr.
  exact (format_results_relevance results _ 0 formatted Hf r Hr).
Qed.

Lemma search_one_hit_per_document_witness :
  map h_content (search (Some two_hits)) = documents two_hits.
Proof.
  refine (proj1 (search_one_hit_per_document two_hits _ _)).
  - left. reflexivity.
  - right. cbn. lia.
Defined.


Lemma row_none {A} (l : list A) (dflt : A) (i : nat) :
  l <> [] -> length l <= i -> row l i dflt = None.
Proof.
  intros Hne Hlen. destruct l as [| y l]; [congruence |].
  unfold row. now apply nth_error_None.
Qed.

Lemma format_results_from_short (results : query_result) (docs : list str) :
  forall i,
    short_of (metadatas results) (i + length docs)
    \/ short_of (distances results) (i + length docs) ->
    (metadatas results = [] \/ i <= length (metadatas results)) ->
    (distances results = [] \/ i <= length (distances results)) ->
    format_results_from results i docs = None.
Proof.
  induction docs as [| doc rest IH]; intros i Hshort Hm Hd.
  - cbn [length] in Hshort. rewrite Nat.add_0_r in Hshort.
    destruct Hshort as [[Hne Hlen] | [Hne Hlen]];
      [destruct Hm as [Hm | Hm] | destruct Hd as [Hd | Hd]];
      first [congruence | lia].
  - cbn [format_results_from length] in *.
    destruct (row (metadatas results) i ∅) as [md |] eqn:Hmd;
      [| reflexivity].
    destruct (row (distances results) i 0%Q) as [d |] eqn:Hdd;
      [| reflexivity].
    rewrite IH; [reflexivity | | |].
    + replace (S i + length rest) with (i + S (length rest)) by lia.
      exact Hshort.
    + destruct (metadatas results) as [| y l] eqn:El; [now left |]. right.
      unfold row in Hmd.
      assert (Hsome : nth_error (y :: l) i <> None) by congruence.
      apply nth_error_Some in Hsome. lia.
    + destruct (distances results) as [| y l] eqn:El; [now left |]. right.
      unfold row in Hdd.
      assert (Hsome : nth_error (y :: l) i <> None) by congruence.
      apply nth_error_Some in Hsome. lia.
Qed.

(** X13: [search] is all or nothing: when the collection raises, or when
    a metadata or distance column is there but shorter than the list of
    documents, it returns no hit at all, not even for the documents that
    have their entries. *)
Theorem search_short_column_gives_nothing (results : query_result) :
  short_of (metadatas results) (length (documents results))
  \/ short_of (distances results) (length (documents results)) ->
  search (Some results) = [] /\ search None = [].
Proof.
  intros Hshort. split; [| reflexivity].
  unfold search, format_results.
  rewrite format_results_from_short; [reflexivity | exact Hshort | |];
    right; lia.
Qed.

Lemma search_short_column_gives_nothing_witness :
  search (Some short_answer) = [].
Proof.
  refine (proj1 (search_short_column_gives_nothing short_answer _)).
  right. split; [discriminate | cbn; lia].
Defined.

(** ** The fragments [RAGNode.run] keeps *)

Lemma insert_desc_perm (x : hit) (l : list hit) :
  Permutation (insert_desc x l) (x :: l).
Proof.
  induction l as [| y l IH]; [reflexivity |].
  cbn [insert_desc]. destruct (Qle_bool (relevance_score y) (relevance_score x)).
  - reflexivity.
  - rewrite IH. apply perm_swap.
Qed.

Lemma sort_desc_perm (l : list hit) : Permutation (sort_desc l) l.
Proof.
  induction l as [| x l IH]; [reflexivity |].
  cbn [sort_desc fold_right]. fold (sort_desc l).
  rewrite insert_desc_perm. now apply perm_skip.
Qed.

Lemma insert_desc_sorted (x : hit) (l : list hit) :
  StronglySorted at_least_as_relevant l ->
  StronglySorted at_least_as_relevant (insert_desc x l).
Proof.
  induction 1 as [| y l Hl IH Hy].
  - repeat constructor.
  - cbn [insert_desc].
    destruct (Qle_bool (relevance_score y) (relevance_score x)) eqn:Hle.
    + apply Qle_bool_iff in Hle. constructor.
      * now constructor.
      * constructor; [exact Hle |].
        rewrite List.Forall_forall in *. intros z Hz.
        unfold at_least_as_relevant in *.
        exact (Qle_trans _ _ _ (Hy z Hz) Hle).
    + constructor; [exact IH |].
      rewrite List.Forall_forall in *. intros z Hz.
      apply In_insert_desc in Hz as [-> | Hz]; [| now apply Hy].
      unfold at_least_as_relevant.
      destruct (Qlt_le_dec (relevance_score y) (relevance_score x))
        as [Hlt | Hge]; [| exact Hge].
      apply Qlt_le_weak in Hlt. apply Qle_bool_iff in Hlt. congruence.
Qed.

Lemma sort_desc_sorted (l : list hit) :
  StronglySorted at_least_as_relevant (sort_desc l).
Proof.
  induction l as [| x l IH]; [constructor |].
  cbn [sort_desc fold_right]. fold (sort_desc l).
  now apply insert_desc_sorted.
Qed.

Lemma sorted_firstn_skipn (n : nat) (l : list hit) :
  StronglySorted at_least_as_relevant l ->
  StronglySorted at_least_as_relevant (firstn n l)
  /\ forall kept dropped,
       In kept (firstn n l) -> In dropped (skipn n l) ->
       at_least_as_relevant kept dropped.
Proof.
  intros Hs. revert n. induction Hs as [| x l Hl IH Hx]; intros n.
  - rewrite firstn_nil, skipn_nil. split; [constructor | intros ? ? []].
  - destruct n as [| n].
    + split; [constructor | intros ? ? []].
    + destruct (IH n) as [IHs IHd]. cbn [firstn skipn]. split.
      * constructor; [exact IHs |].
        rewrite List.Forall_forall in *. intros z Hz.
        apply Hx. now apply In_firstn_In in Hz.
      * intros kept dropped [<- | Hk] Hd; [| now apply IHd].
        rewrite List.Forall_forall in Hx. apply Hx.
        rewrite <- (firstn_skipn n l). apply in_or_app. now right.
Qed.

(** X14: [RAGNode.run] keeps the five best fragments: five of them, or
    all when the searches found fewer, in order of decreasing relevance;
    together with the ones it drops they are exactly the fragments the
    searches found, none of the dropped ones being more relevant than a
    kept one. *)
Theorem RAG_keeps_the_best (w : world) (st : State) :
  let kept := retrieved_context (RAGNode_run w st) in
  length kept = Nat.min 5 (length (all_results w st))
  /\ StronglySorted at_least_as_relevant kept
  /\ exists dropped,
       Permutation (kept ++ dropped) (all_results w st)
       /\ forall k d, In k kept -> In d dropped -> at_least_as_relevant k d.
Proof.
  cbv zeta. rewrite RAG_retrieved_context. unfold top_results.
  fold (all_results w st).
  destruct (sorted_firstn_skipn 5 _ (sort_desc_sorted (all_results w st)))
    as [Hsorted Hbest].
  split.
  { rewrite length_firstn.
    now rewrite (Permutation_length (sort_desc_perm (all_results w st))). }
  split; [exact Hsorted |].
  exists (skipn 5 (sort_desc (all_results w st))). split; [| exact Hbest].
  rewrite firstn_skipn. apply sort_desc_perm.
Qed.

(** ** Invariants of the nodes *)

Lemma step_not_blank (st st' : State) :
  step st st' -> not_blank st -> not_blank st'.
Proof.
  unfold not_blank. intros Hstep Hinv.
  destruct Hstep as
    [ st | w st st' Hrun | st | w st | st st' Hrun | w st | st | st | w st ].
  - unfold InputNode_run. rewrite Hinv. cbn [negb]. exact Hinv.
  - unfold IntentAnalysisNode_run in Hrun.
    destruct (_detect_intent_by_patterns w (user_message st) intent_patterns);
      [| discriminate].
    injection Hrun as <-. exact Hinv.
  - exact Hinv.
  - unfold RAGNode_run. destruct (firstn 5 _); exact Hinv.
  - unfold ContextBuilderNode_run in Hrun.
    destruct (chat_history st).
    + injection Hrun as <-. exact Hinv.
    + destruct (_build_context_from_history _); [| discriminate].
      injection Hrun as <-. cbn [user_message set_intent set_user_message].
      apply starts_solid_strip. reflexivity.
  - unfold ResponseGenerationNode_run.
    destruct (llm_response w) as [answer |]; [| exact Hinv].
    cbn [confidence set_response].
    destruct (Qlt_bool _ _); exact Hinv.
  - unfold CodeFormattingNode_run.
    destruct (response st) as [[| c r] |]; exact Hinv.
  - exact Hinv.
  - unfold ClarificationNode_run.
    destruct (llm_clarification w); exact Hinv.
Qed.

(** X15: after [InputNode.run] the message is never blank: a message that
    has a character other than white space is left as it is, a blank one is
    replaced by the fixed request; and no node that runs afterwards makes
    the message blank again. *)
Theorem message_never_blank :
  (forall st, not_blank (InputNode_run st))
  /\ (forall st, not_blank st -> InputNode_run st = st)
  /\ (forall st st', step st st' -> not_blank st -> not_blank st').
Proof.
  split; [| split].
  - intros st. unfold not_blank, InputNode_run.
    destruct (truthy (strip (user_message st))) eqn:Hm; cbn [negb].
    + exact Hm.
    + vm_compute. reflexivity.
  - intros st Hst. unfold not_blank in Hst. unfold InputNode_run.
    rewrite Hst. reflexivity.
  - exact step_not_blank.
Qed.

Lemma continues_refl (st : State) : continues st st.
Proof.
  split; [reflexivity |]. split; [reflexivity |].
  exists []. symmetry. apply app_nil_r.
Qed.

Lemma continues_trans (a b c : State) :
  continues a b -> continues b c -> continues a c.
Proof.
  intros [Hc1 [Hu1 [h1 Hh1]]] [Hc2 [Hu2 [h2 Hh2]]].
  split; [congruence |]. split; [congruence |].
  exists (h1 ++ h2). rewrite Hh2, Hh1, app_assoc. reflexivity.
Qed.

Ltac same_conversation :=
  split; [reflexivity |]; split; [reflexivity |];
  exists []; symmetry; apply app_nil_r.

Lemma step_continues (st st' : State) : step st st' -> continues st st'.
Proof.
  intros Hstep.
  destruct Hstep as
    [ st | w st st' Hrun | st | w st | st st' Hrun | w st | st | st | w st ].
  - unfold InputNode_run.
    destruct (negb (truthy (strip (user_message st)))); same_conversation.
  - unfold IntentAnalysisNode_run in Hrun.
    destruct (_detect_intent_by_patterns w (user_message st) intent_patterns);
      [| discriminate].
    injection Hrun as <-. same_conversation.
  - same_conversation.
  - unfold RAGNode_run. destruct (firstn 5 _); same_conversation.
  - unfold ContextBuilderNode_run in Hrun.
    destruct (chat_history st) eqn:Hh.
    + injection Hrun as <-. same_conversation.
    + destruct (_build_context_from_history _); [| discriminate].
      injection Hrun as <-. same_conversation.
  - unfold ResponseGenerationNode_run.
    destruct (llm_response w) as [answer |]; [| same_conversation].
    cbn [confidence set_response].
    destruct (Qlt_bool _ _); same_conversation.
  - unfold CodeFormattingNode_run.
    destruct (response st) as [[| c r] |]; same_conversation.
  - split; [reflexivity |]. split; [reflexivity |].
    eexists. reflexivity.
  - unfold ClarificationNode_run.
    destruct (llm_clarification w); same_conversation.
Qed.

Lemma steps_continues (st st' : State) : steps st st' -> continues st st'.
Proof.
  induction 1 as [st | st st' st'' Hstep _ IH]; [apply continues_refl |].
  exact (continues_trans _ _ _ (step_continues _ _ Hstep) IH).
Qed.

(** X16: a turn stays in its conversation: no node changes the chat or the
    user of the state, and the history is only ever added to at its end; so
    the state that an executor which runs the nodes returns, whatever its
    edges, has the chat, the user and, as a prefix, the history it was
    started with. *)
Theorem execution_continues_conversation :
  (forall st st', step st st' -> continues st st')
  /\ (forall app st result,
        runs_nodes app ->
        app st = inr result ->
        continues st result).
Proof.
  split; [exact step_continues |].
  intros app st result Happ Hrun.
  exact (steps_continues _ _ (Happ _ _ Hrun)).
Qed.

Lemma execution_continues_conversation_witness :
  continues confused_state confused_result.
Proof.
  apply (proj2 execution_continues_conversation
           (clarification_turn confused_world)).
  - apply clarification_turn_runs_nodes.
  - vm_compute. reflexivity.
Defined.

Lemma step_intent_valid (st st' : State) :
  step st st' -> intent_valid st -> intent_valid st'.
Proof.
  unfold intent_valid. intros Hstep Hinv.
  destruct Hstep as
    [ st | w st st' Hrun | st | w st | st st' Hrun | w st | st | st | w st ].
  - unfold InputNode_run.
    destruct (negb (truthy (strip (user_message st)))); exact Hinv.
  - destruct (detect_intent_spec w (user_message st))
      as [detected [Hd [Hv _]]].
    unfold IntentAnalysisNode_run in Hrun. rewrite Hd in Hrun.
    injection Hrun as <-. cbn [intent set_intent].
    intros i Hi. injection Hi as <-. now apply refine_valid.
  - exact Hinv.
  - unfold RAGNode_run. destruct (firstn 5 _); exact Hinv.
  - unfold ContextBuilderNode_run in Hrun.
    destruct (chat_history st).
    + injection Hrun as <-. cbn [intent set_intent].
      intros i Hi. injection Hi as <-. apply valid_general_question.
    + destruct (_build_context_from_history _); [| discriminate].
      injection Hrun as <-. cbn [intent set_intent].
      intros i Hi. injection Hi as <-. apply valid_general_question.
  - unfold ResponseGenerationNode_run.
    destruct (llm_response w) as [answer |]; [| exact Hinv].
    cbn [confidence set_response].
    destruct (Qlt_bool _ _); exact Hinv.
  - unfold CodeFormattingNode_run.
    destruct (response st) as [[| c r] |]; exact Hinv.
  - exact Hinv.
  - unfold ClarificationNode_run.
    destruct (llm_clarification w); exact Hinv.
Qed.

(** X17: in every state an execution goes through, the intent is unset or
    one of the four labels: the two nodes that write it write nothing
    else. *)
Theorem reachable_intent_valid (st : State) :
  reachable st ->
  intent st = None
  \/ intent st = Some code_question \/ intent st = Some follow_up
  \/ intent st = Some general_question \/ intent st = Some clarification.
Proof.
  intros Hreach.
  assert (Hvalid : intent_valid st).
  { induction Hreach as [c m u h | st st' _ IH Hstep].
    - intros i Hi. discriminate.
    - exact (step_intent_valid _ _ Hstep IH). }
  unfold intent_valid in Hvalid.
  destruct (intent st) as [i |] eqn:Hi; [right | now left].
  specialize (Hvalid i eq_refl). apply valid_intents_cases in Hvalid.
  destruct Hvalid as [-> | [-> | [-> | ->]]];
    [left | right; left | right; right; left | right; right; right];
    reflexivity.
Qed.

Lemma reachable_intent_valid_witness :
  intent confused_result = None
  \/ intent confused_result = Some code_question
  \/ intent confused_result = Some follow_up
  \/ intent confused_result = Some general_question
  \/ intent confused_result = Some clarification.
Proof.
  apply (reachable_intent_valid confused_result).
  apply (steps_reachable confused_state confused_result).
  - apply (clarification_turn_runs_nodes confused_world).
    vm_compute. reflexivity.
  - apply reachable_new.
Defined.

(** ** History entries *)

Lemma last_n_snoc {A} (n : nat) (l : list A) (x : A) :
  0 < n -> exists before, last_n n (l ++ [x]) = before ++ [x].
Proof.
  intros Hn. unfold last_n. rewrite length_app. cbn [length].
  exists (skipn (length l + 1 - n) l).
  rewrite skipn_app.
  replace (length l + 1 - n - length l) with 0 by lia. reflexivity.
Qed.

(** X18: the exchange [MemoryNode.run] appends has the key
    ['user_message'], not the key ['message'] the prompt of
    [_refine_intent_with_llm] reads: on a history that ends with such an
    exchange the refinement raises before it reaches the model, and the
    intent found by the patterns stands, whatever the model would say. *)
Theorem refinement_skipped_after_memory (w : world) (st : State)
  (message detected : str) :
  _refine_intent_with_llm w message detected (chat_history (MemoryNode_run st))
  = detected.
Proof.
  unfold _refine_intent_with_llm, context_builds, MemoryNode_run.
  cbn [chat_history set_chat_history].
  destruct (last_n_snoc 3 (chat_history st)
              (<["user_message" := VStr (user_message st)]>
               (<["response" :=
                    opt_val (or_else (formatted_response st) (response st))]>
               (<["intent" := opt_val (intent st)]>
               (<["confidence" := VFloat (confidence st)]>
               (<["timestamp" := VStr (py "now")]> ∅))))) ltac:(lia))
    as [before ->].
  rewrite forallb_app. cbn [forallb].
  rewrite !lookup_insert_ne by discriminate. rewrite lookup_empty.
  assert (Hnone : bool_decide (is_Some (@None pyval)) = false).
  { apply bool_decide_eq_false_2. apply is_Some_None. }
  rewrite Hnone. cbn [andb]. rewrite andb_false_r. reflexivity.
Qed.

(** ** The context of a follow-up *)

Lemma join_length (sep : str) (parts : list str) (n : nat) :
  (forall p, In p parts -> length p <= n) ->
  length (join sep parts)
  <= length parts * n + (length parts - 1) * length sep.
Proof.
  induction parts as [| p rest IH]; intros Hall; [cbn; lia |].
  assert (Hp : length p <= n) by (apply Hall; now left).
  assert (Hrest : forall q, In q rest -> length q <= n)
    by (intros q Hq; apply Hall; now right).
  specialize (IH Hrest).
  destruct rest as [| q rest]; [cbn [join length]; lia |].
  change (join sep (p :: q :: rest)) with (p ++ sep ++ join sep (q :: rest)).
  rewrite !length_app. cbn [length] in *. nia.
Qed.

Lemma extract_key_info_length (response : str) :
  length (_extract_key_info response) <= 399.
Proof.
  unfold _extract_key_info.
  set (key_lines := List.filter is_key_line (map strip (split_char nl response))).
  assert (Hlines : forall p, In p (firstn 2 key_lines) -> length p <= 199).
  { intros p Hp. apply In_firstn_In in Hp. apply filter_In in Hp as [_ Hp].
    unfold is_key_line in Hp. apply andb_prop in Hp as [Hp _].
    apply andb_prop in Hp as [_ Hp]. apply Nat.ltb_lt in Hp. lia. }
  pose proof (join_length (py " ") _ 199 Hlines) as Hj.
  pose proof (firstn_le_length 2 key_lines) as Hn.
  change (length (py " ")) with 1 in Hj.
  assert (Hn2 : length (firstn 2 key_lines) <= 2).
  { rewrite length_firstn. lia. }
  nia.
Qed.

Lemma context_parts_bound (recent : list meta) :
  forall parts, context_parts recent = Some parts ->
    length parts <= length recent
    /\ forall p, In p parts -> length p <= 399.
Proof.
  induction recent as [| msg rest IH]; intros parts H.
  - injection H as <-. split; [reflexivity | intros p []].
  - cbn [context_parts] in H.
    destruct (msg !! "response") as [v |].
    + destruct (pytruthy v).
      * destruct v as [| | | | response |]; try discriminate.
        destruct (context_parts rest) as [parts' |]; [| discriminate].
        destruct (IH _ eq_refl) as [Hlen Hall].
        injection H as <-.
        destruct (truthy (_extract_key_info response)).
        -- split; [cbn [length]; lia |].
           intros p [<- | Hp];
             [apply extract_key_info_length | now apply Hall].
        -- split; [cbn [length]; lia | exact Hall].
      * destruct (IH _ H) as [Hlen Hall]. split; [cbn [length]; lia | exact Hall].
    + destruct (IH _ H) as [Hlen Hall]. split; [cbn [length]; lia | exact Hall].
Qed.

Lemma build_context_length (history : list meta) (context : str) :
  _build_context_from_history history = Some context ->
  length context <= 1599.
Proof.
  unfold _build_context_from_history.
  destruct history as [| m h]; [intros H; injection H as <-; cbn; lia |].
  destruct (context_parts (last_n 4 (m :: h))) as [parts |] eqn:Hparts;
    [| discriminate].
  intros H. injection H as <-.
  destruct (context_parts_bound _ _ Hparts) as [Hlen Hall].
  assert (Hfour : length (last_n 4 (m :: h)) <= 4).
  { unfold last_n. rewrite length_skipn. lia. }
  pose proof (join_length (py " ") parts 399 Hall) as Hj.
  change (length (py " ")) with 1 in Hj. nia.
Qed.

(** X19: when [ContextBuilderNode.run] returns, the intent is
    [general_question] and the message ends with the message it was given;
    what it puts in front, the two headers and the context taken from at
    most the last four entries of the history, two key lines of under 200
    characters each, has at most 1637 characters, however long the history
    and its answers are. *)
Theorem context_builder_bounded (st st' : State) :
  ContextBuilderNode_run st = Some st' ->
  intent st' = Some general_question
  /\ exists added,
       user_message st' = added ++ user_message st /\ length added <= 1637.
Proof.
  unfold ContextBuilderNode_run. intros Hrun.
  destruct (chat_history st) as [| m h].
  - injection Hrun as <-. split; [reflexivity |].
    exists []. split; [reflexivity | cbn; lia].
  - destruct (_build_context_from_history (m :: h)) as [context |] eqn:Hctx;
      [| discriminate].
    injection Hrun as <-. split; [reflexivity |].
    exists (py "Contexto anterior: " ++ context ++ [nl; nl]
            ++ py "Pregunta actual: ").
    cbn [user_message set_intent set_user_message]. split.
    + rewrite <- !app_assoc. reflexivity.
    + apply build_context_length in Hctx. rewrite !length_app.
      change (length (py "Contexto anterior: ")) with 19.
      change (length (py "Pregunta actual: ")) with 17.
      cbn [length]. lia.
Qed.

Lemma context_builder_bounded_witness :
  intent follow_up_result = Some general_question.
Proof.
  refine (proj1 (context_builder_bounded follow_up_state follow_up_result _)).
  vm_compute. reflexivity.
Defined.

(** ** The formatters *)

Lemma take_while_skipn (p : ascii -> bool) (s : str) :
  take_while p s ++ skipn (length (take_while p s)) s = s.
Proof.
  induction s as [| c r IH]; [reflexivity |].
  cbn [take_while]. destruct (p c); [| reflexivity].
  cbn [length skipn app]. now rewrite IH.
Qed.

Lemma take_while_stops (p : ascii -> bool) (s : str) (c : ascii) (rest : str) :
  skipn (length (take_while p s)) s = c :: rest -> p c = false.
Proof.
  induction s as [| a r IH]; [discriminate |].
  cbn [take_while]. destruct (p a) eqn:Ha.
  - cbn [length skipn]. exact IH.
  - cbn [length skipn]. intros H. injection H as <- _. exact Ha.
Qed.

Lemma skipn_next {A} (n : nat) (l : list A) (x : A) (rest : list A) :
  skipn n l = x :: rest -> skipn (S n) l = rest.
Proof.
  intros H. change (S n) with (1 + n). rewrite <- skipn_skipn, H.
  reflexivity.
Qed.

Lemma replace_command_wraps (command : str) :
  replace_command command = [backtick] ++ command ++ [backtick].
Proof.
  unfold replace_command.
  destruct (startswith command [backtick]
            && startswith (rev command) [backtick]); reflexivity.
Qed.

Lemma format_commands_from_skipn (text : str) :
  forall skip, format_commands_from skip text = skipn skip text.
Proof.
  induction text as [| c r IH]; intros skip.
  - destruct skip; reflexivity.
  - destruct skip as [| k]; cbn [format_commands_from skipn]; [| apply IH].
    destruct (bool_decide (c = backtick)) eqn:Hc;
      [| rewrite IH; reflexivity].
    apply bool_decide_eq_true_1 in Hc. subst c.
    destruct (take_while not_backtick r) as [| a command] eqn:Hcommand;
      [rewrite IH; reflexivity |].
    destruct (skipn (length (a :: command)) r) as [| b rest] eqn:Hrest;
      [rewrite IH; reflexivity |].
    rewrite IH, replace_command_wraps.
    pose proof (take_while_skipn not_backtick r) as Hsplit.
    pose proof (take_while_stops not_backtick r b rest) as Hb.
    rewrite Hcommand in Hsplit, Hb. specialize (Hb Hrest).
    unfold not_backtick in Hb. apply negb_false_iff in Hb.
    apply bool_decide_eq_true_1 in Hb. subst b.
    rewrite Hrest in Hsplit.
    rewrite (skipn_next _ _ _ _ Hrest).
    rewrite <- Hsplit. cbn [app]. rewrite <- app_assoc. reflexivity.
Qed.

(** X20: [_format_commands] changes nothing: every match of its pattern,
    a run of characters between two backticks, is replaced by itself, in
    both branches of [replace_command]. *)
Theorem format_commands_identity (text : str) :
  _format_commands text = text
  /\ forall command,
       replace_command command = [backtick] ++ command ++ [backtick].
Proof.
  split; [apply format_commands_from_skipn | apply replace_command_wraps].
Qed.

Lemma no_fence_no_match (text : str) :
  startswith text fence = false -> match_fence text = None.
Proof. intros H. unfold match_fence. rewrite H. reflexivity. Qed.

Lemma format_code_blocks_no_fence (text : str) :
  contains text fence = false -> format_code_blocks_from 0 text = text.
Proof.
  induction text as [| c r IH]; intros Hno; [reflexivity |].
  cbn [contains] in Hno. apply orb_false_elim in Hno as [Hstart Hrest].
  cbn [format_code_blocks_from].
  rewrite (no_fence_no_match _ Hstart), (IH Hrest). reflexivity.
Qed.

(** X21: [_format_code_blocks] leaves a text without a fence as it is,
    and is not idempotent on a fenced block: the block that
    [format_code_block] builds comes back with one more newline before the
    closing fence, at every pass. *)
Theorem format_code_blocks_adds_newline (language code : str) :
  truthy language = true ->
  forallb isword language = true ->
  contains code fence = false ->
  _format_code_blocks code = code
  /\ _format_code_blocks (format_code_block code language)
     = format_code_block (code ++ [nl]) language.
Proof.
  intros Hne Hword Hfence. unfold _format_code_blocks.
  split; [now apply format_code_blocks_no_fence |].
  pose proof (match_fence_formatted language code Hne Hword Hfence) as Hmatch.
  unfold format_code_block in *.
  change (fence ++ language ++ [nl] ++ code ++ [nl] ++ fence)
    with (backtick :: ([backtick; backtick] ++ language ++ [nl] ++ code
                       ++ [nl] ++ fence)) in *.
  cbn [format_code_blocks_from]. rewrite Hmatch.
  rewrite format_code_blocks_from_skip by (cbn [length]; lia).
  unfold replace_code. rewrite Hne, app_nil_r.
  rewrite <- !app_assoc. reflexivity.
Qed.

Lemma format_code_blocks_adds_newline_witness :
  _format_code_blocks (format_code_block (py "x = 1") (py "python"))
  = format_code_block (py "x = 1" ++ [nl]) (py "python").
Proof.
  refine (proj2 (format_code_blocks_adds_newline (py "python") (py "x = 1")
                   _ _ _));
    vm_compute; reflexivity.
Defined.

(** ** The extracted blocks *)

Lemma startswith_app_true (text rest prefix : str) :
  startswith text prefix = true -> startswith (text ++ rest) prefix = true.
Proof.
  intros H. apply startswith_prefix in H as [tail ->].
  rewrite <- app_assoc. apply startswith_app.
Qed.

Lemma contains_suffix (before text needle : str) :
  contains (before ++ text) needle = false -> contains text needle = false.
Proof.
  induction before as [| c before IH]; [exact id |].
  cbn [app contains]. intros H. apply orb_false_elim in H as [_ H].
  exact (IH H).
Qed.

Lemma contains_prefix (text after needle : str) :
  contains (text ++ after) needle = false -> contains text needle = false.
Proof.
  induction text as [| c text IH]; intros H.
  - cbn [contains]. rewrite orb_false_r.
    destruct (startswith [] needle) eqn:Hs; [| reflexivity].
    apply (startswith_app_true _ after) in Hs.
    destruct (after) as [| a after']; cbn [app contains] in H.
    + rewrite orb_false_r in H. cbn [app] in Hs. congruence.
    + apply orb_false_elim in H as [H _]. cbn [app] in Hs. congruence.
  - cbn [app contains] in *. apply orb_false_elim in H as [Hs H].
    rewrite (IH H), orb_false_r.
    destruct (startswith (c :: text) needle) eqn:Hc; [| reflexivity].
    apply (startswith_app_true _ after) in Hc. cbn [app] in Hc. congruence.
Qed.

Lemma contains_strip (text needle : str) :
  contains text needle = false -> contains (strip text) needle = false.
Proof.
  destruct (strip_infix text) as [p [t Heq]]. intros H.
  rewrite Heq in H. apply contains_suffix, contains_prefix in H. exact H.
Qed.

Lemma until_fence_split (s : str) :
  forall body rest,
    until_fence s = Some (body, rest) ->
    s = body ++ fence ++ rest /\ contains body fence = false.
Proof.
  induction s as [| c r IH]; intros body rest H; [discriminate |].
  cbn [until_fence] in H.
  destruct (startswith (c :: r) fence) eqn:Hs.
  - injection H as <- <-. split; [| reflexivity].
    apply startswith_prefix in Hs as [tail Hs].
    unfold fence in Hs. cbn [app] in Hs. injection Hs as -> ->.
    reflexivity.
  - destruct (until_fence r) as [[body' rest'] |] eqn:Hr; [| discriminate].
    injection H as <- <-. destruct (IH _ _ eq_refl) as [Hsplit Hbody].
    split; [rewrite Hsplit at 1; reflexivity |].
    cbn [contains]. rewrite Hbody, orb_false_r.
    destruct (startswith (c :: body') fence) eqn:Hb; [| reflexivity].
    apply (startswith_app_true _ (fence ++ rest')) in Hb.
    cbn [app] in Hb. rewrite <- Hsplit in Hb. congruence.
Qed.

Lemma until_fence_body (s body rest : str) :
  until_fence s = Some (body, rest) -> contains body fence = false.
Proof. intros H. now apply until_fence_split in H as [_ H]. Qed.

Lemma take_while_all (p : ascii -> bool) (s : str) :
  forallb p (take_while p s) = true.
Proof.
  induction s as [| c r IH]; [reflexivity |].
  cbn [take_while]. destruct (p c) eqn:Hc; [| reflexivity].
  cbn [forallb]. now rewrite Hc, IH.
Qed.

Lemma match_fence_groups (s : str) (g1 : option str) (g2 rest : str) :
  match_fence s = Some (g1, g2, rest) ->
  contains g2 fence = false
  /\ forall language, g1 = Some language ->
       truthy language = true /\ forallb isword language = true.
Proof.
  unfold match_fence. destruct (startswith s fence); [| discriminate].
  cbv zeta.
  destruct (skipn (length (take_while_word (skipn 3 s))) (skipn 3 s))
    as [| c body]; [discriminate |].
  destruct (is_nl c); [| discriminate].
  destruct (until_fence body) as [[code rest'] |] eqn:Hbody; [| discriminate].
  intros H. injection H as <- <- _.
  split; [exact (until_fence_body _ _ _ Hbody) |].
  intros language Hl.
  destruct (truthy (take_while_word (skipn 3 s))) eqn:Ht; [| discriminate].
  injection Hl as <-. split; [exact Ht | apply take_while_all].
Qed.

Lemma findall_from_groups (s : str) :
  forall skip g1 g2,
    In (g1, g2) (findall_from skip s) ->
    contains g2 fence = false
    /\ forall language, g1 = Some language ->
         truthy language = true /\ forallb isword language = true.
Proof.
  induction s as [| c r IH]; intros skip g1 g2 Hin; [contradiction |].
  cbn [findall_from] in Hin. destruct skip as [| k]; [| exact (IH _ _ _ Hin)].
  destruct (match_fence (c :: r)) as [[[h1 h2] rest] |] eqn:Hm;
    [| exact (IH _ _ _ Hin)].
  destruct Hin as [Heq | Hin]; [| exact (IH _ _ _ Hin)].
  injection Heq as <- <-. exact (match_fence_groups _ _ _ _ Hm).
Qed.

(** X22: every block [extract_code_blocks] returns has a language tag that
    is not empty and is made of word characters (['text'] when the fence has
    none), and a code that has no white space at either end and contains
    no fence. *)
Theorem extract_code_blocks_shape (text language code : str) :
  In (language, code) (extract_code_blocks text) ->
  truthy language = true
  /\ forallb isword language = true
  /\ strip code = code
  /\ contains code fence = false.
Proof.
  unfold extract_code_blocks, findall. intros Hin.
  apply in_map_iff in Hin as [[g1 g2] [Heq Hin]].
  apply findall_from_groups in Hin as [Hfence Hlang].
  cbn [fst snd] in Heq. injection Heq as Hl <-.
  split; [| split; [| split]].
  - destruct g1 as [l |]; [| subst; reflexivity].
    destruct (Hlang l eq_refl) as [Ht _]. rewrite Ht in Hl. now subst.
  - destruct g1 as [l |]; [| subst; reflexivity].
    destruct (Hlang l eq_refl) as [Ht Hw]. rewrite Ht in Hl. now subst.
  - apply strip_idempotent.
  - now apply contains_strip.
Qed.

Lemma extract_code_blocks_shape_witness :
  truthy (py "python") = true
  /\ forallb isword (py "python") = true
  /\ strip (py "x = 1") = py "x = 1"
  /\ contains (py "x = 1") fence = false.
Proof.
  apply (extract_code_blocks_shape
           (format_code_block (py "  x = 1") (py "python"))).
  vm_compute. left. reflexivity.
Defined.

(** ** The helpers *)

(** X24: [helpers.sanitize_text] and [TextProcessor._clean_text] are the
    same function: the third substitution of [_clean_text], on runs of
    blank lines, never finds a match, because the second has already
    turned every newline into a space. *)
Theorem sanitize_text_is_clean_text (text : str) :
  sanitize_text text = _clean_text text.
Proof.
  unfold sanitize_text, _clean_text. cbv zeta.
  pose proof (collapse_spaces_single (remove_control text)) as Hs.
  rewrite (collapse_blank_lines_fixed _ (single_spaced_no_nl _ Hs)).
  destruct text as [| c r]; reflexivity.
Qed.

Lemma size_pos_nonempty (X : gset str) : X <> ∅ -> 0 < size X.
Proof.
  intros Hne. destruct (size X) eqn:Hsize; [| lia].
  apply size_empty_inv in Hsize. apply leibniz_equiv in Hsize. contradiction.
Qed.

Lemma inject_nat_pos (n : nat) : 0 < n -> (0 < inject_Z (Z.of_nat n))%Q.
Proof.
  intros Hn. change 0%Q with (inject_Z 0). rewrite <- Zlt_Qlt. lia.
Qed.

Lemma inject_nat_le (a b : nat) :
  a <= b -> (inject_Z (Z.of_nat a) <= inject_Z (Z.of_nat b))%Q.
Proof. intros H. rewrite <- Zle_Qle. lia. Qed.

(** X25: the similarity score is symmetric, lies between 0 and 1, is 0
    when one of the texts has no word, and for two texts with words is 1
    exactly when they have the same words, whatever the case, order and
    repetition. *)
Theorem similarity_score_properties (text1 text2 : str) :
  calculate_similarity_score text1 text2
  = calculate_similarity_score text2 text1
  /\ (0 <= calculate_similarity_score text1 text2 <= 1)%Q
  /\ (word_set text1 = ∅ \/ word_set text2 = ∅ ->
      calculate_similarity_score text1 text2 = 0%Q)
  /\ (word_set text1 <> ∅ -> word_set text2 <> ∅ ->
      (calculate_similarity_score text1 text2 == 1)%Q
      <-> word_set text1 = word_set text2).
Proof.
  unfold calculate_similarity_score. cbv zeta.
  generalize (word_set text1) (word_set text2). intros X Y.
  split; [| split; [| split]].
  - rewrite (orb_comm (bool_decide (X = ∅))).
    assert (Hi : X ∩ Y = Y ∩ X).
    { apply set_eq. intros x. rewrite !elem_of_intersection. tauto. }
    assert (Hu : X ∪ Y = Y ∪ X).
    { apply set_eq. intros x. rewrite !elem_of_union. tauto. }
    rewrite Hi, Hu. reflexivity.
  - destruct (bool_decide (X = ∅) || bool_decide (Y = ∅)); [split; lra |].
    destruct (bool_decide (X ∪ Y = ∅)) eqn:Hu; [split; lra |].
    apply bool_decide_eq_false_1 in Hu.
    pose proof (inject_nat_pos _ (size_pos_nonempty _ Hu)) as Hpos.
    assert (Hle : size (X ∩ Y) <= size (X ∪ Y)).
    { apply subseteq_size. intros x Hx.
      apply elem_of_intersection in Hx as [Hx _].
      apply elem_of_union. now left. }
    apply inject_nat_le in Hle. split.
    + apply Qle_shift_div_l; [exact Hpos |].
      rewrite Qmult_0_l. change 0%Q with (inject_Z 0).
      rewrite <- Zle_Qle. lia.
    + apply Qle_shift_div_r; [exact Hpos |]. rewrite Qmult_1_l. exact Hle.
  - intros [H | H]; rewrite (bool_decide_eq_true_2 _ H);
      [| rewrite orb_true_r]; reflexivity.
  - intros HX HY.
    rewrite (bool_decide_eq_false_2 _ HX), (bool_decide_eq_false_2 _ HY).
    cbn [orb].
    assert (Hu : X ∪ Y <> ∅).
    { intros Hempty. apply HX. apply set_eq. intros x.
      rewrite elem_of_empty. split; [| contradiction].
      intros Hx. rewrite <- (elem_of_empty (C := gset str) x), <- Hempty.
      apply elem_of_union. now left. }
    rewrite (bool_decide_eq_false_2 _ Hu).
    pose proof (inject_nat_pos _ (size_pos_nonempty _ Hu)) as Hpos.
    split.
    + intros Hone.
      assert (Heq : (inject_Z (Z.of_nat (size (X ∩ Y)))
                     == inject_Z (Z.of_nat (size (X ∪ Y))))%Q).
      { rewrite <- (Qmult_1_l (inject_Z (Z.of_nat (size (X ∪ Y))))).
        rewrite <- Hone. field. intros H0. rewrite H0 in Hpos.
        exact (Qlt_irrefl _ Hpos). }
      apply (proj1 (inject_Z_injective _ _)) in Heq. apply Nat2Z.inj in Heq.
      assert (Hsame : X ∩ Y = X ∪ Y).
      { apply set_subseteq_size_eq; [| lia]. intros x Hx.
        apply elem_of_intersection in Hx as [Hx _].
        apply elem_of_union. now left. }
      apply set_eq. intros x.
      assert (Hx : x ∈ X ∩ Y <-> x ∈ X ∪ Y) by (rewrite Hsame; tauto).
      rewrite elem_of_intersection, elem_of_union in Hx. tauto.
    + intros Heq. rewrite <- Heq.
      assert (Hi : X ∩ X = X).
      { apply set_eq. intros x. rewrite elem_of_intersection. tauto. }
      assert (Hu' : X ∪ X = X).
      { apply set_eq. intros x. rewrite elem_of_union. tauto. }
      rewrite Hi, Hu'.
      field. intros H0.
      assert (HposX : (0 < inject_Z (Z.of_nat (size X)))%Q)
        by (apply inject_nat_pos, size_pos_nonempty, HX).
      rewrite H0 in HposX. exact (Qlt_irrefl _ HposX).
Qed.

(** ** Technical terms *)

Lemma filter_take_while_skipn (keep p : ascii -> bool) (r : str) :
  List.filter keep (take_while p r)
  ++ List.filter keep (skipn (length (take_while p r)) r)
  = List.filter keep r.
Proof.
  rewrite <- List.filter_app, take_while_skipn. reflexivity.
Qed.

Lemma sub_keywords_from_unmarked (keywords : list str) (wrap : str -> str) :
  (forall word, unmarked (wrap word) = unmarked word) ->
  forall text skip inside,
    unmarked (sub_keywords_from keywords wrap skip inside text)
    = unmarked (skipn skip text).
Proof.
  intros Hwrap. induction text as [| c r IH]; intros skip inside.
  - destruct skip; reflexivity.
  - destruct skip as [| k]; cbn [sub_keywords_from skipn]; [| apply IH].
    destruct (isword c && negb inside).
    + destruct (existsb (str_eqb (lower (c :: take_while isword r))) keywords).
      * unfold unmarked in *. rewrite List.filter_app, Hwrap, IH.
        replace (length (c :: take_while isword r) - 1)
          with (length (take_while isword r)) by (cbn [length]; lia).
        change (c :: take_while isword r)
          with ([c] ++ take_while isword r).
        rewrite List.filter_app, <- app_assoc, filter_take_while_skipn.
        rewrite <- List.filter_app. reflexivity.
      * unfold unmarked in *. cbn [List.filter].
        rewrite IH. reflexivity.
    + unfold unmarked in *. cbn [List.filter]. rewrite IH. reflexivity.
Qed.

Lemma unmarked_bold (word : str) : unmarked (bold word) = unmarked word.
Proof.
  unfold bold, unmarked. rewrite !List.filter_app.
  change (List.filter (fun c => negb (is_marker c)) (py "**")) with (@nil ascii).
  rewrite app_nil_r. reflexivity.
Qed.

Lemma unmarked_inline_code (word : str) :
  unmarked (inline_code word) = unmarked word.
Proof.
  unfold inline_code, unmarked. rewrite !List.filter_app.
  change (List.filter (fun c => negb (is_marker c)) [backtick])
    with (@nil ascii).
  rewrite app_nil_r. reflexivity.
Qed.

(** X26: [_format_technical_terms] only adds markers: without the
    asterisks and backticks, its result is the text it was given without
    them; no other character is added, dropped, moved or changed in
    case. *)
Theorem format_technical_terms_only_marks (text : str) :
  unmarked (_format_technical_terms text) = unmarked text.
Proof.
  unfold _format_technical_terms, sub_keywords. cbv zeta.
  rewrite (sub_keywords_from_unmarked _ _ unmarked_inline_code), skipn_O.
  rewrite (sub_keywords_from_unmarked _ _ unmarked_bold), skipn_O.
  rewrite (sub_keywords_from_unmarked _ _ unmarked_bold), skipn_O.
  reflexivity.
Qed.

(** ** The reply *)

(** X23: whatever executor the agent has, provided it runs the nodes, the
    reply of [process_message] names the chat it was asked about, and its
    intent is ['error'], [None], or one of the four labels. *)
Theorem process_message_intent (self : DocumentationAgent)
  (c m u : str) (h : option (list meta)) :
  runs_nodes (app_invoke self) ->
  let reply := process_message self c m u h in
  reply !! "chat_id"%string = Some (VStr c)
  /\ (reply !! "intent"%string = Some (VStr (py "error"))
      \/ reply !! "intent"%string = Some VNone
      \/ exists label, reply !! "intent"%string = Some (VStr label)
                       /\ In label valid_intents).
Proof.
  intros Happ. cbv zeta. unfold process_message.
  destruct (app_invoke self _) as [e | result] eqn:Hrun.
  - split; [apply lookup_insert_eq |]. left.
    rewrite lookup_insert_ne by discriminate.
    rewrite lookup_insert_ne by discriminate.
    apply lookup_insert_eq.
  - split; [apply lookup_insert_eq |]. right.
    rewrite lookup_insert_ne by discriminate.
    rewrite lookup_insert_ne by discriminate.
    rewrite lookup_insert_eq.
    assert (Hvalid : intent_valid result).
    { assert (Hreach : reachable result).
      { exact (steps_reachable _ _ (Happ _ _ Hrun)
                 (reachable_new _ _ _ _)). }
      clear Hrun. induction Hreach as [c' m' u' h' | st st' _ IH Hstep].
      - intros i Hi. discriminate.
      - exact (step_intent_valid _ _ Hstep IH). }
    unfold intent_valid in Hvalid.
    destruct (intent result) as [i |]; [right | now left].
    exists i. split; [reflexivity | now apply Hvalid].
Qed.

Lemma process_message_intent_witness :
  process_message (new_agent (fun _ => clarification_turn confused_world))
    (py "chat_1") (py "no entiendo") (py "user_1") None !! "chat_id"%string
  = Some (VStr (py "chat_1")).
Proof.
  refine (proj1 (process_message_intent
                   (new_agent (fun _ => clarification_turn confused_world))
                   (py "chat_1") (py "no entiendo") (py "user_1") None _)).
  exact (clarification_turn_runs_nodes confused_world).
Defined.

(** ** The identifiers of the stored fragments *)

Lemma list_ascii_of_string_inj (a b : string) :
  list_ascii_of_string a = list_ascii_of_string b -> a = b.
Proof.
  intros H. rewrite <- (string_of_list_ascii_of_string a).
  rewrite <- (string_of_list_ascii_of_string b). now rewrite H.
Qed.

Lemma decimal_inj (i j : nat) : decimal i = decimal j -> i = j.
Proof.
  unfold decimal. intros H. apply list_ascii_of_string_inj in H.
  apply (f_equal NilEmpty.uint_of_string) in H.
  rewrite !NilEmpty.usu in H. injection H as H.
  apply (f_equal Nat.of_uint) in H. now rewrite !DecimalNat.Unsigned.of_to in H.
Qed.

Lemma chunk_id_inj (chat_id : str) (i j : nat) :
  chunk_id chat_id i = chunk_id chat_id j -> i = j.
Proof.
  unfold chunk_id. intros H.
  do 3 apply app_inv_head in H. now apply decimal_inj.
Qed.

Lemma NoDup_map_inj {A B} (f : A -> B) (l : list A) :
  (forall x y, f x = f y -> x = y) -> List.NoDup l -> List.NoDup (map f l).
Proof.
  intros Hinj Hl. induction Hl as [| x l Hx Hl IH]; cbn [map]; constructor.
  - intros Hin. apply in_map_iff in Hin as [y [Heq Hy]].
    apply Hinj in Heq. now subst.
  - exact IH.
Qed.

(** X27: when [add_chunks] returns, it returns one identifier per
    fragment, the [i]-th being [chunk_<chat_id>_<i>]: the identifiers of
    one call are pairwise distinct, and they depend on the position of the
    fragment only, not on its content; with no fragment it returns [[]]
    whatever the collection does. *)
Theorem add_chunks_ids
  (collection_add : list str -> list meta -> list str -> bool)
  (chat_id : str) (chunks : list (chunk meta)) (ids : list str) :
  add_chunks collection_add chat_id chunks = Some ids ->
  length ids = length chunks
  /\ List.NoDup ids
  /\ (forall i, i < length chunks -> nth_error ids i = Some (chunk_id chat_id i))
  /\ add_chunks collection_add chat_id [] = Some [].
Proof.
  intros H.
  assert (Hids : ids = map (chunk_id chat_id) (seq 0 (length chunks))).
  { unfold add_chunks in H. destruct chunks as [| c chunks].
    - injection H as <-. reflexivity.
    - cbv zeta in H. destruct (collection_add _ _ _); [| discriminate].
      injection H as <-. reflexivity. }
  subst ids. split; [| split; [| split]].
  - rewrite length_map, length_seq. reflexivity.
  - apply NoDup_map_inj; [| apply List.seq_NoDup].
    intros i j. apply chunk_id_inj.
  - intros i Hi. rewrite nth_error_map, nth_error_seq.
    apply Nat.ltb_lt in Hi. rewrite Hi. reflexivity.
  - reflexivity.
Qed.

Lemma add_chunks_ids_witness :
  length [py "chunk_chat_1_0"] = length [short_document_text].
Proof.
  refine (proj1 (add_chunks_ids accepting_collection (py "chat_1")
                   [short_document_text] [py "chunk_chat_1_0"] _)).
  vm_compute. reflexivity.
Defined.

(** ** The words of a split text *)

Lemma cons_head_hd_tl (c : ascii) (pieces : list str) :
  cons_head c pieces = (c :: hd [] pieces) :: tl pieces.
Proof. destruct pieces; reflexivity. Qed.

Lemma split_runs_from_any_run (p : ascii -> bool) (s : str) (in_run : bool) :
  List.filter truthy (split_runs_from p in_run s)
  = List.filter truthy (split_runs_from p false s).
Proof.
  destruct s as [| c r]; [reflexivity |].
  cbn [split_runs_from]. destruct (p c); [| reflexivity].
  destruct in_run; reflexivity.
Qed.

Lemma split_runs_from_app (p : ascii -> bool) (c : ascii) (r : str) :
  p c = true ->
  forall a,
    (hd [] (split_runs_from p false (a ++ c :: r))
     = hd [] (split_runs_from p false a)
     /\ List.filter truthy (tl (split_runs_from p false (a ++ c :: r)))
        = List.filter truthy (tl (split_runs_from p false a))
          ++ List.filter truthy (split_runs_from p false r))
    /\ List.filter truthy (split_runs_from p true (a ++ c :: r))
       = List.filter truthy (split_runs_from p true a)
         ++ List.filter truthy (split_runs_from p false r).
Proof.
  intros Hc. induction a as [| x a [[IHhd IHtl] IHtrue]].
  - cbn [app split_runs_from hd tl List.filter truthy]. rewrite Hc.
    cbn [hd tl List.filter truthy app].
    rewrite (split_runs_from_any_run p r true). repeat split.
  - cbn [app split_runs_from]. destruct (p x) eqn:Hx.
    + cbn [hd tl]. repeat split; exact IHtrue.
    + rewrite !cons_head_hd_tl. cbn [hd tl List.filter truthy].
      rewrite IHhd, IHtl. repeat split.
Qed.

Lemma filter_truthy_hd_tl (pieces : list str) :
  List.filter truthy pieces
  = List.filter truthy [hd [] pieces] ++ List.filter truthy (tl pieces).
Proof.
  destruct pieces as [| piece pieces]; [reflexivity |].
  cbn [hd tl List.filter]. destruct (truthy piece); reflexivity.
Qed.

Lemma split_ws_app_space (a b : str) (c : ascii) :
  isspace c = true -> split_ws (a ++ c :: b) = split_ws a ++ split_ws b.
Proof.
  intros Hc. unfold split_ws, split_runs.
  destruct (split_runs_from_app isspace c b Hc a) as [[Hhd Htl] _].
  rewrite (filter_truthy_hd_tl (split_runs_from isspace false (a ++ c :: b))).
  rewrite (filter_truthy_hd_tl (split_runs_from isspace false a)).
  rewrite Hhd, Htl, app_assoc. reflexivity.
Qed.

Lemma split_ws_nil : split_ws [] = [].
Proof. reflexivity. Qed.

Lemma split_ws_lstrip (s : str) : split_ws (lstrip s) = split_ws s.
Proof.
  induction s as [| c r IH]; [reflexivity |].
  cbn [lstrip]. destruct (isspace c) eqn:Hc; [| reflexivity].
  rewrite IH. symmetry. exact (split_ws_app_space [] r c Hc).
Qed.

Lemma split_ws_snoc_space (s : str) (c : ascii) :
  isspace c = true -> split_ws (s ++ [c]) = split_ws s.
Proof.
  intros Hc. rewrite (split_ws_app_space s [] c Hc), split_ws_nil.
  apply app_nil_r.
Qed.

Lemma split_ws_rev_lstrip (s : str) :
  split_ws (rev (lstrip s)) = split_ws (rev s).
Proof.
  induction s as [| c r IH]; [reflexivity |].
  cbn [lstrip]. destruct (isspace c) eqn:Hc; [| reflexivity].
  cbn [rev]. rewrite split_ws_snoc_space by exact Hc. exact IH.
Qed.

Lemma split_ws_strip (s : str) : split_ws (strip s) = split_ws s.
Proof.
  unfold strip, rstrip. rewrite split_ws_rev_lstrip, rev_involutive.
  apply split_ws_lstrip.
Qed.

Lemma split_runs_from_solid (p : ascii -> bool) (w : str) :
  forallb (fun c => negb (p c)) w = true ->
  split_runs_from p false w = [w].
Proof.
  induction w as [| c w IH]; intros H; [reflexivity |].
  cbn [forallb] in H. apply andb_prop in H as [Hc Hw].
  apply negb_true_iff in Hc. cbn [split_runs_from]. rewrite Hc.
  rewrite (IH Hw). reflexivity.
Qed.

Lemma split_ws_word (text word : str) :
  In word (split_ws text) -> split_ws word = [word].
Proof.
  unfold split_ws, split_runs. intros Hin.
  apply filter_In in Hin as [Hin Hne].
  apply split_runs_from_pieces in Hin.
  rewrite (split_runs_from_solid _ _ Hin). cbn [List.filter].
  now rewrite Hne.
Qed.

Lemma split_by_words_loop_words (self : TextProcessor.t) (words : list str) :
  (forall word, In word words ->
     split_ws word = [word] /\ length word <= chunk_size self) ->
  forall chunks current,
    let out := split_by_words_loop self words chunks current in
    concat (map split_ws (fst out)) ++ split_ws (snd out)
    = concat (map split_ws chunks) ++ split_ws current ++ words.
Proof.
  induction words as [| word rest IH]; intros Hwords chunks current; cbv zeta.
  - cbn [split_by_words_loop fst snd]. now rewrite app_nil_r.
  - destruct (Hwords word (or_introl eq_refl)) as [Hword Hlen].
    assert (Hrest : forall w, In w rest ->
              split_ws w = [w] /\ length w <= chunk_size self)
      by (intros w Hw; apply Hwords; now right).
    specialize (IH Hrest). cbv zeta in IH.
    cbn [split_by_words_loop].
    destruct (chunk_size self <? length current + length word + 1).
    + destruct (truthy current) eqn:Ht.
      * rewrite IH, map_app, concat_app. cbn [map concat].
        rewrite app_nil_r, split_ws_strip, Hword, <- !app_assoc.
        reflexivity.
      * destruct current; [| discriminate].
        rewrite IH, map_app, concat_app. cbn [map concat].
        rewrite firstn_all2 by exact Hlen.
        rewrite app_nil_r, Hword, split_ws_nil, <- !app_assoc.
        reflexivity.
    + destruct (truthy current) eqn:Ht.
      * rewrite IH. change (current ++ py " " ++ word)
          with (current ++ space :: word).
        rewrite (split_ws_app_space current word space eq_refl), Hword.
        rewrite <- !app_assoc. reflexivity.
      * destruct current; [| discriminate].
        rewrite IH, Hword, split_ws_nil. reflexivity.
Qed.

(** X28: when no word of the text is longer than [chunk_size],
    [_split_by_words] loses nothing: the words of its chunks, one chunk
    after the other, are the words of the text, in the same order. *)
Theorem split_by_words_keeps_words (self : TextProcessor.t) (text : str) :
  (forall word, In word (split_ws text) -> length word <= chunk_size self) ->
  concat (map split_ws (_split_by_words self text)) = split_ws text.
Proof.
  intros Hwords. unfold _split_by_words.
  assert (Hall : forall word, In word (split_ws text) ->
            split_ws word = [word] /\ length word <= chunk_size self).
  { intros word Hin. split; [exact (split_ws_word _ _ Hin) | now apply Hwords]. }
  pose proof (split_by_words_loop_words self (split_ws text) Hall [] [])
    as Hloop.
  cbv zeta in Hloop.
  destruct (split_by_words_loop self (split_ws text) [] [])
    as [chunks current].
  cbn [fst snd map concat app] in Hloop. rewrite split_ws_nil in Hloop.
  cbn [app] in Hloop. rewrite <- Hloop.
  destruct (truthy current) eqn:Ht.
  - rewrite map_app, concat_app. cbn [map concat].
    now rewrite app_nil_r, split_ws_strip.
  - destruct current; [| discriminate].
    now rewrite split_ws_nil, app_nil_r.
Qed.

Lemma split_by_words_keeps_words_witness :
  concat (map split_ws (_split_by_words small five_words))
  = split_ws five_words.
Proof.
  apply (split_by_words_keeps_words small five_words).
  intros word Hword. vm_compute in Hword.
  repeat (destruct Hword as [<- | Hword]; [vm_compute; lia |]).
  destruct Hword.
Defined.

(** ** What a node never undoes *)

(** X29: no node takes back what an earlier node set: once
    [needs_clarification] is true it stays true, and a clarification
    question, a response or a formatted response that is set is never
    reset to [None]. *)
Theorem step_never_unsets (st st' : State) :
  step st st' ->
  (needs_clarification st = true -> needs_clarification st' = true)
  /\ (is_Some (clarification_question st) ->
      is_Some (clarification_question st'))
  /\ (is_Some (response st) -> is_Some (response st'))
  /\ (is_Some (formatted_response st) -> is_Some (formatted_response st')).
Proof.
  intros Hstep.
  destruct Hstep as
    [ st | w st st' Hrun | st | w st | st st' Hrun | w st | st | st | w st ].
  - unfold InputNode_run.
    destruct (negb (truthy (strip (user_message st)))); repeat split; exact id.
  - unfold IntentAnalysisNode_run in Hrun.
    destruct (_detect_intent_by_patterns w (user_message st) intent_patterns);
      [| discriminate].
    injection Hrun as <-. repeat split; exact id.
  - repeat split; exact id.
  - unfold RAGNode_run. destruct (firstn 5 _); repeat split; exact id.
  - unfold ContextBuilderNode_run in Hrun.
    destruct (chat_history st).
    + injection Hrun as <-. repeat split; exact id.
    + destruct (_build_context_from_history _); [| discriminate].
      injection Hrun as <-. repeat split; exact id.
  - unfold ResponseGenerationNode_run.
    destruct (llm_response w) as [answer |].
    + cbn [confidence set_response]. destruct (Qlt_bool _ _).
      * split; [reflexivity |]. split; [intros _; eexists; reflexivity |].
        split; [intros _; eexists; reflexivity | exact id].
      * split; [exact id |]. split; [exact id |].
        split; [intros _; eexists; reflexivity | exact id].
    + split; [exact id |]. split; [exact id |].
      split; [intros _; eexists; reflexivity | exact id].
  - unfold CodeFormattingNode_run.
    destruct (response st) as [[| c r] |] eqn:Hr.
    + rewrite <- Hr. repeat split; exact id.
    + split; [exact id |]. split; [exact id |]. split.
      * intros _. cbn [response set_formatted_response]. rewrite Hr.
        eexists. reflexivity.
      * intros _. eexists. reflexivity.
    + rewrite <- Hr. repeat split; exact id.
  - repeat split; exact id.
  - unfold ClarificationNode_run.
    destruct (llm_clarification w);
      (split; [reflexivity |]; split; [intros _; eexists; reflexivity |];
       split; exact id).
Qed.

Lemma step_never_unsets_witness :
  is_Some (response
             (ClarificationNode_run answering_world
                (ResponseGenerationNode_run answering_world fresh_state))).
Proof.
  refine (proj1 (proj2 (proj2
    (step_never_unsets _ _
       (step_clarification answering_world
          (ResponseGenerationNode_run answering_world fresh_state))))) _).
  eexists. reflexivity.
Defined.

(** ** The topics of a conversation *)

Lemma bump_all_keys (f : str -> nat) (sc : scores) :
  map fst (bump_all f sc) = map fst sc.
Proof.
  unfold bump_all. rewrite map_map. apply map_ext. reflexivity.
Qed.

Lemma bump_all_ext (f g : str -> nat) (sc : scores) :
  (forall k, f k = g k) -> bump_all f sc = bump_all g sc.
Proof.
  intros H. unfold bump_all. apply map_ext. intros kv. now rewrite H.
Qed.

Lemma bump_all_zero (sc : scores) : bump_all (fun _ => 0) sc = sc.
Proof.
  unfold bump_all. induction sc as [| [k v] sc IH]; [reflexivity |].
  cbn [map fst snd]. now rewrite IH, Nat.add_0_r.
Qed.

Lemma bump_all_bump_all (f g : str -> nat) (sc : scores) :
  bump_all g (bump_all f sc) = bump_all (fun k => f k + g k) sc.
Proof.
  unfold bump_all. rewrite map_map. apply map_ext. intros kv.
  cbn [fst snd]. now rewrite Nat.add_assoc.
Qed.

Lemma bump_all_absent (k : str) (sc : scores) :
  ~ In k (map fst sc) ->
  bump_all (fun k' => if bool_decide (k' = k) then 1 else 0) sc = sc.
Proof.
  intros Hk. rewrite <- (bump_all_zero sc) at 2. unfold bump_all.
  apply map_ext_in. intros kv Hkv.
  rewrite bool_decide_eq_false_2; [reflexivity |].
  intros Heq. apply Hk. rewrite <- Heq. now apply in_map.
Qed.

Lemma incr_bump (k : str) (sc : scores) :
  List.NoDup (map fst sc) -> In k (map fst sc) ->
  incr k sc
  = Some (bump_all (fun k' => if bool_decide (k' = k) then 1 else 0) sc).
Proof.
  induction sc as [| [k' v] sc IH]; intros Hnd Hin; [contradiction |].
  cbn [map fst] in Hnd, Hin. apply List.NoDup_cons_iff in Hnd as [Hk' Hnd].
  cbn [incr]. destruct (bool_decide (k' = k)) eqn:Hk.
  - apply bool_decide_eq_true_1 in Hk. subst k'.
    unfold bump_all at 1. cbn [map fst snd].
    rewrite bool_decide_eq_true_2 by reflexivity.
    fold (bump_all (fun k' => if bool_decide (k' = k) then 1 else 0) sc).
    rewrite (bump_all_absent k sc Hk'), Nat.add_1_r. reflexivity.
  - apply bool_decide_eq_false_1 in Hk.
    destruct Hin as [Heq | Hin]; [contradiction |].
    rewrite (IH Hnd Hin). unfold bump_all. cbn [map fst snd].
    rewrite bool_decide_eq_false_2 by exact Hk.
    now rewrite Nat.add_0_r.
Qed.

Lemma count_topics_bump (message_lower : str)
  (topics : list (str * list str)) :
  forall sc,
    List.NoDup (map fst sc) ->
    (forall t, In t topics -> In (fst t) (map fst sc)) ->
    count_topics message_lower topics sc
    = Some (bump_all
              (fun k =>
                 length (List.filter
                           (fun t : str * list str =>
                              bool_decide (fst t = k)
                              && mentions message_lower (snd t))
                           topics))
              sc).
Proof.
  induction topics as [| [topic keywords] rest IH]; intros sc Hnd Hkeys.
  - cbn [count_topics List.filter length]. now rewrite bump_all_zero.
  - assert (Hrest : forall t, In t rest -> In (fst t) (map fst sc))
      by (intros t Ht; apply Hkeys; now right).
    cbn [count_topics]. destruct (mentions message_lower keywords) eqn:Hm.
    + rewrite (incr_bump topic sc Hnd (Hkeys (topic, keywords) (or_introl eq_refl))).
      rewrite IH; [| now rewrite bump_all_keys | now rewrite bump_all_keys].
      rewrite bump_all_bump_all. f_equal. apply bump_all_ext. intros k.
      cbn [List.filter fst snd]. rewrite Hm, andb_true_r.
      destruct (decide (topic = k)) as [-> | Hne].
      * rewrite !bool_decide_eq_true_2 by reflexivity. reflexivity.
      * rewrite (bool_decide_eq_false_2 (topic = k)) by exact Hne.
        rewrite (bool_decide_eq_false_2 (k = topic))
          by (intros H; apply Hne; now symmetry).
        reflexivity.
    + rewrite (IH sc Hnd Hrest). f_equal. apply bump_all_ext. intros k.
      cbn [List.filter fst snd]. rewrite Hm, andb_false_r. reflexivity.
Qed.

Lemma topic_keys_nodup : List.NoDup (map fst topic_keywords).
Proof.
  apply NoDup_ListNoDup. apply (bool_decide_unpack _).
  vm_compute. exact I.
Qed.

Lemma count_messages_bump (messages : list str) :
  forall sc,
    map fst sc = map fst topic_keywords ->
    count_messages messages sc = Some (bump_all (total_hits messages) sc).
Proof.
  induction messages as [| message rest IH]; intros sc Hkeys.
  - cbn [count_messages]. unfold total_hits. cbn [map list_sum].
    now rewrite bump_all_zero.
  - cbn [count_messages]. rewrite count_topics_bump.
    + fold (hits_in (lower message)).
      rewrite IH by (now rewrite bump_all_keys).
      rewrite bump_all_bump_all. f_equal.
    + rewrite Hkeys. apply topic_keys_nodup.
    + intros t Ht. rewrite Hkeys. now apply in_map.
Qed.

Lemma hits_in_topic (message_lower topic : str) (keywords : list str) :
  In (topic, keywords) topic_keywords ->
  hits_in message_lower topic
  = if mentions message_lower keywords then 1 else 0.
Proof.
  unfold hits_in. pose proof topic_keys_nodup as Hnd.
  induction topic_keywords as [| [k kws] l IH]; intros Hin; [contradiction |].
  cbn [map fst] in Hnd. apply List.NoDup_cons_iff in Hnd as [Hk Hnd].
  cbn [List.filter fst snd]. destruct Hin as [Heq | Hin].
  - injection Heq as -> ->. rewrite bool_decide_eq_true_2 by reflexivity.
    cbn [andb].
    assert (Hnone : List.filter
              (fun t : str * list str =>
                 bool_decide (fst t = topic) && mentions message_lower (snd t))
              l = []).
    { clear -Hk. induction l as [| [k' kws'] l IHl]; [reflexivity |].
      cbn [List.filter fst snd map] in *.
      rewrite bool_decide_eq_false_2
        by (intros Heq; apply Hk; left; exact Heq).
      cbn [andb]. apply IHl. intros H. apply Hk. now right. }
    rewrite Hnone. destruct (mentions message_lower keywords); reflexivity.
  - rewrite bool_decide_eq_false_2.
    + cbn [andb]. exact (IH Hnd Hin).
    + intros Heq. apply Hk. rewrite Heq.
      change topic with (fst (topic, keywords)). now apply in_map.
Qed.

Lemma total_hits_topic (messages : list str) (topic : str)
  (keywords : list str) :
  In (topic, keywords) topic_keywords ->
  total_hits messages topic = mentioning keywords messages.
Proof.
  intros Hin. unfold total_hits, mentioning.
  induction messages as [| message rest IH]; [reflexivity |].
  cbn [map list_sum fold_right List.filter].
  rewrite (hits_in_topic _ _ _ Hin).
  change (fold_right Nat.add 0 (map (fun message => hits_in (lower message) topic) rest))
    with (list_sum (map (fun message => hits_in (lower message) topic) rest)).
  rewrite IH. destruct (mentions (lower message) keywords); reflexivity.
Qed.

Lemma insert_by_count_perm (x : str * nat) (l : scores) :
  Permutation (insert_by_count x l) (x :: l).
Proof.
  induction l as [| y l IH]; [reflexivity |].
  cbn [insert_by_count]. destruct (snd y <=? snd x); [reflexivity |].
  rewrite IH. apply perm_swap.
Qed.

Lemma sort_by_count_perm (l : scores) : Permutation (sort_by_count l) l.
Proof.
  induction l as [| x l IH]; [reflexivity |].
  cbn [sort_by_count fold_right]. fold (sort_by_count l).
  rewrite insert_by_count_perm. now apply perm_skip.
Qed.

Lemma insert_by_count_sorted (x : str * nat) (l : scores) :
  StronglySorted at_least_as_frequent l ->
  StronglySorted at_least_as_frequent (insert_by_count x l).
Proof.
  induction 1 as [| y l Hl IH Hy].
  - repeat constructor.
  - cbn [insert_by_count]. destruct (snd y <=? snd x) eqn:Hle.
    + apply Nat.leb_le in Hle. constructor; [now constructor |].
      constructor; [exact Hle |].
      rewrite List.Forall_forall in *. intros z Hz.
      unfold at_least_as_frequent in *. specialize (Hy z Hz). lia.
    + apply Nat.leb_gt in Hle. constructor; [exact IH |].
      rewrite List.Forall_forall in *. intros z Hz.
      apply (Permutation_in _ (insert_by_count_perm x l)) in Hz.
      destruct Hz as [<- | Hz]; [| now apply Hy].
      unfold at_least_as_frequent. lia.
Qed.

Lemma sort_by_count_sorted (l : scores) :
  StronglySorted at_least_as_frequent (sort_by_count l).
Proof.
  induction l as [| x l IH]; [constructor |].
  cbn [sort_by_count fold_right]. fold (sort_by_count l).
  now apply insert_by_count_sorted.
Qed.

Lemma filter_sorted {A} (R : A -> A -> Prop) (f : A -> bool) (l : list A) :
  StronglySorted R l -> StronglySorted R (List.filter f l).
Proof.
  induction 1 as [| x l Hl IH Hx]; [constructor |].
  cbn [List.filter]. destruct (f x); [| exact IH].
  constructor; [exact IH |].
  rewrite List.Forall_forall in *. intros y Hy.
  apply filter_In in Hy as [Hy _]. now apply Hx.
Qed.

Lemma filter_keys_nodup (f : str * nat -> bool) (l : scores) :
  List.NoDup (map fst l) -> List.NoDup (map fst (List.filter f l)).
Proof.
  induction l as [| x l IH]; intros Hnd; [constructor |].
  cbn [map] in Hnd. apply List.NoDup_cons_iff in Hnd as [Hx Hnd].
  cbn [List.filter]. destruct (f x); [| exact (IH Hnd)].
  cbn [map]. constructor; [| exact (IH Hnd)].
  intros Hin. apply Hx. apply in_map_iff in Hin as [y [Hy Hin]].
  apply filter_In in Hin as [Hin _]. rewrite <- Hy. now apply in_map.
Qed.

Lemma analyze_topics_counted (messages : list str) :
  _analyze_topics messages
  = List.filter (fun tc => 0 <? snd tc)
      (sort_by_count
         (bump_all (total_hits messages)
            (map (fun kv : str * list str => (fst kv, 0)) topic_keywords))).
Proof.
  unfold _analyze_topics. cbv zeta. rewrite count_messages_bump.
  - reflexivity.
  - rewrite map_map. reflexivity.
Qed.

(** X30: [_analyze_topics] lists exactly the topics that some message
    mentions, each once, with the number of messages that contain one of
    its keywords (so never more than there are messages), the most
    frequent first. *)
Theorem analyze_topics_spec (messages : list str) :
  (forall topic count,
     In (topic, count) (_analyze_topics messages) <->
     0 < count
     /\ exists keywords,
          In (topic, keywords) topic_keywords
          /\ count = mentioning keywords messages)
  /\ StronglySorted at_least_as_frequent (_analyze_topics messages)
  /\ List.NoDup (map fst (_analyze_topics messages))
  /\ (forall topic count,
        In (topic, count) (_analyze_topics messages) ->
        count <= length messages).
Proof.
  rewrite analyze_topics_counted.
  set (counts := bump_all (total_hits messages)
                   (map (fun kv : str * list str => (fst kv, 0))
                      topic_keywords)).
  assert (Hcounts : forall topic count,
            In (topic, count) counts <->
            exists keywords,
              In (topic, keywords) topic_keywords
              /\ count = mentioning keywords messages).
  { intros topic count. unfold counts, bump_all. rewrite map_map.
    cbn [fst snd]. rewrite in_map_iff. split.
    - intros [[k kws] [Heq Hin]]. cbn [fst] in Heq. injection Heq as <- <-.
      exists kws. split; [exact Hin |]. apply (total_hits_topic _ _ _ Hin).
    - intros [kws [Hin ->]]. exists (topic, kws). split; [| exact Hin].
      cbn [fst]. now rewrite (total_hits_topic _ _ _ Hin). }
  assert (Hspec : forall topic count,
            In (topic, count)
              (List.filter (fun tc => 0 <? snd tc) (sort_by_count counts)) <->
            0 < count
            /\ exists keywords,
                 In (topic, keywords) topic_keywords
                 /\ count = mentioning keywords messages).
  { intros topic count. rewrite filter_In. cbn [snd].
    rewrite Nat.ltb_lt, <- Hcounts. split.
    - intros [Hin Hpos]. split; [exact Hpos |].
      exact (Permutation_in _ (sort_by_count_perm counts) Hin).
    - intros [Hpos Hin]. split; [| exact Hpos].
      exact (Permutation_in _ (Permutation_sym (sort_by_count_perm counts)) Hin). }
  split; [exact Hspec |]. split; [| split].
  - apply filter_sorted, sort_by_count_sorted.
  - apply filter_keys_nodup.
    apply (Permutation_NoDup
             (Permutation_map fst (Permutation_sym (sort_by_count_perm counts)))).
    unfold counts. rewrite bump_all_keys, map_map. apply topic_keys_nodup.
  - intros topic count Hin. apply Hspec in Hin as [_ [kws [_ ->]]].
    unfold mentioning. apply List.filter_length_le.
Qed.

Example analyze_topics_example :
  _analyze_topics three_messages
  = [(py "ejemplos", 2); (py "código", 1); (py "sintaxis", 1)].
Proof. vm_compute. reflexivity. Qed.
